(** * python-robot: event bus, supervisor and speech segmentation

    A shallow embedding of [src/core/event_bus.py], [src/core/agent_core.py]
    and [src/modules/audio_input/wake_word_vad.py], with the properties of
    the orchestration kernel stated and proved over it, followed by the
    gateway ([src/core/backend_connector.py]) and the two modules at the
    ends of a conversation ([src/modules/ai/openai_whisper_stt.py] and
    [src/modules/ai/elevenlabs_tts.py]).

    Conventions.
    - A Python [str] is the list of its code points ([pystr]); [lit] turns
      a literal of the source into one.
    - Python objects whose type the code does not fix (event payloads,
      gateway results) are values of [pyval]; operations that Python
      resolves by the run-time type ([.get], [in], truthiness, [len],
      [.strip()]) are functions on [pyval] that return [Raise] where Python
      raises.
    - An [asyncio.Queue()] is the list of the events it holds, oldest
      first: [put] appends at the back, [get] takes the front.  The queues
      are unbounded, so [put] never suspends.
    - A coroutine is modelled up to its suspension points: the part of
      [listen] before [await queue.get()] and the completion of that
      [get] are two functions. *)

From Stdlib Require Import ZArith QArith Lqa Ascii String.
From Stdlib.Strings Require Import Byte.
From Stdlib Require Import DecimalString.
From stdpp Require Import base option list gmap.

Close Scope Q_scope.
Set Warnings "-register-all".
Local Open Scope Z_scope.

(** ** Python values *)

Module Py.

Abbreviation pystr := (list N).

(** A string literal of the source, as code points. *)
Definition lit (s : string) : pystr :=
  map N_of_ascii (list_ascii_of_string s).

Inductive pyval :=
| VNone
| VBool (b : bool)
| VInt (z : Z)
| VFloat (q : Q)
| VStr (s : pystr)
| VBytes (b : list byte)
| VList (l : list pyval)
| VDict (d : list (pystr * pyval)).

(** [bool(v)]: [None], [False], zero and empty containers are falsy. *)
Definition truthy (v : pyval) : bool :=
  match v with
  | VNone => false
  | VBool b => b
  | VInt z => negb (z =? 0)
  | VFloat q => negb (Qeq_bool q 0)
  | VStr s => negb (bool_decide (s = []))
  | VBytes b => negb (bool_decide (b = []))
  | VList l => match l with [] => false | _ => true end
  | VDict d => match d with [] => false | _ => true end
  end.

(** [type(v).__name__], as it appears in the interpreter's messages. *)
Definition type_name (v : pyval) : pystr :=
  match v with
  | VNone => lit "NoneType"
  | VBool _ => lit "bool"
  | VInt _ => lit "int"
  | VFloat _ => lit "float"
  | VStr _ => lit "str"
  | VBytes _ => lit "bytes"
  | VList _ => lit "list"
  | VDict _ => lit "dict"
  end.

(** Exceptions: an instance of a subclass of [Exception] with its class
    name and [str(e)], or [asyncio.CancelledError], which derives from
    [BaseException] and is therefore not caught by [except Exception]. *)
Inductive Exn :=
| Exception (cls : string) (msg : pystr)
| CancelledError.

Inductive Result (A : Type) :=
| Ok (a : A)
| Raise (e : Exn).
Arguments Ok {A} a.
Arguments Raise {A} e.

Definition AttributeError (v : pyval) (attr : string) : Exn :=
  Exception "AttributeError"
    (lit "'" ++ type_name v ++ lit "' object has no attribute '" ++ lit attr ++ lit "'").

Definition TypeError (msg : pystr) : Exn := Exception "TypeError" msg.

(** The first binding of [key] in a dict. *)
Fixpoint dict_lookup (d : list (pystr * pyval)) (key : pystr) : option pyval :=
  match d with
  | [] => None
  | (k, v) :: d' => if bool_decide (k = key) then Some v else dict_lookup d' key
  end.

(** [d.get(key, default)]: only a dict has the method among the values of
    [pyval]. *)
Definition get (d : pyval) (key : pystr) (default : pyval) : Result pyval :=
  match d with
  | VDict kvs => Ok (from_option id default (dict_lookup kvs key))
  | _ => Raise (AttributeError d "get")
  end.

(** [needle in hay] on two strings: [needle] is a substring of [hay]. *)
Fixpoint is_prefix (needle hay : pystr) : bool :=
  match needle, hay with
  | [], _ => true
  | _ :: _, [] => false
  | a :: needle', b :: hay' => bool_decide (a = b) && is_prefix needle' hay'
  end.

Fixpoint is_substring (needle hay : pystr) : bool :=
  is_prefix needle hay ||
  match hay with
  | [] => false
  | _ :: hay' => is_substring needle hay'
  end.

Definition is_str (key : pystr) (v : pyval) : bool :=
  match v with
  | VStr s => bool_decide (s = key)
  | _ => false
  end.

(** [key in v] for a [str] key: key membership in a dict, element
    membership in a list, substring test in a [str]; [TypeError] on the
    values that are no containers and on [bytes] (which accepts no [str]). *)
Definition contains (key : pystr) (v : pyval) : Result bool :=
  match v with
  | VDict kvs => Ok (bool_decide (is_Some (dict_lookup kvs key)))
  | VList l => Ok (existsb (is_str key) l)
  | VStr s => Ok (is_substring key s)
  | VBytes _ => Raise (TypeError (lit "a bytes-like object is required, not 'str'"))
  | _ => Raise (TypeError (lit "argument of type '" ++ type_name v ++ lit "' is not iterable"))
  end.

(** [v[key]] for a [str] key: a dict gives the value or [KeyError]; the
    sequences accept integer indices only. *)
Definition getitem (v : pyval) (key : pystr) : Result pyval :=
  match v with
  | VDict kvs =>
      match dict_lookup kvs key with
      | Some x => Ok x
      | None => Raise (Exception "KeyError" (lit "'" ++ key ++ lit "'"))
      end
  | VStr _ => Raise (TypeError (lit "string indices must be integers, not 'str'"))
  | VBytes _ => Raise (TypeError (lit "byte indices must be integers or slices, not str"))
  | VList _ => Raise (TypeError (lit "list indices must be integers or slices, not str"))
  | _ => Raise (TypeError (lit "'" ++ type_name v ++ lit "' object is not subscriptable"))
  end.

(** [len(v)]. *)
Definition len (v : pyval) : Result Z :=
  match v with
  | VStr s => Ok (Z.of_nat (length s))
  | VBytes b => Ok (Z.of_nat (length b))
  | VList l => Ok (Z.of_nat (length l))
  | VDict d => Ok (Z.of_nat (length d))
  | _ => Raise (TypeError (lit "object of type '" ++ type_name v ++ lit "' has no len()"))
  end.

(** [str.isspace] on one code point: the characters [str.strip()]
    removes (CPython's [_PyUnicode_IsWhitespace]). *)
Definition is_whitespace (c : N) : bool :=
  ((9 <=? c) && (c <=? 13) || (28 <=? c) && (c <=? 32) ||
   (c =? 133) || (c =? 160) || (c =? 5760) ||
   (8192 <=? c) && (c <=? 8202) || (c =? 8232) || (c =? 8233) ||
   (c =? 8239) || (c =? 8287) || (c =? 12288))%N.

(** [bytes.strip()] removes ASCII whitespace only. *)
Definition is_ascii_whitespace (b : byte) : bool :=
  let c := Byte.to_N b in ((9 <=? c) && (c <=? 13) || (c =? 32))%N.

Fixpoint lstrip {A} (space : A -> bool) (s : list A) : list A :=
  match s with
  | [] => []
  | c :: s' => if space c then lstrip space s' else s
  end.

Definition strip_with {A} (space : A -> bool) (s : list A) : list A :=
  rev (lstrip space (rev (lstrip space s))).

(** [v.strip()]: defined on [str] and [bytes]. *)
Definition strip (v : pyval) : Result pyval :=
  match v with
  | VStr s => Ok (VStr (strip_with is_whitespace s))
  | VBytes b => Ok (VBytes (strip_with is_ascii_whitespace b))
  | _ => Raise (AttributeError v "strip")
  end.

(** The format spec [:.2f] of an f-string: accepted by [int], [bool] and
    [float]; the other types raise. *)
Definition format_2f (v : pyval) : Result Q :=
  match v with
  | VInt z => Ok (inject_Z z)
  | VBool b => Ok (inject_Z (if b then 1 else 0))
  | VFloat q => Ok q
  | VStr _ => Raise (Exception "ValueError" (lit "Unknown format code 'f' for object of type 'str'"))
  | _ => Raise (TypeError (lit "unsupported format string passed to " ++ type_name v ++ lit ".__format__"))
  end.

End Py.
Import Py.

(** ** The event bus ([src/core/event_bus.py]) *)

Module EventBus.

(** [{"type": event_type, "payload": payload}] *)
Record Event := { ev_type : pystr; ev_payload : pyval }.

Record t := {
  subscribers : gmap pystr (list (list Event));
  default_queue : list Event
}.

(** [EventBus.__init__] *)
Definition init : t := {| subscribers := ∅; default_queue := [] |}.

Definition put {A} (queue : list A) (item : A) : list A := queue ++ [item].

(** [EventBus.emit]: the event goes to every queue registered under
    [event_type], when the key is present, and to the default queue. *)
Definition emit (bus : t) (event_type : pystr) (payload : pyval) : t :=
  let event := {| ev_type := event_type; ev_payload := payload |} in
  {| subscribers :=
       match subscribers bus !! event_type with
       | Some queues =>
           <[event_type := (fun queue => put queue event) <$> queues]> (subscribers bus)
       | None => subscribers bus
       end;
     default_queue := put (default_queue bus) event |}.

(** What a suspended [listen] holds on to: the default queue, or the queue
    it appended under [event_type], which is the one at position [index]
    of that list (queues are only ever appended to the lists). *)
Inductive Handle :=
| HDefault
| HSub (event_type : pystr) (index : nat).

#[global] Instance Handle_eq_dec : EqDecision Handle.
Proof. solve_decision. Defined.

Definition queue_of (bus : t) (h : Handle) : option (list Event) :=
  match h with
  | HDefault => Some (default_queue bus)
  | HSub event_type index => subscribers bus !! event_type ≫= (.!! index)
  end.

(** [EventBus.listen] up to its [await]: [if event_type:] is Python's
    truth test, so [None] and the empty string both take the default
    branch.  Otherwise the key is created when absent and a new
    [asyncio.Queue()] is appended under it. *)
Definition listen_subscribe (bus : t) (event_type : option pystr) : t * Handle :=
  match event_type with
  | Some (c :: s) =>
      let key := c :: s in
      let queues := default [] (subscribers bus !! key) in
      ({| subscribers := <[key := queues ++ [[]]]> (subscribers bus);
          default_queue := default_queue bus |},
       HSub key (length queues))
  | _ => (bus, HDefault)
  end.

Definition set_queue (bus : t) (h : Handle) (queue : list Event) : t :=
  match h with
  | HDefault => {| subscribers := subscribers bus; default_queue := queue |}
  | HSub event_type index =>
      {| subscribers := alter (fun queues => <[index := queue]> queues) event_type (subscribers bus);
         default_queue := default_queue bus |}
  end.

(** Completion of [await queue.get()] on the queue a listener holds: the
    oldest event is removed and returned; [None] while the queue is empty
    (the listener stays suspended). *)
Definition queue_get (bus : t) (h : Handle) : option (Event * t) :=
  match queue_of bus h with
  | Some (event :: queue) => Some (event, set_queue bus h queue)
  | _ => None
  end.

(** One operation on the bus by any of its users. *)
Inductive Op :=
| OEmit (event_type : pystr) (payload : pyval)
| OListen (event_type : option pystr)
| OGet (h : Handle).

Definition step (bus : t) (op : Op) : t :=
  match op with
  | OEmit event_type payload => emit bus event_type payload
  | OListen event_type => (listen_subscribe bus event_type).1
  | OGet h => from_option snd bus (queue_get bus h)
  end.

Definition run (bus : t) (ops : list Op) : t := foldl step bus ops.

(** The events of type [event_type] that a list of operations emits, in
    order. *)
Definition emitted (event_type : pystr) (ops : list Op) : list Event :=
  omap (fun op =>
          match op with
          | OEmit ty payload =>
              if bool_decide (ty = event_type)
              then Some {| ev_type := ty; ev_payload := payload |} else None
          | _ => None
          end) ops.

(** *** A bus in use

    One event published before anybody listens, and what happens on the
    bus after a listener for [transcription] has registered. *)

Definition bus_with_history : t := emit init (lit "speech_start") (VDict []).

Definition ops_after_listen : list Op :=
  [ OEmit (lit "speech_start") (VDict []);
    OEmit (lit "transcription") (VDict [(lit "text", VStr (lit "hello"))]);
    OListen (Some (lit "transcription"));
    OEmit (lit "transcription") (VDict [(lit "text", VStr (lit "again"))]) ].

End EventBus.

(** ** Facts about the event bus *)

Module EventBusFacts.
Import EventBus.

Section Emit.
Variables (bus : t) (event_type : pystr) (payload : pyval).

Let event := {| ev_type := event_type; ev_payload := payload |}.

Lemma emit_default_queue :
  default_queue (emit bus event_type payload) = default_queue bus ++ [event].
Proof. reflexivity. Qed.

Lemma emit_subscribers_eq :
  subscribers (emit bus event_type payload) !! event_type =
  fmap (fun queue => queue ++ [event]) <$> subscribers bus !! event_type.
Proof.
  unfold emit; simpl.
  destruct (subscribers bus !! event_type) as [queues|] eqn:E; simpl.
  - by rewrite lookup_insert_eq.
  - by rewrite E.
Qed.

Lemma emit_subscribers_ne (other : pystr) :
  other ≠ event_type →
  subscribers (emit bus event_type payload) !! other = subscribers bus !! other.
Proof.
  intros Hne. unfold emit; simpl.
  destruct (subscribers bus !! event_type); [|done].
  by rewrite lookup_insert_ne.
Qed.

Lemma emit_queue_eq (index : nat) :
  queue_of (emit bus event_type payload) (HSub event_type index) =
  (fun queue => queue ++ [event]) <$> queue_of bus (HSub event_type index).
Proof.
  unfold queue_of. rewrite emit_subscribers_eq.
  destruct (subscribers bus !! event_type) as [queues|]; simpl; [|done].
  by rewrite list_lookup_fmap.
Qed.

Lemma emit_queue_ne (other : pystr) (index : nat) :
  other ≠ event_type →
  queue_of (emit bus event_type payload) (HSub other index) =
  queue_of bus (HSub other index).
Proof. intros Hne. unfold queue_of. by rewrite emit_subscribers_ne. Qed.

Lemma emit_unknown_type :
  subscribers bus !! event_type = None →
  subscribers (emit bus event_type payload) = subscribers bus.
Proof. intros E. unfold emit; simpl. by rewrite E. Qed.

End Emit.

(** *** [listen] *)

Lemma listen_subscribe_truthy (bus : t) (event_type : pystr) :
  event_type ≠ [] →
  listen_subscribe bus (Some event_type) =
  ({| subscribers :=
        <[event_type := default [] (subscribers bus !! event_type) ++ [[]]]> (subscribers bus);
      default_queue := default_queue bus |},
   HSub event_type (length (default [] (subscribers bus !! event_type)))).
Proof. by destruct event_type. Qed.

Lemma listen_subscribe_falsy (bus : t) (event_type : option pystr) :
  event_type = None ∨ event_type = Some [] →
  listen_subscribe bus event_type = (bus, HDefault).
Proof. by intros [-> | ->]. Qed.

(** Queues already registered are still there, unchanged, after a
    [listen] by anyone. *)
Lemma listen_subscribe_keeps (bus : t) (et : option pystr) (h : Handle) (queue : list Event) :
  queue_of bus h = Some queue →
  queue_of (listen_subscribe bus et).1 h = Some queue.
Proof.
  intros Hq. destruct et as [[|c s]|]; try done.
  destruct h as [|ty index]; [done|].
  cbn [listen_subscribe fst queue_of subscribers] in *.
  destruct (decide (ty = c :: s)) as [->|Hne].
  - rewrite lookup_insert_eq. simpl.
    destruct (subscribers bus !! (c :: s)) as [queues|]; simpl in *; [|done].
    by apply lookup_app_l_Some.
  - by rewrite lookup_insert_ne.
Qed.

(** The queue a [listen] with a truthy type appends is new and empty. *)
Lemma listen_subscribe_fresh (bus : t) (event_type : pystr) :
  event_type ≠ [] →
  queue_of bus (listen_subscribe bus (Some event_type)).2 = None ∧
  queue_of (listen_subscribe bus (Some event_type)).1
           (listen_subscribe bus (Some event_type)).2 = Some [].
Proof.
  intros Hne. rewrite listen_subscribe_truthy by done.
  cbn [fst snd queue_of subscribers]. split.
  - destruct (subscribers bus !! event_type) as [queues|]; simpl; [|done].
    by apply lookup_ge_None_2.
  - rewrite lookup_insert_eq. simpl.
    by rewrite lookup_app_r, Nat.sub_diag.
Qed.

(** Completing another listener's [get] leaves this queue alone. *)
Lemma queue_get_other (bus : t) (h h' : Handle) :
  h' ≠ h →
  queue_of (from_option snd bus (queue_get bus h')) h = queue_of bus h.
Proof.
  intros Hne. unfold queue_get.
  destruct (queue_of bus h') as [[|event queue]|] eqn:E; try done.
  simpl. destruct h as [|ty index], h' as [|ty' index']; try done.
  cbn [set_queue queue_of subscribers].
  rewrite lookup_alter.
  destruct (decide (ty' = ty)) as [->|]; [|done].
  destruct (subscribers bus !! ty) as [queues|]; simpl; [|done].
  apply list_lookup_insert_ne. congruence.
Qed.

(** Completing this listener's own [get] keeps the queue registered. *)
Lemma queue_get_keeps (bus : t) (h h' : Handle) :
  is_Some (queue_of bus h) →
  is_Some (queue_of (from_option snd bus (queue_get bus h')) h).
Proof.
  intros Hq. destruct (decide (h' = h)) as [->|Hne].
  2: by rewrite queue_get_other.
  unfold queue_get.
  destruct (queue_of bus h) as [[|event queue]|] eqn:E; try done.
  simpl. destruct h as [|ty index]; [done|].
  cbn [set_queue queue_of subscribers] in *.
  rewrite lookup_alter, decide_True by done.
  destruct (subscribers bus !! ty) as [queues|]; simpl in *; [|done].
  apply lookup_lt_is_Some. rewrite length_insert.
  by apply lookup_lt_Some in E.
Qed.

Lemma emitted_app (event_type : pystr) (ops ops' : list Op) :
  emitted event_type (ops ++ ops') = emitted event_type ops ++ emitted event_type ops'.
Proof. apply omap_app. Qed.

(** One step by any user other than the holder of [HSub event_type index]:
    the queue gains the event when the step emits that type, and is
    untouched otherwise. *)
Lemma step_queue (bus : t) (event_type : pystr) (index : nat) (queue : list Event) (op : Op) :
  op ≠ OGet (HSub event_type index) →
  queue_of bus (HSub event_type index) = Some queue →
  queue_of (step bus op) (HSub event_type index) = Some (queue ++ emitted event_type [op]).
Proof.
  intros Hop Hq. destruct op as [ty payload|et|h'].
  - cbn [step emitted omap list_omap]. case_bool_decide as Hty.
    + subst ty. rewrite emit_queue_eq, Hq. done.
    + rewrite emit_queue_ne by done. by rewrite app_nil_r.
  - cbn [step emitted omap list_omap]. rewrite app_nil_r.
    by apply listen_subscribe_keeps.
  - cbn [step emitted omap list_omap]. rewrite app_nil_r.
    rewrite queue_get_other; [done|congruence].
Qed.

Lemma run_queue (ops : list Op) (bus : t) (event_type : pystr) (index : nat) (queue : list Event) :
  OGet (HSub event_type index) ∉ ops →
  queue_of bus (HSub event_type index) = Some queue →
  queue_of (run bus ops) (HSub event_type index) = Some (queue ++ emitted event_type ops).
Proof.
  revert bus queue. induction ops as [|op ops IH]; intros bus queue Hops Hq.
  - by rewrite app_nil_r.
  - apply not_elem_of_cons in Hops as [Hop Hops].
    change (run bus (op :: ops)) with (run (step bus op) ops).
    change (op :: ops) with ([op] ++ ops).
    rewrite emitted_app, app_assoc.
    apply IH; [done|]. apply step_queue; [congruence|done].
Qed.

Lemma step_registered (bus : t) (h : Handle) (op : Op) :
  is_Some (queue_of bus h) → is_Some (queue_of (step bus op) h).
Proof.
  intros Hq. destruct op as [ty payload|et|h'].
  - destruct h as [|ty' index]; [done|].
    cbn [step]. destruct (decide (ty' = ty)) as [->|Hne].
    + rewrite emit_queue_eq. by apply fmap_is_Some.
    + by rewrite emit_queue_ne.
  - destruct Hq as [queue Hq]. cbn [step].
    by rewrite (listen_subscribe_keeps _ _ _ queue).
  - by apply queue_get_keeps.
Qed.

Lemma run_registered (ops : list Op) (bus : t) (h : Handle) :
  is_Some (queue_of bus h) → is_Some (queue_of (run bus ops) h).
Proof.
  revert bus. induction ops as [|op ops IH]; intros bus Hq; [done|].
  apply IH. by apply step_registered.
Qed.

(** *** The claims about the bus *)

(** C5: a publish of an event of type [event_type] appends the event to
    the default queue and to every queue registered under [event_type]
    (each queue present before is present after, with the event added at
    its back, and no queue appears or disappears); queues of other types
    are untouched; and when the type has no entry among the subscribers,
    the subscriber table is unchanged while the default queue still
    receives the event. *)
Theorem emit_delivers (bus : t) (event_type : pystr) (payload : pyval) :
  default_queue (emit bus event_type payload) =
    default_queue bus ++ [{| ev_type := event_type; ev_payload := payload |}] ∧
  (∀ index : nat,
     queue_of (emit bus event_type payload) (HSub event_type index) =
     (fun queue => queue ++ [{| ev_type := event_type; ev_payload := payload |}])
       <$> queue_of bus (HSub event_type index)) ∧
  (∀ (other : pystr) (index : nat),
     other ≠ event_type →
     queue_of (emit bus event_type payload) (HSub other index) =
     queue_of bus (HSub other index)) ∧
  (subscribers bus !! event_type = None →
   subscribers (emit bus event_type payload) = subscribers bus).
Proof.
  split; [apply emit_default_queue|].
  split; [intros index; apply emit_queue_eq|].
  split; [intros other index; apply emit_queue_ne|].
  apply emit_unknown_type.
Qed.

(** C9, as the code has it: a call of [listen] with a non-empty event
    type registers a queue that was not registered before and is empty;
    whatever the users of the bus do next, the queue stays registered;
    and as long as nobody else takes from it, it holds exactly the events
    of that type emitted after the call, in order, so that the pending
    [get] completes with the first of them (and stays suspended while
    there is none).  Nothing published before the call is in it. *)
Theorem listen_registers_fresh_queue (bus : t) (event_type : pystr) (ops : list Op) :
  event_type ≠ [] →
  OGet (listen_subscribe bus (Some event_type)).2 ∉ ops →
  queue_of bus (listen_subscribe bus (Some event_type)).2 = None ∧
  queue_of (listen_subscribe bus (Some event_type)).1
           (listen_subscribe bus (Some event_type)).2 = Some [] ∧
  (∀ ops' : list Op,
     is_Some (queue_of (run (listen_subscribe bus (Some event_type)).1 ops')
                       (listen_subscribe bus (Some event_type)).2)) ∧
  queue_of (run (listen_subscribe bus (Some event_type)).1 ops)
           (listen_subscribe bus (Some event_type)).2 = Some (emitted event_type ops) ∧
  fst <$> queue_get (run (listen_subscribe bus (Some event_type)).1 ops)
                    (listen_subscribe bus (Some event_type)).2 =
    head (emitted event_type ops).
Proof.
  intros Hne Hops.
  destruct (listen_subscribe_fresh bus event_type Hne) as [Hold Hnew].
  split; [done|]. split; [done|].
  split. { intros ops'. apply run_registered. by rewrite Hnew. }
  assert (queue_of (run (listen_subscribe bus (Some event_type)).1 ops)
                   (listen_subscribe bus (Some event_type)).2
          = Some (emitted event_type ops)) as Hrun.
  { revert Hops Hnew. rewrite listen_subscribe_truthy by done. cbn [fst snd].
    intros Hops Hnew. by rewrite (run_queue _ _ _ _ []). }
  split; [done|].
  unfold queue_get. rewrite Hrun.
  by destruct (emitted event_type ops).
Qed.

Lemma listen_registers_fresh_queue_witness :
  fst <$> queue_get (run (listen_subscribe bus_with_history (Some (lit "transcription"))).1
                         ops_after_listen)
                    (listen_subscribe bus_with_history (Some (lit "transcription"))).2 =
  Some {| ev_type := lit "transcription";
          ev_payload := VDict [(lit "text", VStr (lit "hello"))] |}.
Proof.
  refine (proj2 (proj2 (proj2 (proj2
    (listen_registers_fresh_queue bus_with_history (lit "transcription")
       ops_after_listen _ _))))).
  - discriminate.
  - unfold ops_after_listen.
    repeat (apply not_elem_of_cons; split; [discriminate|]).
    apply not_elem_of_nil.
Defined.

(** C9 as stated fails for the empty string, which is a non-[None] event
    type: [listen] takes the default branch, registers nothing, and its
    [get] completes with an event of another type that was published
    before the call. *)
Lemma listen_empty_type_counterexample :
  listen_subscribe bus_with_history (Some (lit "")) = (bus_with_history, HDefault) ∧
  subscribers (listen_subscribe bus_with_history (Some (lit ""))).1 = ∅ ∧
  fst <$> queue_get (listen_subscribe bus_with_history (Some (lit ""))).1
                    (listen_subscribe bus_with_history (Some (lit ""))).2 =
  Some {| ev_type := lit "speech_start"; ev_payload := VDict [] |}.
Proof. done. Qed.

End EventBusFacts.

(** ** Speech segmentation ([src/modules/audio_input/wake_word_vad.py]) *)

Module WakeWordVAD.

(** *** PCM framing *)

(** One little-endian two's-complement 16-bit sample. *)
Definition int16 (lo hi : byte) : Z :=
  let u := Z.of_N (Byte.to_N lo) + 256 * Z.of_N (Byte.to_N hi) in
  if u <? 32768 then u else u - 65536.

(** [np.frombuffer(chunk, dtype=np.int16)]: [ValueError] when the buffer
    is not a whole number of samples. *)
Fixpoint frombuffer (buffer : list byte) : Result (list Z) :=
  match buffer with
  | [] => Ok []
  | [_] => Raise (Exception "ValueError" (lit "buffer size must be a multiple of element size"))
  | lo :: hi :: rest =>
      match frombuffer rest with
      | Ok pcm => Ok (int16 lo hi :: pcm)
      | Raise e => Raise e
      end
  end.

Definition byte_of_Z (z : Z) : byte :=
  default x00 (Byte.of_N (Z.to_N (z mod 256))).

(** [np.array(samples, dtype=np.int16).tobytes()] *)
Definition tobytes (samples : list Z) : list byte :=
  flat_map (fun z => [byte_of_Z z; byte_of_Z (z / 256)]) samples.

(** *** [collections.deque(maxlen=...)] *)

(** [deque.append]: the new item goes to the right end, and the leftmost
    one is discarded when the length exceeds [maxlen]. *)
Definition deque_append {A} (maxlen : nat) (d : list A) (x : A) : list A :=
  let d' := d ++ [x] in
  if (maxlen <? length d')%nat then drop 1 d' else d'.

(** [deque.extend]: the items are appended one at a time. *)
Definition deque_extend {A} (maxlen : nat) (d xs : list A) : list A :=
  foldl (deque_append maxlen) d xs.

(** *** The zero-crossing criterion (lines 128-130 and 150) *)

(** [np.sum((pcm[1:] >= 0) != (pcm[:-1] < 0))] *)
Definition zero_crossings (pcm : list Z) : Z :=
  Z.of_nat (length (filter (fun b => b = true)
    (zip_with (fun next prev => xorb (0 <=? next) (prev <? 0))
              (drop 1 pcm) (take (length pcm - 1) pcm)))).

(** [float(zero_crossings) / (len(pcm) - 1) if len(pcm) > 1 else 0.0].
    The quotient of two integers below [2^53] and the comparisons with
    the literals [0.1] and [0.5] give the same answers in exact
    arithmetic as in binary64 for every window that fits the buffer: a
    quotient [k/n] different from [1/10] (or [1/2]) is at least
    [1/(10n)] away from it. *)
Definition zcr (pcm : list Z) : Q :=
  if (1 <? length pcm)%nat
  then Qmake (zero_crossings pcm) (Pos.of_nat (length pcm - 1))
  else 0%Q.

Definition Qlt_bool (a b : Q) : bool := negb (Qle_bool b a).

(** [zcr_ok = 0.1 < zcr < 0.5] *)
Definition zcr_ok (pcm : list Z) : bool :=
  Qlt_bool (1 # 10) (zcr pcm) && Qlt_bool (zcr pcm) (1 # 2).

(** The fraction of adjacent samples of different sign, in the words of
    the specification: a pair changes sign when one sample is negative
    and the other is not. *)
Definition sign_changes (pcm : list Z) : Z :=
  Z.of_nat (length (filter (fun b => b = true)
    (zip_with (fun next prev => xorb (0 <=? next) (0 <=? prev))
              (drop 1 pcm) (take (length pcm - 1) pcm)))).

Definition sign_change_rate (pcm : list Z) : Q :=
  Qmake (sign_changes pcm) (Pos.of_nat (length pcm - 1)).

(** *** The classifier *)

Section Classifier.

(** The two criteria computed in floating point stay parameters:
    [energy_ok pcm] is [rms_energy > self.vad_threshold] (lines 125-126
    and 149, binary32 arithmetic) and [spectral_ok pcm] is
    [spectral_centroid > 0.1] (lines 133-146 and 151). *)
Variable energy_ok : list Z → bool.
Variable spectral_ok : list Z → bool.

(** [_process_audio_chunk_for_vad]: speech when at least two of the three
    criteria hold; [False] on an empty buffer and on any exception. *)
Definition _process_audio_chunk_for_vad (audio_data : list byte) : bool :=
  match frombuffer audio_data with
  | Raise _ => false
  | Ok pcm =>
      if (length pcm =? 0)%nat then false
      else
        let criteria_met :=
          Z.b2z (energy_ok pcm) + Z.b2z (zcr_ok pcm) + Z.b2z (spectral_ok pcm) in
        2 <=? criteria_met
  end.

(** *** The state machine *)

Record Config := {
  rate : N;
  silence_timeout_ms : Q
}.

(** [deque(maxlen=int(rate * 10))] *)
Definition speech_maxlen (cfg : Config) : nat := N.to_nat (rate cfg * 10).

(** [deque(maxlen=int(rate * 0.1))]: for an integer rate the binary64
    product truncates to the integer quotient by ten. *)
Definition vad_maxlen (cfg : Config) : nat := N.to_nat (rate cfg / 10).

Definition sample_width : Z := 2.
Definition channels : Z := 1.

Record State := {
  speech_buffer : list Z;
  last_speech_time : option Q;
  speech_detected : bool;
  vad_buffer : list Z
}.

(** [WakeWordVADModule.__init__] *)
Definition init : State :=
  {| speech_buffer := []; last_speech_time := None;
     speech_detected := false; vad_buffer := [] |}.

(** The state after the two [extend]s of [process_audio_chunk] (lines
    208 and 211). *)
Definition extended (cfg : Config) (st : State) (pcm : list Z) : State :=
  {| speech_buffer := deque_extend (speech_maxlen cfg) (speech_buffer st) pcm;
     last_speech_time := last_speech_time st;
     speech_detected := speech_detected st;
     vad_buffer := deque_extend (vad_maxlen cfg) (vad_buffer st) pcm |}.

(** [_handle_speech_start] *)
Definition _handle_speech_start (st : State) (bus : EventBus.t) : State * EventBus.t :=
  if speech_detected st then (st, bus)
  else
    ({| speech_buffer := speech_buffer st; last_speech_time := last_speech_time st;
        speech_detected := true; vad_buffer := vad_buffer st |},
     EventBus.emit bus (lit "speech_start") (VDict [])).

Definition audio_ready_payload (cfg : Config) (audio_bytes : list byte) : pyval :=
  VDict [ (lit "audio_data", VBytes audio_bytes);
          (lit "sample_rate", VInt (Z.of_N (rate cfg)));
          (lit "sample_width", VInt sample_width);
          (lit "channels", VInt channels) ].

(** [_handle_speech_end] *)
Definition _handle_speech_end (cfg : Config) (st : State) (bus : EventBus.t)
  : State * EventBus.t :=
  if (0 <? length (speech_buffer st))%nat then
    let audio_bytes := tobytes (speech_buffer st) in
    ({| speech_buffer := []; last_speech_time := None;
        speech_detected := false; vad_buffer := vad_buffer st |},
     EventBus.emit bus (lit "audio_ready_for_stt") (audio_ready_payload cfg audio_bytes))
  else (st, bus).

(** The verdict on the analysis window (lines 214-219). *)
Definition vad_verdict (vad_samples : list Z) : bool :=
  if (0 <? length vad_samples)%nat
  then _process_audio_chunk_for_vad (tobytes vad_samples)
  else false.

(** Truth value of [self.last_speech_time]: [None] and [0.0] are falsy. *)
Definition time_truthy (t : option Q) : bool :=
  match t with
  | Some q => negb (Qeq_bool q 0)
  | None => false
  end.

(** [process_audio_chunk], with the clock reading [current_time] (in
    milliseconds) as an input. *)
Definition process_audio_chunk (cfg : Config) (st : State) (bus : EventBus.t)
    (chunk : list byte) (current_time : Q) : Result (State * EventBus.t) :=
  match frombuffer chunk with
  | Raise e => Raise e
  | Ok pcm =>
      let st1 := extended cfg st pcm in
      if vad_verdict (vad_buffer st1) then
        let (st2, bus2) := _handle_speech_start st1 bus in
        Ok ({| speech_buffer := speech_buffer st2;
               last_speech_time := Some current_time;
               speech_detected := speech_detected st2;
               vad_buffer := vad_buffer st2 |}, bus2)
      else if speech_detected st1 && time_truthy (last_speech_time st1) then
        match last_speech_time st1 with
        | Some last =>
            let silence_duration := (current_time - last)%Q in
            if Qle_bool (silence_timeout_ms cfg) silence_duration
            then Ok (_handle_speech_end cfg st1 bus)
            else Ok (st1, bus)
        | None => Ok (st1, bus)
        end
      else Ok (st1, bus)
  end.

(** One iteration of [loop] on the chunk read from the stream: an
    exception of [process_audio_chunk] is caught and printed, and the
    loop goes on. *)
Definition loop_iteration (cfg : Config) (s : State * EventBus.t)
    (input : list byte * Q) : State * EventBus.t :=
  match process_audio_chunk cfg s.1 s.2 input.1 input.2 with
  | Ok s' => s'
  | Raise _ => s
  end.

(** [loop] over the chunks read while [self.running] holds. *)
Definition loop (cfg : Config) (s : State * EventBus.t)
    (inputs : list (list byte * Q)) : State * EventBus.t :=
  foldl (loop_iteration cfg) s inputs.

(** *** Vocabulary of the properties *)

(** The samples a list of inputs carries (an ill-formed chunk carries
    none). *)
Definition samples_of (inputs : list (list byte * Q)) : list Z :=
  flat_map (fun input => match frombuffer input.1 with Ok pcm => pcm | Raise _ => [] end)
           inputs.

(** Every chunk of [inputs] is well formed and classified silent, the
    analysis window being [vad] before the first of them. *)
Fixpoint silent_run (cfg : Config) (vad : list Z) (inputs : list (list byte * Q)) : bool :=
  match inputs with
  | [] => true
  | input :: rest =>
      match frombuffer input.1 with
      | Ok pcm =>
          negb (vad_verdict (deque_extend (vad_maxlen cfg) vad pcm)) &&
          silent_run cfg (deque_extend (vad_maxlen cfg) vad pcm) rest
      | Raise _ => false
      end
  end.

(** Every input is read less than [silence_timeout_ms] after [t0]. *)
Definition within_timeout (cfg : Config) (t0 : Q) (inputs : list (list byte * Q)) : bool :=
  forallb (fun input => negb (Qle_bool (silence_timeout_ms cfg) (input.2 - t0)%Q)) inputs.

(** The states a run of [loop] from [init] can be in. *)
Definition reachable (cfg : Config) (st : State) : Prop :=
  ∃ (bus : EventBus.t) (inputs : list (list byte * Q)),
    (loop cfg (init, bus) inputs).1 = st.

(** What holds of every reachable state: the deques are within their
    bounds, the window of an idle machine with an empty buffer is
    classified silent, and speech in progress has a recorded time and a
    non-empty buffer. *)
Definition invariant (cfg : Config) (st : State) : Prop :=
  (length (speech_buffer st) ≤ speech_maxlen cfg)%nat ∧
  (length (vad_buffer st) ≤ vad_maxlen cfg)%nat ∧
  (speech_buffer st = [] → vad_verdict (vad_buffer st) = false) ∧
  (speech_detected st = true →
   speech_buffer st ≠ [] ∧ is_Some (last_speech_time st)).

End Classifier.

(** Exact-arithmetic reading of the energy criterion,
    [sqrt(mean((pcm / 32768) ** 2)) > threshold], used to run the machine
    on concrete signals whose energy is far from the threshold. *)
Definition energy_ok_exact (threshold : Q) (pcm : list Z) : bool :=
  Qlt_bool threshold 0 ||
  Qlt_bool (threshold * threshold)
           (Qmake (foldr (fun x acc => x * x + acc) 0 pcm)
                  (Pos.of_nat (length pcm) * 2 ^ 30)).

(** The analysis windows a run classifies, in order. *)
Fixpoint windows (cfg : Config) (vad : list Z) (inputs : list (list byte * Q))
  : list (list Z) :=
  match inputs with
  | [] => []
  | input :: rest =>
      match frombuffer input.1 with
      | Ok pcm =>
          deque_extend (vad_maxlen cfg) vad pcm ::
          windows cfg (deque_extend (vad_maxlen cfg) vad pcm) rest
      | Raise _ => windows cfg vad rest
      end
  end.

(** On this window the energy and zero-crossing criteria agree, so that
    the vote does not depend on the third one. *)
Definition two_agree (energy_ok : list Z → bool) (window : list Z) : bool :=
  match frombuffer (tobytes window) with
  | Ok pcm => bool_decide (energy_ok pcm = zcr_ok pcm)
  | Raise _ => true
  end.

(** The chunk is well formed, fills the analysis window on its own, and
    its samples pass [check]. *)
Definition full_chunk (cfg : Config) (check : list Z → bool) (input : list byte * Q) : bool :=
  match frombuffer input.1 with
  | Ok pcm => (length pcm =? vad_maxlen cfg)%nat && check pcm
  | Raise _ => false
  end.

(** *** A recording session with the default parameters

    [rate=16000], [vad_threshold=0.01], [silence_timeout_ms=1000], and
    chunks of 1600 samples (100 ms), so that the analysis window is the
    chunk just read.  [quiet] is digital silence; [tone] has amplitude
    one half and changes sign on four adjacent pairs out of five. *)
Module Session.

Definition config : Config := {| rate := 16000; silence_timeout_ms := 1000 |}.

Definition energy : list Z → bool := energy_ok_exact (1 # 100).

Definition quiet_samples : list Z := replicate 1600 0.

Definition tone_samples : list Z :=
  mjoin (replicate 320 [16384; -16384; 16384; -16384; 16384]).

Definition quiet : list byte := tobytes quiet_samples.

Definition tone : list byte := tobytes tone_samples.

(** The clock reading, in milliseconds, at the [k]-th chunk. *)
Definition clock (k : Z) : Q := inject_Z (1700000000000 + 100 * k).

(** One quiet chunk, then one chunk of tone. *)
Definition onset : list (list byte * Q) := [(quiet, clock 0); (tone, clock 1)].

(** Quiet chunks read at the given ticks of the clock. *)
Definition quiet_chunks (ticks : list Z) : list (list byte * Q) :=
  map (fun k => (quiet, clock k)) ticks.

(** Nine quiet chunks, the last read 900 ms after the tone. *)
Definition pause : list (list byte * Q) := quiet_chunks [2; 3; 4; 5; 6; 7; 8; 9; 10].

Definition session : list (list byte * Q) := onset ++ pause ++ [(quiet, clock 11)].

(** A spectral criterion that never holds; the verdicts of this session
    are those of the other two criteria, whatever the third says. *)
Definition no_spectral : list Z → bool := fun _ => false.

(** The state after [onset]: speech in progress since the tone. *)
Definition speaking : State :=
  {| speech_buffer := quiet_samples ++ tone_samples;
     last_speech_time := Some (clock 1);
     speech_detected := true;
     vad_buffer := tone_samples |}.

End Session.

End WakeWordVAD.

(** ** Facts about the segmentation *)

Module WakeWordVADFacts.
Import WakeWordVAD.
Local Open Scope nat_scope.

(** *** Bounded deques *)

Section Deque.
Context {A : Type}.
Implicit Types (d xs ys : list A) (maxlen : nat).

Lemma deque_extend_nil maxlen d : deque_extend maxlen d [] = d.
Proof. reflexivity. Qed.

Lemma deque_extend_cons maxlen d x xs :
  deque_extend maxlen d (x :: xs) = deque_extend maxlen (deque_append maxlen d x) xs.
Proof. reflexivity. Qed.

Lemma deque_extend_app maxlen d xs ys :
  deque_extend maxlen d (xs ++ ys) = deque_extend maxlen (deque_extend maxlen d xs) ys.
Proof. apply foldl_app. Qed.

Lemma deque_append_length maxlen d x :
  (length d ≤ maxlen)%nat →
  length (deque_append maxlen d x) = (length d + 1) `min` maxlen.
Proof.
  intros Hd. unfold deque_append.
  destruct (Nat.ltb_spec maxlen (length (d ++ [x]))) as [Hlt|Hge];
    rewrite ?length_drop, length_app in *; simpl in *; lia.
Qed.

Lemma deque_extend_length maxlen xs : ∀ d,
  (length d ≤ maxlen)%nat →
  length (deque_extend maxlen d xs) = (length d + length xs) `min` maxlen.
Proof.
  induction xs as [|x xs IH]; intros d Hd.
  - simpl. lia.
  - rewrite deque_extend_cons, IH; rewrite deque_append_length by done; simpl; lia.
Qed.

Lemma deque_extend_bounded maxlen d xs :
  (length d ≤ maxlen)%nat → (length (deque_extend maxlen d xs) ≤ maxlen)%nat.
Proof. intros Hd. rewrite deque_extend_length by done. lia. Qed.

(** A bounded deque holds the last [maxlen] items of what was put in. *)
Lemma deque_extend_drop maxlen xs : ∀ d,
  (length d ≤ maxlen)%nat →
  deque_extend maxlen d xs = drop (length (d ++ xs) - maxlen) (d ++ xs).
Proof.
  induction xs as [|x xs IH]; intros d Hd.
  - rewrite app_nil_r. replace (length d - maxlen)%nat with 0%nat by lia. done.
  - rewrite deque_extend_cons, IH.
    2: { rewrite deque_append_length by done. lia. }
    unfold deque_append.
    destruct (Nat.ltb_spec maxlen (length (d ++ [x]))) as [Hlt|Hge].
    + rewrite length_app in Hlt. simpl in Hlt.
      assert (length d = maxlen) as Hlen by lia.
      rewrite !length_app, length_drop, length_app. simpl.
      rewrite (cons_middle x d xs), app_assoc.
      rewrite <- (drop_app_le (d ++ [x]) xs 1) by (rewrite length_app; simpl; lia).
      rewrite drop_drop. f_equal. lia.
    + by rewrite <- app_assoc.
Qed.

Lemma deque_extend_nonempty maxlen d xs :
  (length d ≤ maxlen)%nat → (0 < maxlen)%nat → d ≠ [] ∨ xs ≠ [] →
  deque_extend maxlen d xs ≠ [].
Proof.
  intros Hd Hmax Hne Hnil.
  apply (f_equal length) in Hnil. rewrite deque_extend_length in Hnil by done.
  assert (0 < length d + length xs) as Hpos.
  { destruct Hne as [Hne|Hne]; [destruct d|destruct xs]; simpl; try done; lia. }
  change (length (@nil A)) with 0 in Hnil. lia.
Qed.

(** Putting in [maxlen] items leaves exactly these. *)
Lemma deque_extend_full maxlen d xs :
  (length d ≤ maxlen)%nat → length xs = maxlen → deque_extend maxlen d xs = xs.
Proof.
  intros Hd Hxs. rewrite deque_extend_drop by done.
  rewrite length_app, Hxs.
  replace (length d + maxlen - maxlen) with (length d) by lia.
  by rewrite drop_app_length.
Qed.

(** Below the bound nothing is discarded. *)
Lemma deque_extend_fits maxlen d xs :
  (length (d ++ xs) ≤ maxlen)%nat → deque_extend maxlen d xs = d ++ xs.
Proof.
  intros Hfit. rewrite deque_extend_drop by (rewrite length_app in Hfit; lia).
  by replace (length (d ++ xs) - maxlen) with 0 by lia.
Qed.

Lemma deque_extend_zero d xs : d = [] → deque_extend 0 d xs = [].
Proof.
  intros ->. induction xs as [|x xs IH]; [done|].
  by rewrite deque_extend_cons.
Qed.

End Deque.

Lemma tobytes_length (samples : list Z) :
  length (tobytes samples) = (2 * length samples)%nat.
Proof.
  unfold tobytes. induction samples as [|z samples IH]; simpl; [done|]. lia.
Qed.

(** *** The zero-crossing criterion *)

Lemma count_complement {A B} (f g : A → B → bool) (l : list A) : ∀ k : list B,
  (∀ a b, f a b = negb (g a b)) →
  length (filter (fun b => b = true) (zip_with f l k)) +
  length (filter (fun b => b = true) (zip_with g l k)) =
  length l `min` length k.
Proof.
  induction l as [|a l IH]; intros [|b k] Hfg; simpl; try done.
  rewrite !filter_cons. specialize (IH k Hfg). rewrite Hfg.
  destruct (g a b); simpl;
    repeat (case_decide; try done); simpl; lia.
Qed.

(** What [zero_crossings] counts are the adjacent pairs that do not
    change sign: together with the pairs that do, they are all the
    pairs. *)
Lemma zero_crossings_complement (pcm : list Z) :
  (zero_crossings pcm + sign_changes pcm)%Z = Z.of_nat (length pcm - 1).
Proof.
  unfold zero_crossings, sign_changes.
  rewrite <- Nat2Z.inj_add, count_complement.
  - rewrite length_drop, length_take. f_equal. lia.
  - intros next prev.
    destruct (Z.ltb_spec prev 0), (Z.leb_spec 0 prev), (0 <=? next)%Z; simpl; lia || done.
Qed.

(** C2 fails on the code: on the window [1, 1, 1, 1, -1] one adjacent
    pair out of four changes sign, a rate of 1/4 inside the band, but the
    code computes 3/4 and the criterion is not satisfied; on the window
    [1, -1, 1, 1] two pairs out of three change sign, a rate outside the
    band, but the code computes 1/3 and the criterion is satisfied; and
    on the 100 ms window of [Session.tone_samples], where 1280 pairs out
    of 1599 change sign, the code computes 319/1599 and the criterion is
    satisfied. *)
Theorem zcr_counts_unchanged_signs :
  sign_change_rate [1; 1; 1; 1; -1]%Z = (1 # 4)%Q ∧
  zcr [1; 1; 1; 1; -1]%Z = (3 # 4)%Q ∧
  zcr_ok [1; 1; 1; 1; -1]%Z = false ∧
  sign_change_rate [1; -1; 1; 1]%Z = (2 # 3)%Q ∧
  zcr [1; -1; 1; 1]%Z = (1 # 3)%Q ∧
  zcr_ok [1; -1; 1; 1]%Z = true ∧
  sign_change_rate Session.tone_samples = (1280 # 1599)%Q ∧
  zcr Session.tone_samples = (319 # 1599)%Q ∧
  zcr_ok Session.tone_samples = true.
Proof. repeat split; vm_compute; reflexivity. Qed.

(** *** One chunk *)

Section Machine.
Variables (energy_ok spectral_ok : list Z → bool) (cfg : Config).

Local Abbreviation verdict := (vad_verdict energy_ok spectral_ok).
Local Abbreviation process := (process_audio_chunk energy_ok spectral_ok cfg).
Local Abbreviation run_loop := (loop energy_ok spectral_ok cfg).
Local Abbreviation silent := (silent_run energy_ok spectral_ok cfg).
Local Abbreviation extended := (WakeWordVAD.extended cfg).
Local Abbreviation invariant := (WakeWordVAD.invariant energy_ok spectral_ok cfg).

Lemma extended_nil (st : State) : extended st [] = st.
Proof. by destruct st. Qed.

Lemma extended_app (st : State) (xs ys : list Z) :
  extended st (xs ++ ys) = extended (extended st xs) ys.
Proof. unfold extended; simpl. by rewrite !deque_extend_app. Qed.

Lemma extended_vad_full (st : State) (pcm : list Z) :
  length (vad_buffer st) ≤ vad_maxlen cfg → length pcm = vad_maxlen cfg →
  vad_buffer (extended st pcm) = pcm.
Proof. apply deque_extend_full. Qed.

Lemma extended_speech_fits (st : State) (pcm : list Z) :
  length (speech_buffer st ++ pcm) ≤ speech_maxlen cfg →
  speech_buffer (extended st pcm) = speech_buffer st ++ pcm.
Proof. apply deque_extend_fits. Qed.

Lemma verdict_nil : verdict [] = false.
Proof. reflexivity. Qed.

(** A chunk that is not a whole number of samples changes nothing. *)
Lemma process_malformed st bus chunk now e :
  frombuffer chunk = Raise e → process st bus chunk now = Raise e.
Proof. intros E. unfold process_audio_chunk. by rewrite E. Qed.

(** A chunk classified speech: [speech_start] is published on the first
    one only, and the time of the chunk is recorded. *)
Lemma process_speech st bus chunk now pcm :
  frombuffer chunk = Ok pcm →
  verdict (vad_buffer (extended st pcm)) = true →
  process st bus chunk now =
  Ok ({| speech_buffer := speech_buffer (extended st pcm);
         last_speech_time := Some now;
         speech_detected := true;
         vad_buffer := vad_buffer (extended st pcm) |},
      if speech_detected st then bus
      else EventBus.emit bus (lit "speech_start") (VDict [])).
Proof.
  intros E Hv. unfold process_audio_chunk. rewrite E.
  fold (extended st pcm). rewrite Hv.
  unfold _handle_speech_start. by destruct st as [B l [] W].
Qed.

(** A chunk classified silent while no speech is in progress: the
    buffers grow and nothing else happens. *)
Lemma process_silent_idle st bus chunk now pcm :
  frombuffer chunk = Ok pcm →
  verdict (vad_buffer (extended st pcm)) = false →
  speech_detected st = false →
  process st bus chunk now = Ok (extended st pcm, bus).
Proof.
  intros E Hv Hs. unfold process_audio_chunk. rewrite E.
  fold (extended st pcm). rewrite Hv.
  by replace (speech_detected (extended st pcm)) with false.
Qed.

(** A chunk classified silent during speech, read before the timeout. *)
Lemma process_silent_pause st bus chunk now pcm t0 :
  frombuffer chunk = Ok pcm →
  verdict (vad_buffer (extended st pcm)) = false →
  last_speech_time st = Some t0 →
  Qle_bool (silence_timeout_ms cfg) (now - t0) = false →
  process st bus chunk now = Ok (extended st pcm, bus).
Proof.
  intros E Hv Ht Hd. unfold process_audio_chunk. rewrite E.
  fold (extended st pcm). rewrite Hv.
  replace (last_speech_time (extended st pcm)) with (Some t0).
  rewrite Hd. by destruct (_ && _).
Qed.

(** A chunk classified silent during speech, read at or after the
    timeout, the buffer holding something: the buffer is published and
    the state is reset. *)
Lemma process_silent_end st bus chunk now pcm t0 :
  frombuffer chunk = Ok pcm →
  verdict (vad_buffer (extended st pcm)) = false →
  speech_detected st = true →
  last_speech_time st = Some t0 →
  Qeq_bool t0 0 = false →
  Qle_bool (silence_timeout_ms cfg) (now - t0) = true →
  speech_buffer (extended st pcm) ≠ [] →
  process st bus chunk now =
  Ok ({| speech_buffer := []; last_speech_time := None; speech_detected := false;
         vad_buffer := vad_buffer (extended st pcm) |},
      EventBus.emit bus (lit "audio_ready_for_stt")
        (audio_ready_payload cfg (tobytes (speech_buffer (extended st pcm))))).
Proof.
  intros E Hv Hs Ht H0 Hd Hne. unfold process_audio_chunk. rewrite E.
  fold (extended st pcm). rewrite Hv.
  replace (speech_detected (extended st pcm)) with true.
  replace (last_speech_time (extended st pcm)) with (Some t0).
  cbn [time_truthy andb]. rewrite H0, Hd. cbn [negb].
  unfold _handle_speech_end.
  destruct (speech_buffer (extended st pcm)) eqn:EB; [done|]. reflexivity.
Qed.

(** *** Runs *)

Lemma loop_cons s input inputs :
  run_loop s (input :: inputs) =
  run_loop (loop_iteration energy_ok spectral_ok cfg s input) inputs.
Proof. reflexivity. Qed.

Lemma loop_app s inputs inputs' :
  run_loop s (inputs ++ inputs') = run_loop (run_loop s inputs) inputs'.
Proof. apply foldl_app. Qed.

Lemma samples_of_cons input inputs pcm :
  frombuffer input.1 = Ok pcm → samples_of (input :: inputs) = pcm ++ samples_of inputs.
Proof. intros E. unfold samples_of; simpl. by rewrite E. Qed.

Lemma samples_of_app inputs inputs' :
  samples_of (inputs ++ inputs') = samples_of inputs ++ samples_of inputs'.
Proof. apply flat_map_app. Qed.

Lemma silent_app inputs : ∀ vad inputs',
  silent vad (inputs ++ inputs') =
  silent vad inputs &&
  silent (deque_extend (vad_maxlen cfg) vad (samples_of inputs)) inputs'.
Proof.
  induction inputs as [|input inputs IH]; intros vad inputs'; [done|].
  cbn [app silent_run]. destruct (frombuffer input.1) as [pcm|e] eqn:E; [|done].
  rewrite IH, (samples_of_cons _ _ pcm), deque_extend_app by done.
  by rewrite andb_assoc.
Qed.

(** Silent chunks while no speech is in progress: every one of them only
    extends the buffers. *)
Lemma loop_silent_idle inputs : ∀ st bus,
  speech_detected st = false →
  silent (vad_buffer st) inputs = true →
  run_loop (st, bus) inputs = (extended st (samples_of inputs), bus).
Proof.
  induction inputs as [|input inputs IH]; intros st bus Hs Hsil.
  - by rewrite extended_nil.
  - simpl in Hsil. destruct (frombuffer input.1) as [pcm|e] eqn:E; [|done].
    apply andb_prop in Hsil as [Hv Hsil]. apply negb_true_iff in Hv.
    rewrite loop_cons. unfold loop_iteration. cbn [fst snd].
    rewrite (process_silent_idle _ _ _ _ pcm) by done.
    rewrite IH, (samples_of_cons _ _ pcm), extended_app; done.
Qed.

(** Silent chunks during speech, each read before the timeout counted
    from the last speech chunk: the same. *)
Lemma loop_silent_pause inputs : ∀ st bus t0,
  last_speech_time st = Some t0 →
  silent (vad_buffer st) inputs = true →
  within_timeout cfg t0 inputs = true →
  run_loop (st, bus) inputs = (extended st (samples_of inputs), bus).
Proof.
  induction inputs as [|input inputs IH]; intros st bus t0 Ht Hsil Hin.
  - by rewrite extended_nil.
  - simpl in Hsil. destruct (frombuffer input.1) as [pcm|e] eqn:E; [|done].
    apply andb_prop in Hsil as [Hv Hsil]. apply negb_true_iff in Hv.
    simpl in Hin. apply andb_prop in Hin as [Hd Hin]. apply negb_true_iff in Hd.
    rewrite loop_cons. unfold loop_iteration. cbn [fst snd].
    rewrite (process_silent_pause _ _ _ _ pcm t0) by done.
    rewrite (IH _ _ t0), (samples_of_cons _ _ pcm), extended_app; done.
Qed.

(** *** What holds of every reachable state *)

(** The three ways [process_audio_chunk] returns. *)
Lemma process_cases st bus chunk now s' :
  process st bus chunk now = Ok s' →
  ∃ pcm, frombuffer chunk = Ok pcm ∧
    ((verdict (vad_buffer (extended st pcm)) = true ∧
      s'.1 = {| speech_buffer := speech_buffer (extended st pcm);
                last_speech_time := Some now;
                speech_detected := true;
                vad_buffer := vad_buffer (extended st pcm) |}) ∨
     (verdict (vad_buffer (extended st pcm)) = false ∧ s'.1 = extended st pcm) ∨
     (verdict (vad_buffer (extended st pcm)) = false ∧
      s'.1 = {| speech_buffer := []; last_speech_time := None;
                speech_detected := false;
                vad_buffer := vad_buffer (extended st pcm) |})).
Proof.
  intros Hp. destruct (frombuffer chunk) as [pcm|e] eqn:E.
  2: { by rewrite (process_malformed _ _ _ _ e) in Hp. }
  exists pcm. split; [done|].
  destruct (verdict (vad_buffer (extended st pcm))) eqn:Hv.
  - left. rewrite (process_speech _ _ _ _ pcm) in Hp by done.
    by injection Hp as <-.
  - right. revert Hp. unfold process_audio_chunk. rewrite E.
    fold (extended st pcm). rewrite Hv.
    destruct (_ && _); [|intros [= <-]; by left].
    destruct (last_speech_time (extended st pcm)); [|intros [= <-]; by left].
    destruct (Qle_bool _ _); [|intros [= <-]; by left].
    unfold _handle_speech_end.
    destruct (0 <? length (speech_buffer (extended st pcm))); intros [= <-]; auto.
Qed.

Lemma maxlen_positive : 0 < vad_maxlen cfg → 0 < speech_maxlen cfg.
Proof.
  unfold vad_maxlen, speech_maxlen. destruct (rate cfg) as [|r]; [done|]. lia.
Qed.

Lemma invariant_init : invariant init.
Proof. repeat split; simpl; try lia; done. Qed.

Lemma invariant_process st bus chunk now s' :
  invariant st → process st bus chunk now = Ok s' → invariant s'.1.
Proof.
  intros (HB & HW & Hidle & Hsp) Hp.
  apply process_cases in Hp as (pcm & E & Hcase).
  assert (length (speech_buffer (extended st pcm)) ≤ speech_maxlen cfg) as HB'
    by by apply deque_extend_bounded.
  assert (length (vad_buffer (extended st pcm)) ≤ vad_maxlen cfg) as HW'
    by by apply deque_extend_bounded.
  destruct Hcase as [[Hv ->]|[[Hv ->]|[Hv ->]]]; cbn [speech_buffer vad_buffer
    speech_detected last_speech_time] in *.
  - assert (speech_buffer (extended st pcm) ≠ []) as Hne.
    { assert (0 < vad_maxlen cfg) as Hmax.
      { destruct (vad_buffer (extended st pcm)) eqn:EW; [by rewrite verdict_nil in Hv|].
        simpl in HW'. lia. }
      apply maxlen_positive in Hmax.
      destruct pcm as [|x pcm].
      - rewrite extended_nil in *. intros HBnil. apply Hidle in HBnil. congruence.
      - apply deque_extend_nonempty; auto. }
    split; [done|]. split; [done|]. split; [done|]. by intros _.
  - split; [done|]. split; [done|]. split; [done|].
    intros Hs. destruct (Hsp Hs) as [Hne Hl].
    split; [|done]. apply deque_extend_nonempty; auto.
    destruct (speech_buffer st); [done|]. simpl in HB. lia.
  - split; [simpl; lia|]. split; [done|]. split; done.
Qed.

Lemma invariant_loop inputs : ∀ s, invariant s.1 → invariant (run_loop s inputs).1.
Proof.
  induction inputs as [|input inputs IH]; intros s Hs; [done|].
  rewrite loop_cons. apply IH. unfold loop_iteration.
  destruct (process _ _ _ _) as [s'|e] eqn:Hp; [|done].
  by apply invariant_process in Hp.
Qed.

Lemma reachable_invariant st : reachable energy_ok spectral_ok cfg st → invariant st.
Proof. intros (bus & inputs & <-). apply invariant_loop, invariant_init. Qed.

(** When every chunk fills the analysis window, the verdicts are those
    on the chunks themselves. *)
Lemma silent_full inputs : ∀ vad,
  length vad ≤ vad_maxlen cfg →
  forallb (full_chunk cfg (fun pcm => negb (verdict pcm))) inputs = true →
  silent vad inputs = true.
Proof.
  induction inputs as [|input inputs IH]; intros vad Hvad Hfull; [done|].
  cbn [forallb] in Hfull. apply andb_prop in Hfull as [Hin Hfull].
  unfold full_chunk in Hin. cbn [silent_run].
  destruct (frombuffer input.1) as [pcm|e]; [|done].
  apply andb_prop in Hin as [Hlen%Nat.eqb_eq Hv].
  rewrite deque_extend_full by done. rewrite Hv. cbn [andb].
  apply IH; [lia|done].
Qed.

(** Silent chunks during speech up to and past the timeout: the chunk
    that reaches it publishes the buffer and resets the state, and the
    chunks after it find the machine idle. *)
Lemma loop_silent_end st bus t0 gap chunk now post :
  length (speech_buffer st) ≤ speech_maxlen cfg →
  speech_buffer st ≠ [] →
  speech_detected st = true →
  last_speech_time st = Some t0 →
  Qeq_bool t0 0 = false →
  silent (vad_buffer st) (gap ++ (chunk, now) :: post) = true →
  within_timeout cfg t0 gap = true →
  Qle_bool (silence_timeout_ms cfg) (now - t0) = true →
  run_loop (st, bus) (gap ++ (chunk, now) :: post) =
  (extended
     {| speech_buffer := []; last_speech_time := None; speech_detected := false;
        vad_buffer := vad_buffer (extended st (samples_of (gap ++ [(chunk, now)]))) |}
     (samples_of post),
   EventBus.emit bus (lit "audio_ready_for_stt")
     (audio_ready_payload cfg
        (tobytes (speech_buffer (extended st (samples_of (gap ++ [(chunk, now)]))))))).
Proof.
  intros HB Hne Hs Ht H0 Hsil Hin Hd.
  assert (0 < speech_maxlen cfg) as Hmax.
  { destruct (speech_buffer st); [done|]. simpl in HB. lia. }
  rewrite silent_app in Hsil. apply andb_prop in Hsil as [Hgap Hrest].
  cbn [silent_run fst] in Hrest.
  destruct (frombuffer chunk) as [pcm|e] eqn:E; [|done].
  apply andb_prop in Hrest as [Hv Hpost]. apply negb_true_iff in Hv.
  assert (samples_of (gap ++ [(chunk, now)]) = samples_of gap ++ pcm) as ->.
  { by rewrite samples_of_app, (samples_of_cons _ _ pcm), app_nil_r. }
  rewrite extended_app.
  rewrite loop_app, (loop_silent_pause _ _ _ t0), loop_cons by done.
  unfold loop_iteration. cbn [fst snd].
  rewrite (process_silent_end _ _ _ _ pcm t0); try done.
  - by rewrite loop_silent_idle.
  - cbn [extended speech_buffer].
    apply deque_extend_nonempty; auto.
    + by apply deque_extend_bounded.
    + left. by apply deque_extend_nonempty; auto.
Qed.

(** *** The claims about the state machine *)

Lemma silent_take inputs n vad :
  silent vad inputs = true → silent vad (take n inputs) = true.
Proof.
  intros Hsil. rewrite <- (take_drop n inputs), silent_app in Hsil.
  by apply andb_prop in Hsil as [? _].
Qed.

(** C7: from the initial state, after any number of chunks of a sequence
    all classified silent, [speech_detected] is still [False] and the bus
    is exactly as it was: no event of any type was published, so neither
    [speech_start] nor [audio_ready_for_stt]. *)
Theorem silence_never_leaves_silent (inputs : list (list byte * Q))
    (bus : EventBus.t) (n : nat) :
  silent (vad_buffer init) inputs = true →
  speech_detected (run_loop (init, bus) (take n inputs)).1 = false ∧
  (run_loop (init, bus) (take n inputs)).2 = bus.
Proof.
  intros Hsil. apply (silent_take _ n) in Hsil.
  by rewrite loop_silent_idle.
Qed.

(** C6: during speech, a gap of chunks classified silent, each read less
    than [silence_timeout_ms] after the last speech chunk, publishes
    nothing, leaves [speech_detected] and [last_speech_time] as they
    were, and the utterance buffer has taken in the samples of every
    chunk of the gap (keeping the last [maxlen] samples). *)
Theorem short_silence_keeps_speaking (st : State) (bus : EventBus.t) (t0 : Q)
    (gap : list (list byte * Q)) :
  speech_detected st = true →
  last_speech_time st = Some t0 →
  silent (vad_buffer st) gap = true →
  within_timeout cfg t0 gap = true →
  (run_loop (st, bus) gap).2 = bus ∧
  speech_detected (run_loop (st, bus) gap).1 = true ∧
  last_speech_time (run_loop (st, bus) gap).1 = Some t0 ∧
  speech_buffer (run_loop (st, bus) gap).1 =
    deque_extend (speech_maxlen cfg) (speech_buffer st) (samples_of gap) ∧
  (length (speech_buffer st) ≤ speech_maxlen cfg →
   speech_buffer (run_loop (st, bus) gap).1 =
     drop (length (speech_buffer st ++ samples_of gap) - speech_maxlen cfg)
          (speech_buffer st ++ samples_of gap)).
Proof.
  intros Hs Ht Hsil Hin. rewrite (loop_silent_pause _ _ _ t0) by done.
  cbn [fst snd extended speech_buffer speech_detected last_speech_time].
  repeat (split; [done|]). apply deque_extend_drop.
Qed.

(** C1, as the code has it: in a reachable state with speech in progress
    and a non-zero [last_speech_time], a run of chunks classified silent
    whose first chunk read at or after the timeout is [(chunk, now)]
    publishes exactly one event, [audio_ready_for_stt], on that chunk.
    Its [audio_data] is the utterance buffer at that moment: its length
    in bytes is [sample_width] times the number of samples the buffer
    held before the run plus those of the run up to that chunk, capped at
    the buffer's [maxlen].  After that chunk the state is reset
    ([speech_detected] false, no [last_speech_time], empty buffer), and
    the silent chunks that follow publish nothing and are collected in
    the buffer again. *)
Theorem silence_timeout_emits_once (st : State) (bus : EventBus.t) (t0 : Q)
    (gap : list (list byte * Q)) (chunk : list byte) (now : Q)
    (post : list (list byte * Q)) :
  reachable energy_ok spectral_ok cfg st →
  speech_detected st = true →
  last_speech_time st = Some t0 →
  Qeq_bool t0 0 = false →
  silent (vad_buffer st) (gap ++ (chunk, now) :: post) = true →
  within_timeout cfg t0 gap = true →
  Qle_bool (silence_timeout_ms cfg) (now - t0) = true →
  (run_loop (st, bus) (gap ++ (chunk, now) :: post)).2 =
    EventBus.emit bus (lit "audio_ready_for_stt")
      (audio_ready_payload cfg
         (tobytes (deque_extend (speech_maxlen cfg) (speech_buffer st)
                                (samples_of (gap ++ [(chunk, now)]))))) ∧
  Z.of_nat (length (tobytes (deque_extend (speech_maxlen cfg) (speech_buffer st)
                                          (samples_of (gap ++ [(chunk, now)]))))) =
    (sample_width *
     Z.of_nat ((length (speech_buffer st) + length (samples_of (gap ++ [(chunk, now)])))
               `min` speech_maxlen cfg))%Z ∧
  run_loop (st, bus) (gap ++ [(chunk, now)]) =
    ({| speech_buffer := []; last_speech_time := None; speech_detected := false;
        vad_buffer := deque_extend (vad_maxlen cfg) (vad_buffer st)
                                   (samples_of (gap ++ [(chunk, now)])) |},
     (run_loop (st, bus) (gap ++ (chunk, now) :: post)).2) ∧
  speech_detected (run_loop (st, bus) (gap ++ (chunk, now) :: post)).1 = false ∧
  last_speech_time (run_loop (st, bus) (gap ++ (chunk, now) :: post)).1 = None ∧
  speech_buffer (run_loop (st, bus) (gap ++ (chunk, now) :: post)).1 =
    deque_extend (speech_maxlen cfg) [] (samples_of post).
Proof.
  intros Hreach Hs Ht H0 Hsil Hin Hd.
  destruct (reachable_invariant _ Hreach) as (HB & HW & _ & Hsp).
  destruct (Hsp Hs) as [Hne _].
  assert (silent (vad_buffer st) (gap ++ [(chunk, now)]) = true) as Hsil'.
  { rewrite silent_app in Hsil. apply andb_prop in Hsil as [Hgap Hrest].
    rewrite silent_app, Hgap. cbn [silent_run andb] in *.
    destruct (frombuffer (chunk, now).1); [|done].
    apply andb_prop in Hrest as [-> _]. done. }
  rewrite (loop_silent_end _ _ t0 gap chunk now post) by done.
  rewrite (loop_silent_end _ _ t0 gap chunk now []) by done.
  cbn [fst snd extended speech_buffer speech_detected last_speech_time vad_buffer
       samples_of flat_map deque_extend foldl].
  repeat (split; [done|]). split; [|done].
  rewrite tobytes_length, deque_extend_length by done.
  unfold sample_width. lia.
Qed.

(** A whole utterance from startup: quiet chunks, one chunk classified
    speech (read at a non-zero time), and silent chunks up to the first
    one read at or after the timeout.  [speech_start] is published on the
    speech chunk and [audio_ready_for_stt] on the last one, with
    everything read since startup, the quiet chunks before the speech
    included (the last [maxlen] samples of it). *)
Theorem utterance_from_startup (bus : EventBus.t) (pre : list (list byte * Q))
    (speech : list byte) (pcm : list Z) (t0 : Q) (gap : list (list byte * Q))
    (chunk : list byte) (now : Q) :
  silent (vad_buffer init) pre = true →
  frombuffer speech = Ok pcm →
  verdict (deque_extend (vad_maxlen cfg) (vad_buffer init) (samples_of pre ++ pcm)) = true →
  Qeq_bool t0 0 = false →
  silent (deque_extend (vad_maxlen cfg) (vad_buffer init) (samples_of pre ++ pcm))
         (gap ++ [(chunk, now)]) = true →
  within_timeout cfg t0 gap = true →
  Qle_bool (silence_timeout_ms cfg) (now - t0) = true →
  (run_loop (init, bus) pre).2 = bus ∧
  (run_loop (init, bus) (pre ++ [(speech, t0)])).2 =
    EventBus.emit bus (lit "speech_start") (VDict []) ∧
  (run_loop (init, bus) (pre ++ (speech, t0) :: gap ++ [(chunk, now)])).2 =
    EventBus.emit (EventBus.emit bus (lit "speech_start") (VDict []))
      (lit "audio_ready_for_stt")
      (audio_ready_payload cfg
         (tobytes (deque_extend (speech_maxlen cfg) []
                     (samples_of (pre ++ (speech, t0) :: gap ++ [(chunk, now)]))))).
Proof.
  intros Hpre E Hv H0 Hsil Hin Hd.
  rewrite deque_extend_app in Hv, Hsil.
  assert (run_loop (init, bus) (pre ++ [(speech, t0)]) =
          ({| speech_buffer := speech_buffer (extended (extended init (samples_of pre)) pcm);
              last_speech_time := Some t0;
              speech_detected := true;
              vad_buffer := vad_buffer (extended (extended init (samples_of pre)) pcm) |},
           EventBus.emit bus (lit "speech_start") (VDict []))) as Honset.
  { rewrite loop_app, loop_silent_idle by done.
    rewrite loop_cons. unfold loop_iteration. cbn [fst snd].
    by rewrite (process_speech _ _ _ _ pcm). }
  split; [by rewrite loop_silent_idle|]. split; [by rewrite Honset|].
  assert (invariant (run_loop (init, bus) (pre ++ [(speech, t0)])).1) as Hinv.
  { apply reachable_invariant. by exists bus, (pre ++ [(speech, t0)]). }
  rewrite Honset in Hinv. destruct Hinv as (HB & _ & _ & Hsp).
  destruct (Hsp eq_refl) as [Hne _].
  rewrite (cons_middle (speech, t0)), app_assoc, loop_app, Honset.
  rewrite (loop_silent_end _ _ t0 gap chunk now []);
    [|exact HB|exact Hne|reflexivity|reflexivity|exact H0|exact Hsil|exact Hin|exact Hd].
  cbn [fst snd extended speech_buffer init].
  rewrite <- !deque_extend_app.
  rewrite !samples_of_app, (samples_of_cons (speech, t0) [] pcm) by done.
  by rewrite app_nil_r, <- !app_assoc.
Qed.

End Machine.

(** *** Runs that the spectral criterion does not influence *)

Section Spectral.
Variables (energy_ok spectral_ok spectral_ok' : list Z → bool) (cfg : Config).

Lemma verdict_two_agree (window : list Z) :
  two_agree energy_ok window = true →
  vad_verdict energy_ok spectral_ok window = vad_verdict energy_ok spectral_ok' window.
Proof.
  unfold two_agree, vad_verdict, _process_audio_chunk_for_vad.
  destruct (0 <? length window); [|done].
  destruct (frombuffer (tobytes window)) as [pcm|e]; [|done].
  intros Hagree%bool_decide_eq_true. rewrite Hagree.
  destruct (length pcm =? 0); [done|].
  by destruct (zcr_ok pcm), (spectral_ok pcm), (spectral_ok' pcm).
Qed.

Lemma process_well_formed st bus chunk now pcm :
  frombuffer chunk = Ok pcm →
  ∃ s', process_audio_chunk energy_ok spectral_ok cfg st bus chunk now = Ok s'.
Proof.
  intros E. unfold process_audio_chunk. rewrite E.
  repeat match goal with
         | |- ∃ _, (if ?c then _ else _) = _ => destruct c
         | |- ∃ _, (let (_, _) := ?p in _) = _ => destruct p
         | |- ∃ _, match ?o with Some _ => _ | None => _ end = _ => destruct o
         end; by eexists.
Qed.

Lemma process_spectral_irrelevant st bus chunk now pcm :
  frombuffer chunk = Ok pcm →
  two_agree energy_ok (deque_extend (vad_maxlen cfg) (vad_buffer st) pcm) = true →
  process_audio_chunk energy_ok spectral_ok cfg st bus chunk now =
  process_audio_chunk energy_ok spectral_ok' cfg st bus chunk now.
Proof.
  intros E Hagree. unfold process_audio_chunk. rewrite E.
  fold (extended cfg st pcm).
  by rewrite (verdict_two_agree (vad_buffer (extended cfg st pcm))).
Qed.

Lemma loop_spectral_irrelevant inputs : ∀ s,
  forallb (two_agree energy_ok) (windows cfg (vad_buffer s.1) inputs) = true →
  loop energy_ok spectral_ok cfg s inputs = loop energy_ok spectral_ok' cfg s inputs.
Proof.
  induction inputs as [|input inputs IH]; intros [st bus] Hagree; [done|].
  rewrite !loop_cons. unfold loop_iteration. cbn [fst snd windows] in *.
  destruct (frombuffer input.1) as [pcm|e] eqn:E.
  - cbn [forallb] in Hagree. apply andb_prop in Hagree as [Hw Hrest].
    rewrite <- (process_spectral_irrelevant _ _ _ _ pcm) by done.
    destruct (process_well_formed st bus input.1 input.2 pcm E) as [s' Hp].
    rewrite Hp. apply IH.
    apply process_cases in Hp as (pcm' & E' & Hcase).
    assert (pcm' = pcm) as -> by congruence.
    by destruct Hcase as [[_ ->]|[[_ ->]|[_ ->]]].
  - rewrite !(process_malformed _ _ _ _ _ _ _ e) by done. by apply IH.
Qed.

Lemma windows_full inputs : ∀ vad,
  length vad ≤ vad_maxlen cfg →
  forallb (full_chunk cfg (two_agree energy_ok)) inputs = true →
  forallb (two_agree energy_ok) (windows cfg vad inputs) = true.
Proof.
  induction inputs as [|input inputs IH]; intros vad Hvad Hfull; [done|].
  cbn [forallb] in Hfull. apply andb_prop in Hfull as [Hin Hfull].
  unfold full_chunk in Hin. cbn [windows].
  destruct (frombuffer input.1) as [pcm|e]; [|done].
  apply andb_prop in Hin as [Hlen%Nat.eqb_eq Hagree].
  rewrite deque_extend_full by done. cbn [forallb]. rewrite Hagree. cbn [andb].
  apply IH; [lia|done].
Qed.

End Spectral.

(** *** The session *)

Section SessionFacts.
Import Session.

Lemma quiet_pcm : frombuffer quiet = Ok quiet_samples.
Proof. vm_compute; reflexivity. Qed.

Lemma tone_pcm : frombuffer tone = Ok tone_samples.
Proof. vm_compute; reflexivity. Qed.

Lemma quiet_fills_window : length quiet_samples = vad_maxlen config.
Proof. vm_compute; reflexivity. Qed.

Lemma tone_fills_window : length tone_samples = vad_maxlen config.
Proof. vm_compute; reflexivity. Qed.

Lemma quiet_verdict : vad_verdict energy no_spectral quiet_samples = false.
Proof. vm_compute; reflexivity. Qed.

Lemma tone_verdict : vad_verdict energy no_spectral tone_samples = true.
Proof. vm_compute; reflexivity. Qed.

Lemma quiet_agree : two_agree energy quiet_samples = true.
Proof. vm_compute; reflexivity. Qed.

Lemma tone_agree : two_agree energy tone_samples = true.
Proof. vm_compute; reflexivity. Qed.

Lemma clock_nonzero : Qeq_bool (clock 1) 0 = false.
Proof. vm_compute; reflexivity. Qed.

Lemma pause_within : within_timeout config (clock 1) pause = true.
Proof. vm_compute; reflexivity. Qed.

Lemma closing_late : Qle_bool (silence_timeout_ms config) (clock 11 - clock 1) = true.
Proof. vm_compute; reflexivity. Qed.

Lemma pause_closing (ticks : list Z) :
  pause ++ (quiet, clock 11) :: quiet_chunks ticks =
  quiet_chunks ([2; 3; 4; 5; 6; 7; 8; 9; 10; 11]%Z ++ ticks).
Proof. reflexivity. Qed.

Lemma closing : pause ++ [(quiet, clock 11)] = quiet_chunks [2; 3; 4; 5; 6; 7; 8; 9; 10; 11]%Z.
Proof. reflexivity. Qed.

(** The samples of the session. *)

Lemma samples_of_quiet_chunks (ticks : list Z) :
  samples_of (quiet_chunks ticks) = mjoin (map (fun _ => quiet_samples) ticks).
Proof.
  induction ticks as [|k ticks IH]; [done|].
  unfold quiet_chunks. rewrite map_cons.
  rewrite (samples_of_cons _ _ quiet_samples) by exact quiet_pcm.
  fold (quiet_chunks ticks). by rewrite IH.
Qed.

Lemma samples_of_onset : samples_of onset = quiet_samples ++ tone_samples.
Proof.
  unfold onset. rewrite (samples_of_cons _ _ quiet_samples) by exact quiet_pcm.
  rewrite (samples_of_cons _ _ tone_samples) by exact tone_pcm.
  by rewrite app_nil_r.
Qed.

Lemma samples_of_session :
  samples_of session =
  (quiet_samples ++ tone_samples) ++ samples_of (pause ++ [(quiet, clock 11)]).
Proof. unfold session. by rewrite samples_of_app, samples_of_onset. Qed.

Lemma session_length : Z.of_nat (length (samples_of session)) = 19200%Z.
Proof.
  rewrite samples_of_session, closing, samples_of_quiet_chunks.
  vm_compute; reflexivity.
Qed.

Lemma session_fits : length (samples_of session) ≤ speech_maxlen config.
Proof.
  apply Nat2Z.inj_le. rewrite session_length.
  unfold speech_maxlen, config. cbn [rate]. lia.
Qed.

(** The two chunks of [onset]. *)

Lemma onset_quiet (bus : EventBus.t) :
  process_audio_chunk energy no_spectral config init bus quiet (clock 0) =
  Ok (extended config init quiet_samples, bus).
Proof.
  apply process_silent_idle; [exact quiet_pcm| |reflexivity].
  rewrite extended_vad_full; [exact quiet_verdict|apply Nat.le_0_l|exact quiet_fills_window].
Qed.

Lemma onset_window : vad_buffer (extended config init quiet_samples) = quiet_samples.
Proof. apply extended_vad_full; [apply Nat.le_0_l|exact quiet_fills_window]. Qed.

Lemma onset_buffer : speech_buffer (extended config init quiet_samples) = quiet_samples.
Proof.
  rewrite extended_speech_fits; [reflexivity|].
  etrans; [|exact session_fits]. rewrite samples_of_session, !length_app.
  change (length (speech_buffer init)) with 0. lia.
Qed.

Lemma onset_tone (bus : EventBus.t) :
  process_audio_chunk energy no_spectral config
    (extended config init quiet_samples) bus tone (clock 1) =
  Ok (speaking, EventBus.emit bus (lit "speech_start") (VDict [])).
Proof.
  rewrite (process_speech energy no_spectral config
             (extended config init quiet_samples) bus tone (clock 1) tone_samples).
  - rewrite extended_vad_full, extended_speech_fits, onset_buffer; [reflexivity| | |].
    + rewrite onset_buffer. etrans; [|exact session_fits].
      rewrite samples_of_session, !length_app. lia.
    + rewrite onset_window, quiet_fills_window. apply Nat.le_refl.
    + exact tone_fills_window.
  - exact tone_pcm.
  - rewrite extended_vad_full; [exact tone_verdict| |exact tone_fills_window].
    rewrite onset_window, quiet_fills_window. apply Nat.le_refl.
Qed.

Lemma session_onset (bus : EventBus.t) :
  loop energy no_spectral config (init, bus) onset =
  (speaking, EventBus.emit bus (lit "speech_start") (VDict [])).
Proof.
  unfold onset. rewrite !loop_cons.
  unfold loop_iteration at 2. cbn [fst snd]. rewrite onset_quiet.
  unfold loop_iteration. cbn [fst snd]. rewrite onset_tone. reflexivity.
Qed.

Lemma speaking_reachable : reachable energy no_spectral config speaking.
Proof. exists EventBus.init, onset. by rewrite session_onset. Qed.

(** The quiet chunks after it. *)

Lemma forallb_cons {A} (f : A → bool) (x : A) (l : list A) :
  forallb f (x :: l) = f x && forallb f l.
Proof. reflexivity. Qed.

Lemma quiet_full (check : list Z → bool) (now : Q) :
  check quiet_samples = true → full_chunk config check (quiet, now) = true.
Proof.
  intros Hc. unfold full_chunk. cbn [fst]. rewrite quiet_pcm, Hc, quiet_fills_window.
  by rewrite Nat.eqb_refl.
Qed.

Lemma tone_full (check : list Z → bool) (now : Q) :
  check tone_samples = true → full_chunk config check (tone, now) = true.
Proof.
  intros Hc. unfold full_chunk. cbn [fst]. rewrite tone_pcm, Hc, tone_fills_window.
  by rewrite Nat.eqb_refl.
Qed.

Lemma quiet_chunks_full (check : list Z → bool) (ticks : list Z) :
  check quiet_samples = true →
  forallb (full_chunk config check) (quiet_chunks ticks) = true.
Proof.
  intros Hc. induction ticks as [|k ticks IH]; [done|].
  unfold quiet_chunks. rewrite map_cons, forallb_cons.
  fold (quiet_chunks ticks). by rewrite quiet_full, IH.
Qed.

Lemma quiet_chunks_silent (vad : list Z) (ticks : list Z) :
  length vad ≤ vad_maxlen config →
  silent_run energy no_spectral config vad (quiet_chunks ticks) = true.
Proof.
  intros Hvad. apply silent_full; [done|].
  apply quiet_chunks_full. by rewrite quiet_verdict.
Qed.

Lemma speaking_window_fits : length (vad_buffer speaking) ≤ vad_maxlen config.
Proof.
  unfold speaking. cbn [vad_buffer]. rewrite tone_fills_window. apply Nat.le_refl.
Qed.

Lemma speaking_buffer_fits : length (speech_buffer speaking) ≤ speech_maxlen config.
Proof.
  unfold speaking. cbn [speech_buffer]. etrans; [|exact session_fits].
  rewrite samples_of_session, !length_app. lia.
Qed.

Lemma speaking_buffer_nonempty : speech_buffer speaking ≠ [].
Proof.
  intros H. apply (f_equal length) in H. unfold speaking in H. cbn [speech_buffer] in H.
  rewrite length_app, quiet_fills_window in H. vm_compute in H. discriminate H.
Qed.

Lemma session_spectral_irrelevant :
  forallb (two_agree energy) (windows config [] session) = true.
Proof.
  apply windows_full; [apply Nat.le_0_l|].
  unfold session, onset. rewrite forallb_app, !forallb_cons.
  rewrite (quiet_full _ (clock 0) quiet_agree), (tone_full _ (clock 1) tone_agree).
  rewrite closing. by rewrite quiet_chunks_full by exact quiet_agree.
Qed.

Lemma onset_spectral_irrelevant :
  forallb (two_agree energy) (windows config [] onset) = true.
Proof.
  apply windows_full; [apply Nat.le_0_l|].
  unfold onset.
  by rewrite !forallb_cons, (quiet_full _ (clock 0) quiet_agree),
       (tone_full _ (clock 1) tone_agree).
Qed.

Lemma first_spectral_irrelevant :
  forallb (two_agree energy) (windows config [] (quiet_chunks [0%Z])) = true.
Proof.
  apply windows_full; [apply Nat.le_0_l|].
  by rewrite quiet_chunks_full by exact quiet_agree.
Qed.

(** The published buffer is the whole session. *)
Lemma session_published :
  speech_buffer (extended config speaking (samples_of (pause ++ [(quiet, clock 11)]))) =
  samples_of session.
Proof.
  rewrite extended_speech_fits.
  - unfold speaking. cbn [speech_buffer]. by rewrite samples_of_session.
  - unfold speaking. cbn [speech_buffer]. rewrite <- samples_of_session.
    exact session_fits.
Qed.

End SessionFacts.

Section Witnesses.
Import Session.

Lemma silence_never_leaves_silent_witness :
  speech_detected
    (loop energy no_spectral config (init, EventBus.init)
          (take 2 (quiet_chunks [0; 1]%Z))).1 = false ∧
  (loop energy no_spectral config (init, EventBus.init)
        (take 2 (quiet_chunks [0; 1]%Z))).2 = EventBus.init.
Proof.
  exact (silence_never_leaves_silent energy no_spectral config
           (quiet_chunks [0; 1]%Z) EventBus.init 2
           (quiet_chunks_silent [] [0; 1]%Z (Nat.le_0_l _))).
Defined.

Lemma short_silence_keeps_speaking_witness :
  (loop energy no_spectral config (speaking, EventBus.init) pause).2 = EventBus.init ∧
  speech_detected (loop energy no_spectral config (speaking, EventBus.init) pause).1 = true.
Proof.
  pose proof (short_silence_keeps_speaking energy no_spectral config speaking
                EventBus.init (clock 1) pause eq_refl eq_refl
                (quiet_chunks_silent _ _ speaking_window_fits) pause_within)
    as (Hbus & Hs & _).
  exact (conj Hbus Hs).
Defined.

Lemma pause_closing_silent :
  silent_run energy no_spectral config (vad_buffer speaking)
             (pause ++ (quiet, clock 11) :: quiet_chunks [12]%Z) = true.
Proof. rewrite pause_closing. apply quiet_chunks_silent, speaking_window_fits. Qed.

Lemma silence_timeout_emits_once_witness :
  (loop energy no_spectral config (speaking, EventBus.init)
        (pause ++ (quiet, clock 11) :: quiet_chunks [12]%Z)).2 =
  EventBus.emit EventBus.init (lit "audio_ready_for_stt")
    (audio_ready_payload config
       (tobytes (deque_extend (speech_maxlen config) (speech_buffer speaking)
                              (samples_of (pause ++ [(quiet, clock 11)]))))).
Proof.
  exact (proj1 (silence_timeout_emits_once energy no_spectral config speaking
                   EventBus.init (clock 1) pause quiet (clock 11) (quiet_chunks [12]%Z)
                   speaking_reachable eq_refl eq_refl clock_nonzero
                   pause_closing_silent pause_within closing_late)).
Defined.

Lemma startup_window :
  deque_extend (vad_maxlen config) (vad_buffer init)
               (samples_of (quiet_chunks [0%Z]) ++ tone_samples) = tone_samples.
Proof.
  rewrite deque_extend_app.
  apply deque_extend_full; [apply deque_extend_bounded, Nat.le_0_l|exact tone_fills_window].
Qed.

Lemma startup_verdict :
  vad_verdict energy no_spectral
    (deque_extend (vad_maxlen config) (vad_buffer init)
                  (samples_of (quiet_chunks [0%Z]) ++ tone_samples)) = true.
Proof. rewrite startup_window. exact tone_verdict. Qed.

Lemma startup_silent :
  silent_run energy no_spectral config
    (deque_extend (vad_maxlen config) (vad_buffer init)
                  (samples_of (quiet_chunks [0%Z]) ++ tone_samples))
    (pause ++ [(quiet, clock 11)]) = true.
Proof.
  rewrite startup_window, closing. apply quiet_chunks_silent.
  rewrite tone_fills_window. apply Nat.le_refl.
Qed.

Lemma utterance_from_startup_witness :
  (loop energy no_spectral config (init, EventBus.init)
        (quiet_chunks [0%Z] ++ (tone, clock 1) :: pause ++ [(quiet, clock 11)])).2 =
  EventBus.emit (EventBus.emit EventBus.init (lit "speech_start") (VDict []))
    (lit "audio_ready_for_stt")
    (audio_ready_payload config
       (tobytes (deque_extend (speech_maxlen config) []
                   (samples_of (quiet_chunks [0%Z] ++
                                (tone, clock 1) :: pause ++ [(quiet, clock 11)]))))).
Proof.
  exact (proj2 (proj2 (utterance_from_startup energy no_spectral config EventBus.init
                         (quiet_chunks [0%Z]) tone tone_samples (clock 1) pause quiet
                         (clock 11) (quiet_chunks_silent [] [0%Z] (Nat.le_0_l _))
                         tone_pcm startup_verdict clock_nonzero startup_silent
                         pause_within closing_late))).
Defined.

End Witnesses.

(** C1 as stated fails on the session: the quiet chunk read before the
    tone is part of what is published.  Whatever the spectral criterion,
    the first chunk publishes nothing, the second one [speech_start], and
    the twelfth, read one second after the tone, [audio_ready_for_stt]
    with all 19200 samples of the session (38400 bytes), whereas the
    chunks from the one that started the speech on carry 17600 samples
    (35200 bytes); the cap of 160000 samples is not reached. *)
Lemma emission_includes_audio_before_speech_start :
  (∀ spectral_ok : list Z → bool,
     (loop Session.energy spectral_ok Session.config (init, EventBus.init)
           (take 1 Session.onset)).2 = EventBus.init ∧
     (loop Session.energy spectral_ok Session.config (init, EventBus.init)
           Session.onset).2 =
       EventBus.emit EventBus.init (lit "speech_start") (VDict []) ∧
     (loop Session.energy spectral_ok Session.config (init, EventBus.init)
           Session.session).2 =
       EventBus.emit (EventBus.emit EventBus.init (lit "speech_start") (VDict []))
         (lit "audio_ready_for_stt")
         (audio_ready_payload Session.config (tobytes (samples_of Session.session)))) ∧
  Session.session = Session.onset ++ Session.quiet_chunks [2; 3; 4; 5; 6; 7; 8; 9; 10; 11]%Z ∧
  Z.of_nat (length (tobytes (samples_of Session.session))) = 38400%Z ∧
  (sample_width * Z.of_nat (length (samples_of (drop 1 Session.session))) = 35200)%Z ∧
  Z.of_nat (speech_maxlen Session.config) = 160000%Z.
Proof.
  split; [|split; [|split; [|split]]].
  - intros spectral_ok. split; [|split].
    + change (take 1 Session.onset) with (Session.quiet_chunks [0%Z]).
      rewrite (loop_spectral_irrelevant _ _ Session.no_spectral)
        by exact first_spectral_irrelevant.
      rewrite loop_silent_idle; [done|done|].
      apply quiet_chunks_silent, Nat.le_0_l.
    + rewrite (loop_spectral_irrelevant _ _ Session.no_spectral)
        by exact onset_spectral_irrelevant.
      by rewrite session_onset.
    + rewrite (loop_spectral_irrelevant _ _ Session.no_spectral)
        by exact session_spectral_irrelevant.
      unfold Session.session at 1. rewrite loop_app, session_onset.
      rewrite (loop_silent_end Session.energy Session.no_spectral Session.config
                 Session.speaking
                 (EventBus.emit EventBus.init (lit "speech_start") (VDict []))
                 (Session.clock 1) Session.pause Session.quiet (Session.clock 11) []
                 speaking_buffer_fits speaking_buffer_nonempty eq_refl eq_refl
                 clock_nonzero);
        [|rewrite closing; apply quiet_chunks_silent, speaking_window_fits
         |exact pause_within|exact closing_late].
      by rewrite session_published.
  - reflexivity.
  - rewrite tobytes_length, Nat2Z.inj_mul, session_length. reflexivity.
  - change (drop 1 Session.session) with
      ((Session.tone, Session.clock 1) :: Session.pause ++ [(Session.quiet, Session.clock 11)]).
    rewrite (samples_of_cons _ _ Session.tone_samples) by exact tone_pcm.
    rewrite closing, samples_of_quiet_chunks.
    vm_compute; reflexivity.
  - unfold speech_maxlen, Session.config. cbn [rate]. lia.
Qed.

End WakeWordVADFacts.

(** ** The supervisor ([src/core/agent_core.py]) *)

Module AgentCore.

(** A task created with [asyncio.create_task]. *)
Inductive Task :=
| LoopTask (module : nat)
| EventHandlerTask.

(** A line written by [print]: the fixed text of the f-string and the
    values formatted into it.  The lines of the [except] clause of
    [_handle_transcription] all start with [[CHAT ERROR]] and carry
    [str(e)]; which of the three wordings follows is not modelled. *)
Record Line := { line_text : string; line_args : list pyval }.

(** What the supervisor sees of a module at startup: whether its
    [start()] completes or raises. *)
Record ModuleBase := { module_start : Result unit }.

(** One call of [backend.chat] with its keyword arguments. *)
Record ChatCall := {
  message : pyval;
  call_sender_name : pystr;
  call_agent_name : pystr;
  call_chat_history : list pyval
}.

Record t := {
  event_bus : EventBus.t;
  modules : list ModuleBase;
  tasks : list Task;
  agent_name : pystr;
  sender_name : pystr;
  chat_history : list pyval;
  (** observations: what was printed, which modules had [start()]
      invoked, and the calls of the gateway with their outcomes *)
  stdout : list Line;
  started : list nat;
  backend_calls : list (ChatCall * Result pyval)
}.

(** [AgentCore.__init__] *)
Definition init (modules : list ModuleBase) (agent_name sender_name : pystr) : t :=
  {| event_bus := EventBus.init; modules := modules; tasks := [];
     agent_name := agent_name; sender_name := sender_name; chat_history := [];
     stdout := []; started := []; backend_calls := [] |}.

(** *** State and exceptions *)

Definition M (A : Type) : Type := t → Result A * t.

Definition ret {A} (a : A) : M A := fun core => (Ok a, core).

Definition bind {A B} (m : M A) (k : A → M B) : M B :=
  fun core =>
    match m core with
    | (Ok a, core') => k a core'
    | (Raise e, core') => (Raise e, core')
    end.

#[global] Instance M_ret : MRet M := @ret.
#[global] Instance M_bind : MBind M := fun A B k m => bind m k.

(** A Python operation that raises or returns without touching the
    supervisor. *)
Definition lift {A} (r : Result A) : M A := fun core => (r, core).

(** [try: body except Exception as e: handler(str(e))]; a
    [CancelledError] passes through. *)
Definition try_except {A} (body : M A) (handler : pystr → M A) : M A :=
  fun core =>
    match body core with
    | (Raise (Exception _ msg), core') => handler msg core'
    | r => r
    end.

Definition print (text : string) (args : list pyval) : M unit :=
  fun core =>
    (Ok (),
     {| event_bus := event_bus core; modules := modules core; tasks := tasks core;
        agent_name := agent_name core; sender_name := sender_name core;
        chat_history := chat_history core;
        stdout := stdout core ++ [{| line_text := text; line_args := args |}];
        started := started core; backend_calls := backend_calls core |}).

(** [self.chat_history.append(turn)] *)
Definition history_append (turn : pyval) : M unit :=
  fun core =>
    (Ok (),
     {| event_bus := event_bus core; modules := modules core; tasks := tasks core;
        agent_name := agent_name core; sender_name := sender_name core;
        chat_history := chat_history core ++ [turn];
        stdout := stdout core;
        started := started core; backend_calls := backend_calls core |}).

Definition set_event_bus (core : t) (bus : EventBus.t) : t :=
  {| event_bus := bus; modules := modules core; tasks := tasks core;
     agent_name := agent_name core; sender_name := sender_name core;
     chat_history := chat_history core; stdout := stdout core;
     started := started core; backend_calls := backend_calls core |}.

(** [await self.event_bus.emit(event_type, payload)] *)
Definition emit (event_type : pystr) (payload : pyval) : M unit :=
  fun core => (Ok (), set_event_bus core (EventBus.emit (event_bus core) event_type payload)).

(** [self.tasks.append(asyncio.create_task(...))] *)
Definition create_task (task : Task) : M unit :=
  fun core =>
    (Ok (),
     {| event_bus := event_bus core; modules := modules core;
        tasks := tasks core ++ [task];
        agent_name := agent_name core; sender_name := sender_name core;
        chat_history := chat_history core; stdout := stdout core;
        started := started core; backend_calls := backend_calls core |}).

(** [await module.start()] for the module at position [index]. *)
Definition await_start (index : nat) (module : ModuleBase) : M unit :=
  fun core =>
    (module_start module,
     {| event_bus := event_bus core; modules := modules core; tasks := tasks core;
        agent_name := agent_name core; sender_name := sender_name core;
        chat_history := chat_history core; stdout := stdout core;
        started := started core ++ [index]; backend_calls := backend_calls core |}).

(** *** [AgentCore.start] *)

(** The [for module in self.modules:] loop, [index] being the position
    of the first module of [rest]. *)
Fixpoint start_modules (index : nat) (rest : list ModuleBase) : M unit :=
  match rest with
  | [] => ret ()
  | module :: rest' =>
      await_start index module;;
      create_task (LoopTask index);;
      start_modules (S index) rest'
  end.

Definition start : M unit :=
  print "Starting agent core..." [];;
  ((fun core => start_modules 0 (modules core) core) : M unit);;
  create_task EventHandlerTask.

(** *** The chat workflow and the dispatch loop *)

(** The keyword arguments of [self.backend.chat(message=text, ...)]. *)
Definition call_of (core : t) (text : pyval) : ChatCall :=
  {| message := text; call_sender_name := sender_name core;
     call_agent_name := agent_name core; call_chat_history := chat_history core |}.

Section Backend.

(** The gateway: the outcome of [await self.backend.chat(...)], given
    the calls made so far and the arguments of this one. *)
Variable backend_chat : list (ChatCall * Result pyval) → ChatCall → Result pyval.

Definition await_backend_chat (text : pyval) : M pyval :=
  fun core =>
    let call := call_of core text in
    let outcome := backend_chat (backend_calls core) call in
    (outcome,
     {| event_bus := event_bus core; modules := modules core; tasks := tasks core;
        agent_name := agent_name core; sender_name := sender_name core;
        chat_history := chat_history core; stdout := stdout core;
        started := started core;
        backend_calls := backend_calls core ++ [(call, outcome)] |}).

Definition turn (role : string) (content : pyval) : pyval :=
  VDict [(lit "role", VStr (lit role)); (lit "content", content)].

(** The gateway's result carries an error: [result["response"]] is a
    dict with the key ["error"], as [BackendConnector.chat] builds it
    from an HTTP failure. *)
Definition error_response (result : pyval) : bool :=
  match result with
  | VDict r =>
      match dict_lookup r (lit "response") with
      | Some (VDict d) => bool_decide (is_Some (dict_lookup d (lit "error")))
      | _ => false
      end
  | _ => false
  end.

(** Lines 60-75: what is done with [result["response"]]. *)
Definition handle_response (chat_response : pyval) : M unit :=
  has_error ← lift (contains (lit "error") chat_response);
  if has_error : bool then
    error ← lift (getitem chat_response (lit "error"));
    print "[CHAT ERROR]" [error]
  else
    has_response ← lift (contains (lit "response") chat_response);
    if has_response : bool then
      agent_response ← lift (getitem chat_response (lit "response"));
      print "[CHAT] Agent response:" [agent_response];;
      history_append (turn "assistant" agent_response);;
      emit (lit "agent_response") (VDict [(lit "text", agent_response)])
    else
      print "[CHAT] Unexpected response format:" [chat_response].

(** [_handle_transcription] *)
Definition _handle_transcription (text payload : pyval) : M unit :=
  if negb (truthy text) then ret ()
  else
    stripped ← lift (strip text);
    if negb (truthy stripped) then ret ()
    else
      try_except
        (print "[CHAT] Sending message to agent:" [text];;
         result ← await_backend_chat text;
         history_append (turn "user" text);;
         chat_response ← lift (get result (lit "response") VNone);
         (if truthy chat_response then handle_response chat_response else ret ());;
         payment ← lift (get result (lit "paymentResponse") VNone);
         if truthy payment then print "[CHAT] Payment processed:" [payment] else ret ())
        (fun error_msg => print "[CHAT ERROR]" [VStr error_msg]).

(** The number a payload field stands for in arithmetic, when it is one. *)
Definition numeric (v : pyval) : option Q :=
  match v with
  | VInt z => Some (inject_Z z)
  | VBool b => Some (inject_Z (if b then 1 else 0))
  | VFloat q => Some q
  | _ => None
  end.

(** Lines 108-113: [audio_size_bytes / (sample_rate * sample_width *
    channels)] when the three are truthy, else [0].  The three being
    truthy, the division is defined exactly when they are numbers (a
    sequence times a number is a sequence again, which the division
    rejects). *)
Definition audio_duration_sec (audio_size_bytes : Z) (sample_rate sample_width channels : pyval)
  : Result Q :=
  if truthy sample_rate && truthy sample_width && truthy channels then
    match numeric sample_rate, numeric sample_width, numeric channels with
    | Some r, Some w, Some c => Ok (inject_Z audio_size_bytes / (r * w * c))%Q
    | _, _, _ => Raise (TypeError (lit "unsupported operand type(s)"))
    end
  else Ok 0%Q.

(** The body of the [try] of [_event_handler_loop] after [listen]
    returned [event]. *)
Definition dispatch (event : EventBus.Event) : M unit :=
  let event_type := EventBus.ev_type event in
  let payload := EventBus.ev_payload event in
  if bool_decide (event_type = lit "wake_word_detected") then
    print "[EVENT] Wake word detected! Payload:" [payload]
  else if bool_decide (event_type = lit "speech_start") then
    print "[EVENT] Speech started. Payload:" [payload]
  else if bool_decide (event_type = lit "audio_ready_for_stt") then
    audio_data ← lift (get payload (lit "audio_data") VNone);
    sample_rate ← lift (get payload (lit "sample_rate") VNone);
    sample_width ← lift (get payload (lit "sample_width") VNone);
    channels ← lift (get payload (lit "channels") VNone);
    audio_size_bytes ← lift (if truthy audio_data then len audio_data else Ok 0);
    duration ← lift (audio_duration_sec audio_size_bytes sample_rate sample_width channels);
    print "[EVENT] Audio ready for STT:"
          [VInt audio_size_bytes; VFloat duration; sample_rate; sample_width; channels]
  else if bool_decide (event_type = lit "transcription") then
    text ← lift (get payload (lit "text") VNone);
    duration ← lift (get payload (lit "audio_duration") (VInt 0));
    provider ← lift (get payload (lit "provider") (VStr (lit "unknown")));
    formatted ← lift (format_2f duration);
    print "[EVENT] Transcription received:" [text; VFloat formatted; provider];;
    _handle_transcription text payload
  else ret ().

(** How a run of the loop stops: suspended in [listen] on an empty
    default queue, or left through [break] on cancellation. *)
Inductive Exit :=
| Waiting
| Cancelled.

(** [_event_handler_loop], for at most [fuel] iterations ([None] when
    they do not suffice).  [listen()] takes the oldest event of the
    default queue. *)
Fixpoint _event_handler_loop (fuel : nat) (core : t) : option (Exit * t) :=
  match fuel with
  | O => None
  | S fuel' =>
      match EventBus.queue_get (event_bus core) EventBus.HDefault with
      | None => Some (Waiting, core)
      | Some (event, bus) =>
          match dispatch event (set_event_bus core bus) with
          | (Ok _, core') => _event_handler_loop fuel' core'
          | (Raise CancelledError, core') => Some (Cancelled, core')
          | (Raise (Exception _ msg), core') =>
              _event_handler_loop fuel'
                (print "[ERROR] Event handler error:" [VStr msg] core').2
          end
      end
  end.

End Backend.

(** *** A conversation

    A supervisor without modules, a transcription of the word "hello", a
    transcription of two spaces, a gateway that times out, a gateway
    that answers with an error and a gateway that answers. *)
Module Conversation.

Definition core : t := init [] (lit "0xdacd02dd0ce8a923ad26d4c49bb94ece09306c3e") (lit "User").

Definition hello : pyval := VStr (lit "hello").

Definition payload_of (text : pyval) : pyval :=
  VDict [ (lit "text", text);
          (lit "audio_duration", VFloat (3 # 2));
          (lit "provider", VStr (lit "openai_whisper")) ].

Definition timeout_backend : list (ChatCall * Result pyval) → ChatCall → Result pyval :=
  fun _ _ => Raise (Exception "ReadTimeout" (lit "ReadTimeout: timed out")).

Definition error_result : pyval :=
  VDict [ (lit "paymentResponse", VNone);
          (lit "response", VDict [(lit "error", VStr (lit "timeout"))]) ].

Definition error_backend : list (ChatCall * Result pyval) → ChatCall → Result pyval :=
  fun _ _ => Ok error_result.

(** The supervisor with one blank transcription waiting in the default
    queue. *)
Definition core_with_blank : t :=
  set_event_bus core
    (EventBus.emit EventBus.init (lit "transcription") (payload_of (VStr (lit "  ")))).

Definition answer_result : pyval :=
  VDict [ (lit "paymentResponse", VNone);
          (lit "response", VDict [(lit "response", VStr (lit "hi"))]) ].

Definition answer_backend : list (ChatCall * Result pyval) → ChatCall → Result pyval :=
  fun _ _ => Ok answer_result.

(** The supervisor with a speech start and the transcription of "hello"
    waiting in the default queue. *)
Definition core_with_hello : t :=
  set_event_bus core
    (EventBus.emit (EventBus.emit EventBus.init (lit "speech_start") (VDict []))
       (lit "transcription") (payload_of hello)).

(** A [transcription] whose duration is a string, which the format
    [:.2f] does not accept. *)
Definition malformed : pyval :=
  VDict [ (lit "text", hello); (lit "audio_duration", VStr (lit "1.5")) ].

(** The supervisor with the malformed transcription and, behind it, the
    transcription of "hello" waiting in the default queue. *)
Definition core_with_malformed : t :=
  set_event_bus core
    (EventBus.emit (EventBus.emit EventBus.init (lit "transcription") malformed)
       (lit "transcription") (payload_of hello)).

(** The supervisor with the transcription of "hello" and, behind it, a
    speech start waiting in the default queue. *)
Definition core_with_question : t :=
  set_event_bus core
    (EventBus.emit (EventBus.emit EventBus.init (lit "transcription") (payload_of hello))
       (lit "speech_start") (VDict [])).

(** Three modules of which the second cannot open its device. *)
Definition failing_modules : list ModuleBase :=
  [ {| module_start := Ok () |};
    {| module_start := Raise (Exception "RuntimeError" (lit "Failed to open audio stream")) |};
    {| module_start := Ok () |} ].

End Conversation.

End AgentCore.

(** ** Facts about the supervisor *)

Module AgentCoreFacts.
Import AgentCore.
Local Open Scope nat_scope.

Ltac run_monad :=
  unfold mbind, M_bind, bind, mret, M_ret, ret, lift, print, history_append, emit,
    create_task, await_start, set_event_bus; cbn beta iota.

(** *** Startup *)

(** All modules start: each has [start()] invoked and its loop
    scheduled, in order. *)
Lemma start_modules_ok (rest : list ModuleBase) : ∀ (index : nat) (core : t),
  Forall (fun module => module_start module = Ok ()) rest →
  (start_modules index rest core).1 = Ok () ∧
  started (start_modules index rest core).2 = started core ++ seq index (length rest) ∧
  tasks (start_modules index rest core).2 =
    tasks core ++ (LoopTask <$> seq index (length rest)).
Proof.
  induction rest as [|module rest IH]; intros index core Hok.
  - cbn. by rewrite !app_nil_r.
  - apply Forall_cons in Hok as [Hm Hok].
    cbn [start_modules]. run_monad. rewrite Hm.
    match goal with
    | |- context [start_modules (S index) rest ?c] =>
        destruct (IH (S index) c Hok) as (-> & -> & ->)
    end.
    cbn [started tasks length seq fmap list_fmap].
    by rewrite <- !app_assoc.
Qed.

(** The first module whose [start()] raises ends the loop. *)
Lemma start_modules_raise (pre : list ModuleBase) : ∀ (index : nat) (core : t)
    (module : ModuleBase) (post : list ModuleBase) (e : Exn),
  Forall (fun module => module_start module = Ok ()) pre →
  module_start module = Raise e →
  (start_modules index (pre ++ module :: post) core).1 = Raise e ∧
  started (start_modules index (pre ++ module :: post) core).2 =
    started core ++ seq index (S (length pre)) ∧
  tasks (start_modules index (pre ++ module :: post) core).2 =
    tasks core ++ (LoopTask <$> seq index (length pre)).
Proof.
  induction pre as [|first pre IH]; intros index core module post e Hok Hraise.
  - cbn [app start_modules]. run_monad. rewrite Hraise.
    cbn. by rewrite app_nil_r.
  - apply Forall_cons in Hok as [Hm Hok].
    cbn [app start_modules]. run_monad. rewrite Hm.
    match goal with
    | |- context [start_modules (S index) _ ?c] =>
        destruct (IH (S index) c module post e Hok Hraise) as (-> & -> & ->)
    end.
    cbn [started tasks length seq fmap list_fmap].
    by rewrite <- !app_assoc.
Qed.

(** C8: when the modules before [module] start and [module]'s
    [start()] raises [e], the supervisor's [start] raises [e]; the
    modules whose [start()] was invoked are those up to and including
    [module], in order, and no later one; the tasks scheduled are the
    loops of the modules before it, so neither its loop nor a later
    module's, nor the dispatch loop. *)
Theorem start_aborts_on_failure (core : t) (pre : list ModuleBase)
    (module : ModuleBase) (post : list ModuleBase) (e : Exn) :
  modules core = pre ++ module :: post →
  Forall (fun module => module_start module = Ok ()) pre →
  module_start module = Raise e →
  (start core).1 = Raise e ∧
  started (start core).2 = started core ++ seq 0 (S (length pre)) ∧
  tasks (start core).2 = tasks core ++ (LoopTask <$> seq 0 (length pre)) ∧
  (∀ index, length pre < index → index ∉ seq 0 (S (length pre))) ∧
  (∀ index, length pre ≤ index → LoopTask index ∉ LoopTask <$> seq 0 (length pre)) ∧
  EventHandlerTask ∉ LoopTask <$> seq 0 (length pre).
Proof.
  intros Hmodules Hok Hraise.
  unfold start. run_monad. cbn [modules]. rewrite Hmodules.
  match goal with
  | |- context [start_modules 0 _ ?c] =>
      destruct (start_modules_raise pre 0 c module post e Hok Hraise) as (H1 & H2 & H3);
      destruct (start_modules 0 (pre ++ module :: post) c) as [[[]|e'] core'] eqn:Hs
  end; cbn [fst snd] in *; [done|].
  split; [done|]. split; [done|]. split; [done|].
  split; [|split].
  - intros index Hlt Hin. apply elem_of_seq in Hin. lia.
  - intros index Hle Hin. apply list_elem_of_fmap in Hin as (i & [= <-] & Hin).
    apply elem_of_seq in Hin. lia.
  - intros Hin. by apply list_elem_of_fmap in Hin as (i & ? & _).
Qed.

Lemma start_aborts_on_failure_witness :
  (start (init Conversation.failing_modules (lit "agent") (lit "User"))).1 =
    Raise (Exception "RuntimeError" (lit "Failed to open audio stream")) ∧
  started (start (init Conversation.failing_modules (lit "agent") (lit "User"))).2 = [0; 1] ∧
  tasks (start (init Conversation.failing_modules (lit "agent") (lit "User"))).2 = [LoopTask 0].
Proof.
  assert (Forall (fun module => module_start module = Ok ())
                 [ {| module_start := Ok () |} ]) as Hok
    by (repeat constructor).
  pose proof (start_aborts_on_failure (init Conversation.failing_modules (lit "agent") (lit "User"))
                [ {| module_start := Ok () |} ]
                {| module_start := Raise (Exception "RuntimeError"
                                            (lit "Failed to open audio stream")) |}
                [ {| module_start := Ok () |} ] _ eq_refl Hok eq_refl)
    as (H1 & H2 & H3 & _).
  exact (conj H1 (conj H2 H3)).
Defined.

(** *** The chat workflow *)

Lemma lstrip_all {A} (space : A → bool) (s : list A) :
  forallb space s = true → lstrip space s = [].
Proof.
  induction s as [|c s IH]; [done|]. simpl.
  intros [Hc Hs]%andb_prop. rewrite Hc. by apply IH.
Qed.

(** [strip()] of a string of whitespace is the empty string. *)
Lemma strip_blank (s : pystr) :
  forallb is_whitespace s = true → strip_with is_whitespace s = [].
Proof. intros Hs. unfold strip_with. rewrite (lstrip_all _ s Hs). reflexivity. Qed.

Section Chat.
Variable backend_chat : list (ChatCall * Result pyval) → ChatCall → Result pyval.

Local Abbreviation handle := (_handle_transcription backend_chat).

Ltac run_chat :=
  unfold _handle_transcription, handle_response, try_except, await_backend_chat;
  run_monad.

(** An empty or blank text: nothing happens at all. *)
Lemma handle_blank (s : pystr) (payload : pyval) (core : t) :
  forallb is_whitespace s = true →
  handle (VStr s) payload core = (Ok (), core).
Proof.
  intros Hs. run_chat. cbn [truthy strip]. rewrite (strip_blank s Hs).
  by destruct s.
Qed.

Ltac simpl_core :=
  cbn [event_bus modules tasks agent_name sender_name chat_history stdout started
       backend_calls fst snd negb].

(** What follows the gateway's answer inside the [try] (lines 57-80). *)
Definition after_chat (text result : pyval) : M unit :=
  history_append (turn "user" text);;
  chat_response ← lift (get result (lit "response") VNone);
  (if truthy chat_response then handle_response chat_response else ret ());;
  payment ← lift (get result (lit "paymentResponse") VNone);
  if truthy payment then print "[CHAT] Payment processed:" [payment] else ret ().

(** A text that passes the guard of line 43 leads to the gateway. *)
Lemma handle_calls (text stripped payload : pyval) (core : t) :
  truthy text = true → strip text = Ok stripped → truthy stripped = true →
  handle text payload core =
  try_except
    (print "[CHAT] Sending message to agent:" [text];;
     result ← await_backend_chat backend_chat text;
     after_chat text result)
    (fun error_msg => print "[CHAT ERROR]" [VStr error_msg]) core.
Proof.
  intros Ht Hs Hst. unfold _handle_transcription. rewrite Ht. cbn [negb].
  run_monad. rewrite Hs, Hst. reflexivity.
Qed.

(** A text that does not pass it changes nothing, whether by returning
    or by raising on [.strip()]. *)
Lemma handle_guarded (text payload : pyval) (core : t) :
  truthy text = false ∨ (∃ e, strip text = Raise e) ∨
  (∃ stripped, strip text = Ok stripped ∧ truthy stripped = false) →
  (handle text payload core).2 = core.
Proof.
  unfold _handle_transcription. run_monad.
  intros [Ht|[[e He]|(stripped & Hs & Hst)]].
  - by rewrite Ht.
  - rewrite He. by destruct (truthy text).
  - rewrite Hs, Hst. by destruct (truthy text).
Qed.

Lemma guard_cases (text : pyval) :
  (truthy text = false ∨ (∃ e, strip text = Raise e) ∨
   (∃ stripped, strip text = Ok stripped ∧ truthy stripped = false)) ∨
  (∃ stripped, truthy text = true ∧ strip text = Ok stripped ∧ truthy stripped = true).
Proof.
  destruct (truthy text) eqn:Ht; [|by left; left].
  destruct (strip text) as [stripped|e] eqn:Hs; [|left; right; left; by eexists].
  destruct (truthy stripped) eqn:Hst.
  - right. by exists stripped.
  - left. right. right. by exists stripped.
Qed.

(** Nothing in [handle_response] reaches the gateway. *)
Lemma handle_response_backend_calls (chat_response : pyval) (core : t) :
  backend_calls (handle_response chat_response core).2 = backend_calls core.
Proof.
  unfold handle_response. run_monad.
  destruct (contains (lit "error") chat_response) as [[]|]; simpl_core; [| |done].
  - by destruct (getitem chat_response (lit "error")).
  - destruct (contains (lit "response") chat_response) as [[]|]; simpl_core; [| |done]; [|done].
    by destruct (getitem chat_response (lit "response")).
Qed.

Lemma after_chat_backend_calls (text result : pyval) (core : t) :
  backend_calls (after_chat text result core).2 = backend_calls core.
Proof.
  unfold after_chat. run_monad.
  destruct (get result (lit "response") VNone) as [chat_response|]; simpl_core; [|done].
  match goal with
  | |- context [(if ?b then _ else _) ?c] =>
      assert (backend_calls ((if b then handle_response chat_response else
                                (fun core => (Ok (), core))) c).2 = backend_calls core) as Hr
  end.
  { destruct (truthy chat_response); [|done]. by rewrite handle_response_backend_calls. }
  revert Hr.
  match goal with
  | |- context [(if ?b then _ else _) ?c] =>
      destruct ((if b then handle_response chat_response else
                   (fun core => (Ok (), core))) c) as [[[]|e] core']
  end; simpl_core; intros Hr; [|done].
  destruct (get result (lit "paymentResponse") VNone) as [payment|]; simpl_core; [|done].
  by destruct (truthy payment).
Qed.

(** The calls recorded after [_handle_transcription]: none more, or
    the one call with the gateway's outcome. *)
Lemma handle_backend_calls (text payload : pyval) (core : t) :
  backend_calls (handle text payload core).2 = backend_calls core ∨
  backend_calls (handle text payload core).2 =
    backend_calls core ++
    [(call_of core text, backend_chat (backend_calls core) (call_of core text))].
Proof.
  destruct (guard_cases text) as [Hguard|(stripped & Ht & Hs & Hst)].
  - left. by rewrite handle_guarded.
  - right. rewrite (handle_calls _ stripped) by done.
    unfold try_except, await_backend_chat. run_monad. simpl_core.
    unfold call_of. simpl_core. fold (call_of core text).
    destruct (backend_chat (backend_calls core) (call_of core text)) as [result|[cls msg|]];
      simpl_core; try done.
    match goal with
    | |- context [after_chat text result ?c] =>
        pose proof (after_chat_backend_calls text result c) as Hc;
        destruct (after_chat text result c) as [[[]|[cls msg|]] core']
    end; cbn [backend_calls snd fst] in *; done.
Qed.

Lemma list_neq_snoc {A} (l : list A) (x : A) : l ≠ l ++ [x].
Proof.
  intros H. apply (f_equal length) in H. rewrite length_app in H. simpl in H. lia.
Qed.

(** With an error response the user turn is recorded and nothing else:
    the error is printed, and the payment line if there is one. *)
Lemma after_chat_error_response (text result : pyval) (core : t) :
  error_response result = true →
  (after_chat text result core).1 = Ok () ∧
  chat_history (after_chat text result core).2 = chat_history core ++ [turn "user" text] ∧
  event_bus (after_chat text result core).2 = event_bus core.
Proof.
  unfold error_response. intros Herr.
  destruct result as [| | | | | | |r]; try done.
  destruct (dict_lookup r (lit "response")) as [[| | | | | | |d]|] eqn:Hr; try done.
  apply bool_decide_eq_true in Herr as [error Hd].
  destruct d as [|kv d]; [done|].
  unfold after_chat, handle_response. run_monad. cbn [get contains getitem].
  rewrite Hr. cbn [from_option id truthy contains getitem].
  rewrite Hd, bool_decide_eq_true_2 by by eexists.
  simpl_core.
  by destruct (truthy (from_option id VNone (dict_lookup r (lit "paymentResponse")))).
Qed.

(** C4: when [_handle_transcription] called the gateway with the text
    and the gateway returned a result whose response carries an error
    field, the handler returns normally, the chat history has gained the
    user turn for the text and nothing else, and the bus is as before: no
    [agent_response] (nor any other event) was published.  (A text that
    is empty or blank never reaches the gateway.) *)
Theorem error_response_keeps_user_turn (text payload : pyval) (core : t) (result : pyval) :
  backend_calls (handle text payload core).2 =
    backend_calls core ++ [(call_of core text, Ok result)] →
  error_response result = true →
  (handle text payload core).1 = Ok () ∧
  chat_history (handle text payload core).2 = chat_history core ++ [turn "user" text] ∧
  event_bus (handle text payload core).2 = event_bus core.
Proof.
  intros Hcall Herr.
  destruct (guard_cases text) as [Hguard|(stripped & Ht & Hs & Hst)].
  { rewrite handle_guarded in Hcall by done. by apply list_neq_snoc in Hcall. }
  revert Hcall. rewrite (handle_calls _ stripped) by done.
  unfold try_except, await_backend_chat. run_monad. simpl_core.
  unfold call_of. simpl_core. fold (call_of core text).
  destruct (backend_chat (backend_calls core) (call_of core text)) as [result'|[cls msg|]];
    simpl_core.
  2,3: by intros [_ [=]]%app_inj_tail.
  match goal with
  | |- context [after_chat text result' ?c] => set (core1 := c)
  end.
  pose proof (after_chat_backend_calls text result' core1) as Hc.
  assert (backend_calls (after_chat text result' core1).2 =
          backend_calls core ++ [(call_of core text, Ok result)] → result' = result) as Hres.
  { rewrite Hc. by intros [_ [= ->]]%app_inj_tail. }
  destruct (after_chat text result' core1) as [[[]|[cls msg|]] core'] eqn:Ha;
    simpl_core; intros Hcall; specialize (Hres Hcall); subst result';
    destruct (after_chat_error_response text result core1 Herr) as (H1 & H2 & H3);
    rewrite Ha in H1, H2, H3; simpl_core; done.
Qed.

(** C10: when the gateway's call for this text raises, be it an
    exception or a cancellation, the chat history and the bus after
    [_handle_transcription] are what they were before: no user turn, no
    [agent_response]. *)
Theorem chat_exception_leaves_history (text payload : pyval) (core : t) (e : Exn) :
  backend_chat (backend_calls core) (call_of core text) = Raise e →
  chat_history (handle text payload core).2 = chat_history core ∧
  event_bus (handle text payload core).2 = event_bus core.
Proof.
  intros Hraise.
  destruct (guard_cases text) as [Hguard|(stripped & Ht & Hs & Hst)].
  { by rewrite handle_guarded. }
  rewrite (handle_calls _ stripped) by done.
  unfold try_except, await_backend_chat. run_monad. simpl_core.
  unfold call_of. simpl_core. fold (call_of core text). rewrite Hraise.
  by destruct e.
Qed.

(** With a gateway that raises an exception the handler prints the
    error and returns. *)
Lemma handle_gateway_exception (text stripped payload : pyval) (core : t) cls msg :
  truthy text = true → strip text = Ok stripped → truthy stripped = true →
  backend_chat (backend_calls core) (call_of core text) = Raise (Exception cls msg) →
  (handle text payload core).1 = Ok () ∧
  stdout (handle text payload core).2 =
    stdout core ++ [ {| line_text := "[CHAT] Sending message to agent:"; line_args := [text] |};
                     {| line_text := "[CHAT ERROR]"; line_args := [VStr msg] |} ].
Proof.
  intros Ht Hs Hst Hraise. rewrite (handle_calls _ stripped) by done.
  unfold try_except, await_backend_chat. run_monad. simpl_core.
  unfold call_of. simpl_core. fold (call_of core text). rewrite Hraise. simpl_core.
  by rewrite <- app_assoc.
Qed.

(** *** The dispatch loop *)

Local Abbreviation dispatch := (dispatch backend_chat).
Local Abbreviation event_loop := (_event_handler_loop backend_chat).

(** Only the gateway is ever cancelled: the operations of the
    interpreter raise exceptions. *)
Lemma get_exception d key default e : get d key default = Raise e → e ≠ CancelledError.
Proof. destruct d; intros [= <-]; done. Qed.

Lemma len_exception v e : len v = Raise e → e ≠ CancelledError.
Proof. destruct v; intros [= <-]; done. Qed.

Lemma format_2f_exception v e : format_2f v = Raise e → e ≠ CancelledError.
Proof. destruct v; intros [= <-]; done. Qed.

Lemma audio_duration_sec_exception size r w c e :
  audio_duration_sec size r w c = Raise e → e ≠ CancelledError.
Proof.
  unfold audio_duration_sec. destruct (_ && _); [|done].
  destruct (numeric r), (numeric w), (numeric c); intros [= <-]; done.
Qed.

Ltac unchanged :=
  simpl_core; split; [done|]; split; [done|]; split; [done|];
  first [ by intros ? [=]
        | intros ? [= <-];
          eauto using get_exception, len_exception, format_2f_exception,
            audio_duration_sec_exception ].

Ltac lift_step :=
  match goal with
  | |- context [match ?r with Ok _ => _ | Raise _ => _ end] =>
      let H := fresh "Hlift" in destruct r eqn:H; [|unchanged]
  end.

(** Only a [transcription] event can reach the gateway, and it does so
    through [_handle_transcription], run in a state that differs from
    the one before by a printed line. *)
Lemma dispatch_gateway (event : EventBus.Event) (core : t) :
  (backend_calls (dispatch event core).2 = backend_calls core ∧
   chat_history (dispatch event core).2 = chat_history core ∧
   event_bus (dispatch event core).2 = event_bus core ∧
   ∀ e, (dispatch event core).1 = Raise e → e ≠ CancelledError) ∨
  (∃ text line,
     EventBus.ev_type event = lit "transcription" ∧
     get (EventBus.ev_payload event) (lit "text") VNone = Ok text ∧
     dispatch event core =
     handle text (EventBus.ev_payload event) (print (line_text line) (line_args line) core).2).
Proof.
  unfold AgentCore.dispatch.
  repeat case_bool_decide.
  - left. run_monad. unchanged.
  - left. run_monad. unchanged.
  - left. run_monad. do 4 lift_step.
    match goal with
    | |- context [if truthy ?v then len ?v else Ok ?z] =>
        destruct (if truthy v then len v else Ok z) eqn:Hlen
    end.
    2: { simpl_core. split; [done|]. split; [done|]. split; [done|]. intros ? [= <-].
         destruct (truthy _); [by eapply len_exception|done]. }
    lift_step. unchanged.
  - run_monad.
    destruct (get (EventBus.ev_payload event) (lit "text") VNone) as [text|e] eqn:Htext;
      [|left; unchanged].
    destruct (get (EventBus.ev_payload event) (lit "audio_duration") (VInt 0))
      as [duration|e] eqn:Hd; [|left; unchanged].
    destruct (get (EventBus.ev_payload event) (lit "provider") (VStr (lit "unknown")))
      as [provider|e] eqn:Hp; [|left; unchanged].
    destruct (format_2f duration) as [formatted|e] eqn:Hf; [|left; unchanged].
    right. exists text,
      {| line_text := "[EVENT] Transcription received:";
         line_args := [text; VFloat formatted; provider] |}.
    done.
  - left. run_monad. unchanged.
Qed.

Lemma loop_step (fuel : nat) (core : t) (event : EventBus.Event) (bus : EventBus.t) :
  EventBus.queue_get (event_bus core) EventBus.HDefault = Some (event, bus) →
  event_loop (S fuel) core =
  match dispatch event (set_event_bus core bus) with
  | (Ok _, core') => event_loop fuel core'
  | (Raise CancelledError, core') => Some (Cancelled, core')
  | (Raise (Exception _ msg), core') =>
      event_loop fuel (print "[ERROR] Event handler error:" [VStr msg] core').2
  end.
Proof. intros Hget. cbn [_event_handler_loop]. by rewrite Hget. Qed.

(** Unless the event's processing is cancelled, the loop goes on to its
    next iteration, in a state that differs from the one the processing
    left by at most a printed line. *)
Lemma loop_continues (fuel : nat) (core : t) (event : EventBus.Event) (bus : EventBus.t) :
  EventBus.queue_get (event_bus core) EventBus.HDefault = Some (event, bus) →
  (∀ e, (dispatch event (set_event_bus core bus)).1 = Raise e → e ≠ CancelledError) →
  ∃ core',
    event_loop (S fuel) core = event_loop fuel core' ∧
    backend_calls core' = backend_calls (dispatch event (set_event_bus core bus)).2 ∧
    chat_history core' = chat_history (dispatch event (set_event_bus core bus)).2 ∧
    event_bus core' = event_bus (dispatch event (set_event_bus core bus)).2.
Proof.
  intros Hget Hnc. rewrite (loop_step _ _ _ _ Hget).
  destruct (dispatch event (set_event_bus core bus)) as [[[]|[cls msg|]] core'].
  - by exists core'.
  - by eexists.
  - by destruct (Hnc CancelledError).
Qed.

(** *** The loop drains the queue *)

(** A bound on the iterations an event of the queue can still cause: a
    [transcription] may publish one [agent_response], which takes an
    iteration of its own; no other event publishes anything. *)
Definition weight (event : EventBus.Event) : nat :=
  if bool_decide (EventBus.ev_type event = lit "transcription") then 2 else 1.

Definition pending (core : t) : nat :=
  sum_list_with weight (EventBus.default_queue (event_bus core)).

Lemma contains_exception key v e : contains key v = Raise e → e ≠ CancelledError.
Proof. destruct v; intros [= <-]; done. Qed.

Lemma getitem_exception v key e : getitem v key = Raise e → e ≠ CancelledError.
Proof. destruct v; try (intros [= <-]; done). simpl. destruct (dict_lookup _ _); by intros [= <-]. Qed.

Lemma strip_exception v e : strip v = Raise e → e ≠ CancelledError.
Proof. destruct v; intros [= <-]; done. Qed.

(** What a step of the chat workflow may do to the bus: nothing, or
    publish one [agent_response]. *)
Definition answered (bus bus' : EventBus.t) : Prop :=
  bus' = bus ∨ ∃ payload, bus' = EventBus.emit bus (lit "agent_response") payload.

Lemma handle_response_outcome (chat_response : pyval) (core : t) :
  (∀ e, (handle_response chat_response core).1 = Raise e → e ≠ CancelledError) ∧
  answered (event_bus core) (event_bus (handle_response chat_response core).2).
Proof.
  unfold handle_response, answered. run_monad.
  destruct (contains (lit "error") chat_response) as [[]|e] eqn:He; simpl_core.
  - destruct (getitem chat_response (lit "error")) as [error|e] eqn:Hg; simpl_core.
    + split; [by intros ? [=]|by left].
    + split; [intros ? [= <-]; by eapply getitem_exception|by left].
  - destruct (contains (lit "response") chat_response) as [[]|e] eqn:Hr; simpl_core.
    + destruct (getitem chat_response (lit "response")) as [agent_response|e] eqn:Hg;
        simpl_core.
      * split; [by intros ? [=]|right; by eexists].
      * split; [intros ? [= <-]; by eapply getitem_exception|by left].
    + split; [by intros ? [=]|by left].
    + split; [intros ? [= <-]; by eapply contains_exception|by left].
  - split; [intros ? [= <-]; by eapply contains_exception|by left].
Qed.

Lemma after_chat_outcome (text result : pyval) (core : t) :
  (∀ e, (after_chat text result core).1 = Raise e → e ≠ CancelledError) ∧
  answered (event_bus core) (event_bus (after_chat text result core).2).
Proof.
  unfold after_chat. run_monad.
  destruct (get result (lit "response") VNone) as [chat_response|e] eqn:Hg; simpl_core.
  2: { split; [intros ? [= <-]; by eapply get_exception|by left]. }
  match goal with
  | |- context [(if ?b then _ else _) ?c] =>
      assert ((∀ e, ((if b then handle_response chat_response else
                        (fun core => (Ok (), core))) c).1 = Raise e → e ≠ CancelledError) ∧
              answered (event_bus core)
                (event_bus ((if b then handle_response chat_response else
                               (fun core => (Ok (), core))) c).2)) as [Hnc Hbus]
  end.
  { destruct (truthy chat_response).
    - exact (handle_response_outcome chat_response _).
    - split; [by intros ? [=]|by left]. }
  revert Hnc Hbus.
  match goal with
  | |- context [(if ?b then _ else _) ?c] =>
      destruct ((if b then handle_response chat_response else
                   (fun core => (Ok (), core))) c) as [[[]|e] core']
  end; simpl_core; intros Hnc Hbus.
  2: { split; [intros ? [= <-]; by apply Hnc|done]. }
  destruct (get result (lit "paymentResponse") VNone) as [payment|e] eqn:Hp; simpl_core.
  - destruct (truthy payment); simpl_core; (split; [by intros ? [=]|done]).
  - split; [intros ? [= <-]; by eapply get_exception|done].
Qed.

Section Uncancelled.

(** The gateway's calls are never cancelled: nobody calls [stop()]
    while the loop runs. *)
Hypothesis backend_uncancelled : ∀ calls call, backend_chat calls call ≠ Raise CancelledError.

Lemma handle_outcome (text payload : pyval) (core : t) :
  (∀ e, (handle text payload core).1 = Raise e → e ≠ CancelledError) ∧
  answered (event_bus core) (event_bus (handle text payload core).2).
Proof.
  destruct (guard_cases text) as [Hguard|(stripped & Ht & Hs & Hst)].
  - split; [|left; by rewrite handle_guarded].
    unfold _handle_transcription. run_monad.
    destruct (truthy text) eqn:Ht; cbn [negb]; [|by intros ? [=]].
    destruct (strip text) as [stripped|e] eqn:Hs.
    + destruct (truthy stripped) eqn:Hst; cbn [negb]; simpl_core; [|by intros ? [=]].
      destruct Hguard as [?|[[? ?]|(? & ? & ?)]]; simplify_eq; congruence.
    + simpl_core. intros ? [= <-]. by eapply strip_exception.
  - rewrite (handle_calls _ stripped) by done.
    unfold try_except, await_backend_chat. run_monad. simpl_core.
    unfold call_of. simpl_core. fold (call_of core text).
    pose proof (backend_uncancelled (backend_calls core) (call_of core text)) as Hb.
    destruct (backend_chat (backend_calls core) (call_of core text)) as [result|[cls msg|]];
      simpl_core; [|split; [by intros ? [=]|by left]|done].
    match goal with
    | |- context [after_chat text result ?c] =>
        destruct (after_chat_outcome text result c) as [Hnc Hbus];
        destruct (after_chat text result c) as [[[]|[cls msg|]] core']
    end; simpl_core; cbn [event_bus fst snd] in Hbus.
    + split; [by intros ? [=]|done].
    + split; [by intros ? [=]|done].
    + by destruct (Hnc CancelledError).
Qed.

(** Processing an event is not cancelled, and publishes at most the
    answer to a [transcription]. *)
Lemma dispatch_outcome (event : EventBus.Event) (core : t) :
  (∀ e, (dispatch event core).1 = Raise e → e ≠ CancelledError) ∧
  (event_bus (dispatch event core).2 = event_bus core ∨
   EventBus.ev_type event = lit "transcription" ∧
   ∃ payload, event_bus (dispatch event core).2 =
                EventBus.emit (event_bus core) (lit "agent_response") payload).
Proof.
  destruct (dispatch_gateway event core)
    as [(_ & _ & Hbus & Hnc)|(text & line & Hty & _ & ->)]; [by split; [|left]|].
  destruct (handle_outcome text (EventBus.ev_payload event)
              (print (line_text line) (line_args line) core).2) as [Hnc [Hbus|Hbus]].
  - split; [done|]. by left.
  - split; [done|]. by right.
Qed.

Lemma pending_cons (core : t) (event : EventBus.Event) (queue : list EventBus.Event) :
  EventBus.default_queue (event_bus core) = event :: queue →
  pending core = weight event + sum_list_with weight queue.
Proof. unfold pending. by intros ->. Qed.

Lemma weight_positive (event : EventBus.Event) : 1 ≤ weight event.
Proof. unfold weight. case_bool_decide; lia. Qed.

Lemma loop_drains (fuel : nat) : ∀ core : t,
  pending core < fuel →
  ∃ core',
    event_loop fuel core = Some (Waiting, core') ∧
    EventBus.default_queue (event_bus core') = [].
Proof.
  induction fuel as [|fuel IH]; intros core Hfuel; [lia|].
  destruct (EventBus.default_queue (event_bus core)) as [|event queue] eqn:Hq.
  { exists core. split; [|done].
    cbn [_event_handler_loop]. unfold EventBus.queue_get, EventBus.queue_of. by rewrite Hq. }
  set (bus := {| EventBus.subscribers := EventBus.subscribers (event_bus core);
                 EventBus.default_queue := queue |}).
  assert (EventBus.queue_get (event_bus core) EventBus.HDefault = Some (event, bus)) as Hget.
  { unfold EventBus.queue_get, EventBus.queue_of. by rewrite Hq. }
  destruct (dispatch_outcome event (set_event_bus core bus)) as [Hnc Hbus].
  destruct (loop_continues fuel core event bus Hget Hnc) as (core' & -> & _ & _ & Hb).
  apply IH. rewrite (pending_cons core event queue Hq) in Hfuel.
  pose proof (weight_positive event).
  unfold pending. rewrite Hb.
  destruct Hbus as [->|(Hty & payload & ->)]; simpl_core.
  - simpl. lia.
  - unfold weight at 1 in Hfuel. rewrite Hty, bool_decide_eq_true_2 in Hfuel by done.
    rewrite EventBusFacts.emit_default_queue. simpl.
    rewrite sum_list_with_app. simpl. lia.
Qed.

(** The dispatch loop never ends of its own: unless a call of the
    gateway is cancelled, it processes the events of the default queue
    and those it publishes itself, whatever they are and whatever
    processing them raises, and then waits in [listen] on the queue it
    has emptied.  The iterations are at most two for each pending
    [transcription] and one for each other pending event. *)
Theorem event_loop_drains_queue (core : t) (fuel : nat) :
  pending core < fuel →
  ∃ core',
    event_loop fuel core = Some (Waiting, core') ∧
    EventBus.default_queue (event_bus core') = [].
Proof. apply loop_drains. Qed.

End Uncancelled.

(** *** The loop survives *)

(** The supervisor after some lines were printed, and after a call of
    the gateway was recorded with its outcome. *)
Definition printed (core : t) (lines : list Line) : t :=
  {| event_bus := event_bus core; modules := modules core; tasks := tasks core;
     agent_name := agent_name core; sender_name := sender_name core;
     chat_history := chat_history core; stdout := stdout core ++ lines;
     started := started core; backend_calls := backend_calls core |}.

Definition called (core : t) (call : ChatCall) (outcome : Result pyval) : t :=
  {| event_bus := event_bus core; modules := modules core; tasks := tasks core;
     agent_name := agent_name core; sender_name := sender_name core;
     chat_history := chat_history core; stdout := stdout core;
     started := started core; backend_calls := backend_calls core ++ [(call, outcome)] |}.

(** The lines of lines 127, 47, 85-89 and 134. *)
Definition received_line (text : pyval) (formatted : Q) (provider : pyval) : Line :=
  {| line_text := "[EVENT] Transcription received:";
     line_args := [text; VFloat formatted; provider] |}.

Definition sending_line (text : pyval) : Line :=
  {| line_text := "[CHAT] Sending message to agent:"; line_args := [text] |}.

Definition chat_error_line (msg : pystr) : Line :=
  {| line_text := "[CHAT ERROR]"; line_args := [VStr msg] |}.

Definition error_line (msg : pystr) : Line :=
  {| line_text := "[ERROR] Event handler error:"; line_args := [VStr msg] |}.

(** How a run of the loop that started in [core] has ended in [final]:
    suspended in [listen] on a default queue it has emptied, or left
    through [break] because a call of the gateway made during the run
    was cancelled.  There is no third way. *)
Definition ends (core : t) (exit : Exit) (final : t) : Prop :=
  match exit with
  | Waiting => EventBus.default_queue (event_bus final) = []
  | Cancelled =>
      (∃ call, last (backend_calls final) = Some (call, Raise CancelledError)) ∧
      length (backend_calls core) < length (backend_calls final)
  end.

(** The loop is alive after the iteration it started in [core]: it
    goes on in [next], and the run from there takes the events still
    pending (and those it publishes itself) until it ends as [ends]
    says. *)
Definition stays_alive (fuel : nat) (core next : t) : Prop :=
  event_loop (S fuel) core = event_loop fuel next ∧
  ∃ exit final,
    event_loop fuel next = Some (exit, final) ∧ ends next exit final.

Lemma queue_get_default (bus bus' : EventBus.t) (event : EventBus.Event) :
  EventBus.queue_get bus EventBus.HDefault = Some (event, bus') →
  EventBus.default_queue bus = event :: EventBus.default_queue bus'.
Proof.
  unfold EventBus.queue_get, EventBus.queue_of.
  destruct (EventBus.default_queue bus) as [|first queue]; [done|].
  by intros [= -> <-].
Qed.

(** [_handle_transcription] lets an exception out only from line 43,
    before anything was done. *)
Lemma handle_exception (text payload : pyval) (core : t) cls msg :
  (handle text payload core).1 = Raise (Exception cls msg) →
  (handle text payload core).2 = core.
Proof.
  intros Hraise.
  destruct (guard_cases text) as [Hguard|(stripped & Ht & Hs & Hst)].
  { by apply handle_guarded. }
  exfalso. revert Hraise. rewrite (handle_calls _ stripped) by done.
  unfold try_except, await_backend_chat. run_monad. simpl_core.
  destruct (backend_chat _ _) as [result|[cls' msg'|]]; simpl_core; try done.
  match goal with
  | |- context [after_chat text result ?c] =>
      destruct (after_chat text result c) as [[[]|[cls' msg'|]] core']
  end; done.
Qed.

(** It publishes at most one [agent_response], cancelled or not. *)
Lemma handle_bus (text payload : pyval) (core : t) :
  answered (event_bus core) (event_bus (handle text payload core).2).
Proof.
  destruct (guard_cases text) as [Hguard|(stripped & Ht & Hs & Hst)].
  { left. by rewrite handle_guarded. }
  rewrite (handle_calls _ stripped) by done.
  unfold try_except, await_backend_chat. run_monad. simpl_core.
  destruct (backend_chat _ _) as [result|[cls msg|]]; simpl_core; [|by left|by left].
  match goal with
  | |- context [after_chat text result ?c] =>
      destruct (after_chat_outcome text result c) as [_ Hbus];
      destruct (after_chat text result c) as [[[]|[cls msg|]] core']
  end; simpl_core; cbn [event_bus fst snd] in Hbus; done.
Qed.

(** It is cancelled only in the gateway's call. *)
Lemma handle_cancelled (text payload : pyval) (core : t) :
  (handle text payload core).1 = Raise CancelledError →
  backend_calls (handle text payload core).2 =
    backend_calls core ++ [(call_of core text, Raise CancelledError)].
Proof.
  destruct (guard_cases text) as [Hguard|(stripped & Ht & Hs & Hst)].
  { unfold _handle_transcription. run_monad.
    destruct (truthy text) eqn:Ht; cbn [negb]; [|done].
    destruct (strip text) as [stripped|e] eqn:Hs.
    - destruct (truthy stripped) eqn:Hst; cbn [negb]; simpl_core; [|done].
      destruct Hguard as [?|[[? ?]|(? & ? & ?)]]; simplify_eq; congruence.
    - simpl_core. intros [= ->]. by destruct (strip_exception _ _ Hs). }
  rewrite (handle_calls _ stripped) by done.
  unfold try_except, await_backend_chat. run_monad. simpl_core.
  unfold call_of. simpl_core. fold (call_of core text).
  destruct (backend_chat (backend_calls core) (call_of core text)) as [result|[cls msg|]];
    simpl_core; [|done|done].
  match goal with
  | |- context [after_chat text result ?c] =>
      destruct (after_chat_outcome text result c) as [Hnc _];
      destruct (after_chat text result c) as [[[]|[cls msg|]] core']
  end; simpl_core; [done|done|]. by destruct (Hnc CancelledError).
Qed.

(** An event whose processing raises an exception has left the chat
    history, the bus and the gateway alone. *)
Lemma dispatch_exception (event : EventBus.Event) (core core' : t) cls msg :
  dispatch event core = (Raise (Exception cls msg), core') →
  event_bus core' = event_bus core ∧ chat_history core' = chat_history core ∧
  backend_calls core' = backend_calls core.
Proof.
  intros Hd.
  destruct (dispatch_gateway event core)
    as [(Hcalls & Hhist & Hbus & _)|(text & line & _ & _ & Hh)].
  - rewrite Hd in Hcalls, Hhist, Hbus. done.
  - rewrite Hh in Hd.
    pose proof (handle_exception text (EventBus.ev_payload event)
                  (print (line_text line) (line_args line) core).2 cls msg) as He.
    rewrite Hd in He. specialize (He eq_refl). cbn [snd] in He. by subst core'.
Qed.

Lemma dispatch_bus (event : EventBus.Event) (core : t) :
  event_bus (dispatch event core).2 = event_bus core ∨
  EventBus.ev_type event = lit "transcription" ∧
  ∃ payload, event_bus (dispatch event core).2 =
               EventBus.emit (event_bus core) (lit "agent_response") payload.
Proof.
  destruct (dispatch_gateway event core)
    as [(_ & _ & Hbus & _)|(text & line & Hty & _ & ->)]; [by left|].
  destruct (handle_bus text (EventBus.ev_payload event)
              (print (line_text line) (line_args line) core).2) as [Hbus|Hbus].
  - by left.
  - by right.
Qed.

Lemma dispatch_calls (event : EventBus.Event) (core : t) :
  length (backend_calls core) ≤ length (backend_calls (dispatch event core).2) ∧
  ((dispatch event core).1 = Raise CancelledError →
   ∃ call, backend_calls (dispatch event core).2 =
             backend_calls core ++ [(call, Raise CancelledError)]).
Proof.
  destruct (dispatch_gateway event core)
    as [(Hcalls & _ & _ & Hnc)|(text & line & _ & _ & ->)].
  - rewrite Hcalls. split; [done|]. intros He. by destruct (Hnc _ He).
  - set (core1 := (print (line_text line) (line_args line) core).2).
    change (backend_calls core) with (backend_calls core1). split.
    + destruct (handle_backend_calls text (EventBus.ev_payload event) core1) as [->| ->];
        [done|]. rewrite length_app. simpl. lia.
    + intros Hc. eexists. by rewrite handle_cancelled.
Qed.

(** Every run of the loop ends, and only in one of the two ways. *)
Lemma loop_ends (fuel : nat) : ∀ core : t,
  pending core < fuel →
  ∃ exit final,
    event_loop fuel core = Some (exit, final) ∧ ends core exit final ∧
    length (backend_calls core) ≤ length (backend_calls final).
Proof.
  induction fuel as [|fuel IH]; intros core Hfuel; [lia|].
  destruct (EventBus.default_queue (event_bus core)) as [|event queue] eqn:Hq.
  { exists Waiting, core. split; [|done].
    cbn [_event_handler_loop]. unfold EventBus.queue_get, EventBus.queue_of. by rewrite Hq. }
  set (bus := {| EventBus.subscribers := EventBus.subscribers (event_bus core);
                 EventBus.default_queue := queue |}).
  assert (EventBus.queue_get (event_bus core) EventBus.HDefault = Some (event, bus)) as Hget.
  { unfold EventBus.queue_get, EventBus.queue_of. by rewrite Hq. }
  rewrite (loop_step _ _ _ _ Hget).
  rewrite (pending_cons core event queue Hq) in Hfuel.
  pose proof (weight_positive event) as Hw.
  destruct (dispatch_bus event (set_event_bus core bus)) as [Hbus|(Hty & payload & Hbus)];
    destruct (dispatch_calls event (set_event_bus core bus)) as [Hlen Hcancel];
    destruct (dispatch event (set_event_bus core bus)) as [[[]|[cls msg|]] core'];
    cbn [fst snd event_bus backend_calls set_event_bus] in Hbus, Hlen, Hcancel.
  all: try (destruct (Hcancel eq_refl) as [call Hc];
            exists Cancelled, core'; split; [done|]; split; [|done];
            split; [exists call; by rewrite Hc, last_snoc|];
            rewrite Hc, length_app; simpl; lia).
  all: match goal with
       | |- ∃ exit final, _event_handler_loop _ _ ?c = _ ∧ _ =>
           destruct (IH c) as (exit & final & Hrun & Hends & Hgrow)
       end.
  all: try (exists exit, final; split; [done|]; simpl_core; cbn [print snd backend_calls] in *;
            split; [|lia]; destruct exit; [done|];
            destruct Hends as [Hlast Hlt]; split; [done|]; cbn [backend_calls] in *; lia).
  all: unfold pending; simpl_core; cbn [print snd event_bus]; rewrite Hbus.
  all: try rewrite EventBusFacts.emit_default_queue.
  all: cbn [EventBus.default_queue event_bus set_event_bus bus].
  all: try rewrite sum_list_with_app.
  all: try (unfold weight at 1 in Hfuel; rewrite Hty, bool_decide_eq_true_2 in Hfuel by done).
  all: simpl; lia.
Qed.

(** The loop is alive in any state it goes on in after taking an
    event. *)
Lemma alive (fuel : nat) (core next : t) (event : EventBus.Event) (bus : EventBus.t) :
  EventBus.queue_get (event_bus core) EventBus.HDefault = Some (event, bus) →
  pending core ≤ fuel →
  event_loop (S fuel) core = event_loop fuel next →
  event_bus next = bus →
  stays_alive fuel core next.
Proof.
  intros Hget Hfuel Hstep Hbus. split; [done|].
  destruct (loop_ends fuel next) as (exit & final & Hrun & Hends & _); [|by eauto].
  apply queue_get_default in Hget.
  rewrite (pending_cons core event _ Hget) in Hfuel.
  pose proof (weight_positive event). unfold pending. rewrite Hbus. lia.
Qed.

(** C3: one iteration of the dispatch loop, on the event it takes from
    the head of the default queue, when the iterations left are enough
    for the events pending.
    - When processing the event raises an exception, the bus, the chat
      history and the gateway are as before, and the loop stays alive in
      the state that processing left, with the error printed.
    - When the event is a [transcription] whose text is empty or only
      whitespace, no call of the gateway was made and the chat history
      is as before.  If the duration can be formatted, the processing
      returns, having printed the line of the transcription and changed
      nothing else, and the loop stays alive in that state; if not, the
      formatting raises an exception before anything was done, and the
      loop stays alive with the error printed.
    - When the event is a [transcription] whose text has something in
      it and the gateway's call for it raises an exception (a timeout
      for one), the processing returns, having recorded the call,
      printed the transcription, the message sent and the chat error,
      and changed nothing else, and the loop stays alive in that state.
    Staying alive is [stays_alive]: the loop goes on with the next
    iteration, and its run from there ends waiting in [listen] on a
    queue it has emptied, unless a later call of the gateway is
    cancelled. *)
Theorem dispatch_loop_survives (fuel : nat) (core : t) (event : EventBus.Event)
    (bus : EventBus.t) :
  EventBus.queue_get (event_bus core) EventBus.HDefault = Some (event, bus) →
  pending core ≤ fuel →
  let core1 := set_event_bus core bus in
  (∀ cls msg core',
     dispatch event core1 = (Raise (Exception cls msg), core') →
     event_bus core' = bus ∧
     chat_history core' = chat_history core ∧
     backend_calls core' = backend_calls core ∧
     stays_alive fuel core (printed core' [error_line msg])) ∧
  (∀ s duration provider,
     EventBus.ev_type event = lit "transcription" →
     get (EventBus.ev_payload event) (lit "text") VNone = Ok (VStr s) →
     get (EventBus.ev_payload event) (lit "audio_duration") (VInt 0) = Ok duration →
     get (EventBus.ev_payload event) (lit "provider") (VStr (lit "unknown")) = Ok provider →
     forallb is_whitespace s = true →
     backend_calls (dispatch event core1).2 = backend_calls core ∧
     chat_history (dispatch event core1).2 = chat_history core ∧
     match format_2f duration with
     | Ok formatted =>
         dispatch event core1 =
           (Ok (), printed core1 [received_line (VStr s) formatted provider]) ∧
         stays_alive fuel core (printed core1 [received_line (VStr s) formatted provider])
     | Raise e =>
         ∃ cls msg,
           e = Exception cls msg ∧
           dispatch event core1 = (Raise e, core1) ∧
           stays_alive fuel core (printed core1 [error_line msg])
     end) ∧
  (∀ text stripped duration provider formatted cls msg,
     EventBus.ev_type event = lit "transcription" →
     get (EventBus.ev_payload event) (lit "text") VNone = Ok text →
     get (EventBus.ev_payload event) (lit "audio_duration") (VInt 0) = Ok duration →
     get (EventBus.ev_payload event) (lit "provider") (VStr (lit "unknown")) = Ok provider →
     format_2f duration = Ok formatted →
     truthy text = true →
     strip text = Ok stripped →
     truthy stripped = true →
     backend_chat (backend_calls core) (call_of core text) = Raise (Exception cls msg) →
     let failed :=
       printed (called core1 (call_of core text) (Raise (Exception cls msg)))
         [received_line text formatted provider; sending_line text; chat_error_line msg] in
     dispatch event core1 = (Ok (), failed) ∧
     stays_alive fuel core failed).
Proof.
  intros Hget Hfuel core1. split; [|split].
  - intros cls msg core' Hd.
    destruct (dispatch_exception _ _ _ _ _ Hd) as (Hbus & Hhist & Hcalls).
    do 3 (split; [done|]).
    apply (alive fuel core _ event bus Hget Hfuel); [|done].
    rewrite (loop_step _ _ _ _ Hget). fold core1. by rewrite Hd.
  - intros s duration provider Hty Htext Hdur Hprov Hblank.
    assert (dispatch event core1 =
            match format_2f duration with
            | Ok formatted =>
                (Ok (), printed core1 [received_line (VStr s) formatted provider])
            | Raise e => (Raise e, core1)
            end) as Hd.
    { unfold AgentCore.dispatch. rewrite Hty.
      rewrite (bool_decide_eq_false_2 (lit "transcription" = lit "wake_word_detected"))
        by discriminate.
      rewrite (bool_decide_eq_false_2 (lit "transcription" = lit "speech_start"))
        by discriminate.
      rewrite (bool_decide_eq_false_2 (lit "transcription" = lit "audio_ready_for_stt"))
        by discriminate.
      rewrite (bool_decide_eq_true_2 (lit "transcription" = lit "transcription")) by done.
      run_monad. rewrite Htext, Hdur, Hprov.
      destruct (format_2f duration) as [formatted|e]; [|done].
      by rewrite handle_blank. }
    rewrite Hd.
    destruct (format_2f duration) as [formatted|e] eqn:Hf.
    + split; [done|]. split; [done|]. split; [done|].
      apply (alive fuel core _ event bus Hget Hfuel); [|done].
      rewrite (loop_step _ _ _ _ Hget). fold core1. by rewrite Hd.
    + split; [done|]. split; [done|].
      destruct e as [cls msg|]; [|by destruct (format_2f_exception _ _ Hf)].
      exists cls, msg. split; [done|]. split; [done|].
      apply (alive fuel core _ event bus Hget Hfuel); [|done].
      rewrite (loop_step _ _ _ _ Hget). fold core1. by rewrite Hd.
  - intros text stripped duration provider formatted cls msg
      Hty Htext Hdur Hprov Hf Ht Hs Hst Hraise failed.
    assert (dispatch event core1 = (Ok (), failed)) as Hd.
    { unfold AgentCore.dispatch. rewrite Hty.
      rewrite (bool_decide_eq_false_2 (lit "transcription" = lit "wake_word_detected"))
        by discriminate.
      rewrite (bool_decide_eq_false_2 (lit "transcription" = lit "speech_start"))
        by discriminate.
      rewrite (bool_decide_eq_false_2 (lit "transcription" = lit "audio_ready_for_stt"))
        by discriminate.
      rewrite (bool_decide_eq_true_2 (lit "transcription" = lit "transcription")) by done.
      run_monad. rewrite Htext, Hdur, Hprov, Hf.
      rewrite (handle_calls _ stripped) by done.
      unfold failed, printed, called, core1, try_except, await_backend_chat.
      run_monad. simpl_core.
      unfold call_of. simpl_core. fold (call_of core text). rewrite Hraise.
      simpl_core. by rewrite <- !app_assoc. }
    split; [done|].
    apply (alive fuel core _ event bus Hget Hfuel); [|done].
    rewrite (loop_step _ _ _ _ Hget). fold core1. by rewrite Hd.
Qed.


End Chat.

Section ConversationFacts.
Import Conversation.

Lemma error_response_keeps_user_turn_witness :
  (_handle_transcription error_backend hello (payload_of hello) core).1 = Ok () ∧
  chat_history (_handle_transcription error_backend hello (payload_of hello) core).2 =
    chat_history core ++ [turn "user" hello] ∧
  event_bus (_handle_transcription error_backend hello (payload_of hello) core).2 =
    event_bus core.
Proof.
  apply (error_response_keeps_user_turn error_backend hello (payload_of hello) core
           error_result); reflexivity.
Defined.

Lemma chat_exception_leaves_history_witness :
  chat_history (_handle_transcription timeout_backend hello (payload_of hello) core).2 =
    chat_history core ∧
  event_bus (_handle_transcription timeout_backend hello (payload_of hello) core).2 =
    event_bus core.
Proof.
  apply (chat_exception_leaves_history timeout_backend hello (payload_of hello) core
           (Exception "ReadTimeout" (lit "ReadTimeout: timed out"))).
  reflexivity.
Defined.

(** The three cases of the loop's survival under a gateway that times
    out: the malformed transcription, whose formatting raises; the blank
    one; and the transcription of "hello", whose call times out. *)
Lemma dispatch_loop_survives_witness :
  stays_alive timeout_backend 4 core_with_malformed
    (printed (set_event_bus core_with_malformed
                (EventBus.emit EventBus.init (lit "transcription") (payload_of hello)))
       [error_line (lit "Unknown format code 'f' for object of type 'str'")]) ∧
  stays_alive timeout_backend 2 core_with_blank
    (printed (set_event_bus core_with_blank EventBus.init)
       [received_line (VStr (lit "  ")) (3 # 2) (VStr (lit "openai_whisper"))]) ∧
  stays_alive timeout_backend 3 core_with_question
    (printed (called (set_event_bus core_with_question
                        (EventBus.emit EventBus.init (lit "speech_start") (VDict [])))
                (call_of core_with_question hello)
                (Raise (Exception "ReadTimeout" (lit "ReadTimeout: timed out"))))
       [received_line hello (3 # 2) (VStr (lit "openai_whisper")); sending_line hello;
        chat_error_line (lit "ReadTimeout: timed out")]).
Proof.
  split; [|split].
  - refine (proj2 (proj2 (proj2
              (proj1 (dispatch_loop_survives timeout_backend 4 core_with_malformed
                        {| EventBus.ev_type := lit "transcription";
                           EventBus.ev_payload := malformed |}
                        (EventBus.emit EventBus.init (lit "transcription") (payload_of hello))
                        _ _)
                 "ValueError"%string (lit "Unknown format code 'f' for object of type 'str'")
                 (set_event_bus core_with_malformed
                    (EventBus.emit EventBus.init (lit "transcription") (payload_of hello)))
                 _)))).
    + reflexivity.
    + unfold pending, core_with_malformed. simpl. lia.
    + reflexivity.
  - refine (proj2 (proj2 (proj2
              (proj1 (proj2 (dispatch_loop_survives timeout_backend 2 core_with_blank
                               {| EventBus.ev_type := lit "transcription";
                                  EventBus.ev_payload := payload_of (VStr (lit "  ")) |}
                               EventBus.init _ _))
                 (lit "  ") (VFloat (3 # 2)) (VStr (lit "openai_whisper")) _ _ _ _ _)))).
    + reflexivity.
    + unfold pending, core_with_blank. simpl. lia.
    + reflexivity.
    + reflexivity.
    + reflexivity.
    + reflexivity.
    + reflexivity.
  - refine (proj2
              (proj2 (proj2 (dispatch_loop_survives timeout_backend 3 core_with_question
                               {| EventBus.ev_type := lit "transcription";
                                  EventBus.ev_payload := payload_of hello |}
                               (EventBus.emit EventBus.init (lit "speech_start") (VDict []))
                               _ _))
                 hello hello (VFloat (3 # 2)) (VStr (lit "openai_whisper")) (3 # 2)%Q
                 "ReadTimeout"%string (lit "ReadTimeout: timed out") _ _ _ _ _ _ _ _ _)).
    + reflexivity.
    + unfold pending, core_with_question. simpl. lia.
    + reflexivity.
    + reflexivity.
    + reflexivity.
    + reflexivity.
    + reflexivity.
    + reflexivity.
    + reflexivity.
    + reflexivity.
    + reflexivity.
Defined.


Lemma event_loop_drains_queue_witness :
  ∃ core',
    _event_handler_loop answer_backend 4 core_with_hello = Some (Waiting, core') ∧
    EventBus.default_queue (event_bus core') = [].
Proof.
  apply (event_loop_drains_queue answer_backend); [done|].
  unfold pending, core_with_hello. simpl. lia.
Defined.

End ConversationFacts.

End AgentCoreFacts.

(** ** More about the event bus: what its users' operations add up to *)

Module EventBusTraffic.
Import EventBus EventBusFacts.
Local Open Scope nat_scope.

(** The queues registered under a type ([self.subscribers[event_type]],
    none when the key is absent). *)
Definition queues (bus : t) (event_type : pystr) : list (list Event) :=
  default [] (subscribers bus !! event_type).

(** The calls of [listen] for a type among some operations. *)
Definition listens (event_type : pystr) (ops : list Op) : nat :=
  sum_list_with
    (fun op => match op with
               | OListen (Some ty) => if bool_decide (ty = event_type) then 1 else 0
               | _ => 0
               end) ops.

(** The events a queue is sent by some operations: those of its type,
    and all of them for the default queue. *)
Definition delivered (h : Handle) (ops : list Op) : list Event :=
  omap (fun op =>
          match op with
          | OEmit ty payload =>
              match h with
              | HDefault => Some {| ev_type := ty; ev_payload := payload |}
              | HSub event_type _ =>
                  if bool_decide (ty = event_type)
                  then Some {| ev_type := ty; ev_payload := payload |} else None
              end
          | _ => None
          end) ops.

(** The events the completed [get]s on a queue have returned, in order. *)
Fixpoint taken (bus : t) (h : Handle) (ops : list Op) : list Event :=
  match ops with
  | [] => []
  | op :: ops' =>
      match op with
      | OGet h' =>
          if bool_decide (h' = h)
          then match queue_get bus h with
               | Some (event, _) => [event]
               | None => []
               end
          else []
      | _ => []
      end ++ taken (step bus op) h ops'
  end.

Lemma queues_emit (bus : t) (ty : pystr) (payload : pyval) (event_type : pystr) :
  length (queues (emit bus ty payload) event_type) = length (queues bus event_type).
Proof.
  unfold queues, emit. cbn [subscribers].
  destruct (subscribers bus !! ty) as [qs|] eqn:E; [|done].
  destruct (decide (ty = event_type)) as [->|Hne].
  - rewrite lookup_insert_eq, E. simpl. by rewrite length_fmap.
  - by rewrite lookup_insert_ne.
Qed.

Lemma queues_get (bus : t) (h : Handle) (event_type : pystr) :
  length (queues (from_option snd bus (queue_get bus h)) event_type) =
  length (queues bus event_type).
Proof.
  unfold queue_get. destruct (queue_of bus h) as [[|event queue]|]; try done.
  destruct h as [|ty index]; [done|].
  unfold queues. cbn [from_option snd set_queue subscribers].
  rewrite lookup_alter. case_decide; [subst ty|done].
  destruct (subscribers bus !! event_type); simpl; [|done].
  by rewrite length_insert.
Qed.

Lemma queues_step (bus : t) (op : Op) (event_type : pystr) :
  event_type ≠ [] →
  length (queues (step bus op) event_type) =
  length (queues bus event_type) + listens event_type [op].
Proof.
  intros Hne. destruct op as [ty payload|[[|c s]|]|h]; cbn [step listens sum_list_with].
  - rewrite queues_emit. lia.
  - rewrite bool_decide_eq_false_2 by done. cbn [listen_subscribe fst]. lia.
  - cbn [listen_subscribe fst]. unfold queues at 1. cbn [subscribers].
    case_bool_decide as Hty.
    + rewrite Hty, lookup_insert_eq. simpl. rewrite length_app. unfold queues. simpl. lia.
    + rewrite lookup_insert_ne by done. unfold queues. lia.
  - cbn [listen_subscribe fst]. lia.
  - rewrite queues_get. lia.
Qed.

(** A queue is never removed, and every call of [listen] with a
    non-empty type adds one: after any operations of the bus's users,
    the queues under a type are those there were plus one for each such
    call, whether or not the earlier callers are still waiting. *)
Theorem queues_only_grow (bus : t) (event_type : pystr) (ops : list Op) :
  event_type ≠ [] →
  length (queues (run bus ops) event_type) =
  length (queues bus event_type) + listens event_type ops.
Proof.
  intros Hne. revert bus. induction ops as [|op ops IH]; intros bus.
  - simpl. lia.
  - change (run bus (op :: ops)) with (run (step bus op) ops).
    rewrite IH, queues_step by done.
    change (op :: ops) with ([op] ++ ops).
    unfold listens. rewrite sum_list_with_app. lia.
Qed.

Lemma queues_only_grow_witness :
  length (queues (run bus_with_history ops_after_listen) (lit "transcription")) =
  length (queues bus_with_history (lit "transcription")) +
  listens (lit "transcription") ops_after_listen.
Proof. apply queues_only_grow. discriminate. Defined.

(** *** Every queue is first in, first out, and loses nothing *)

Lemma queue_get_own (bus : t) (h : Handle) (event : Event) (queue : list Event) :
  queue_of bus h = Some (event :: queue) →
  queue_get bus h = Some (event, set_queue bus h queue) ∧
  queue_of (set_queue bus h queue) h = Some queue.
Proof.
  intros Hq. unfold queue_get. rewrite Hq. split; [done|].
  destruct h as [|ty index]; [done|].
  cbn [queue_of set_queue subscribers] in *.
  rewrite lookup_alter, decide_True by done.
  destruct (subscribers bus !! ty) as [qs|]; simpl in *; [|done].
  apply list_lookup_insert_eq. by apply lookup_lt_Some in Hq.
Qed.

Lemma delivered_app (h : Handle) (ops ops' : list Op) :
  delivered h (ops ++ ops') = delivered h ops ++ delivered h ops'.
Proof. apply omap_app. Qed.

Lemma step_conserves (bus : t) (h : Handle) (queue : list Event) (op : Op) :
  queue_of bus h = Some queue →
  ∃ queue',
    queue_of (step bus op) h = Some queue' ∧
    taken bus h [op] ++ queue' = queue ++ delivered h [op].
Proof.
  intros Hq. destruct op as [ty payload|et|h'].
  - cbn [taken app delivered omap list_omap step].
    destruct h as [|event_type index].
    + eexists. split; [reflexivity|]. simpl in Hq. injection Hq as <-. done.
    + case_bool_decide as Hty.
      * subst ty. rewrite emit_queue_eq, Hq. eexists. split; [reflexivity|done].
      * rewrite emit_queue_ne by done. rewrite Hq. eexists. split; [reflexivity|].
        by rewrite app_nil_r.
  - cbn [taken app delivered omap list_omap step]. exists queue.
    split; [by apply listen_subscribe_keeps|]. by rewrite app_nil_r.
  - cbn [taken delivered omap list_omap step]. rewrite !app_nil_r.
    case_bool_decide as Hh.
    + subst h'. destruct queue as [|event queue].
      * unfold queue_get. rewrite Hq. exists []. cbn [from_option]. by rewrite Hq.
      * destruct (queue_get_own _ _ _ _ Hq) as [-> Hq']. exists queue.
        cbn [from_option snd]. by rewrite Hq'.
    + exists queue. rewrite queue_get_other by done. done.
Qed.

(** Whatever the users of the bus do, the events taken from a queue so
    far, followed by those still in it, are the events it held at first
    followed by those sent to it since, in the order of their emission:
    nothing is lost, duplicated or reordered. *)
Theorem queues_are_fifo (ops : list Op) : ∀ (bus : t) (h : Handle) (queue : list Event),
  queue_of bus h = Some queue →
  ∃ queue',
    queue_of (run bus ops) h = Some queue' ∧
    taken bus h ops ++ queue' = queue ++ delivered h ops.
Proof.
  induction ops as [|op ops IH]; intros bus h queue Hq.
  - exists queue. split; [done|]. by rewrite app_nil_r.
  - destruct (step_conserves bus h queue op Hq) as (queue1 & Hq1 & Hstep).
    destruct (IH (step bus op) h queue1 Hq1) as (queue' & Hq' & Hrun).
    exists queue'. split; [done|].
    change (op :: ops) with ([op] ++ ops) at 2. rewrite delivered_app, app_assoc, <- Hstep.
    rewrite <- app_assoc, <- Hrun, app_assoc. f_equal.
    cbn [taken]. by rewrite app_nil_r.
Qed.

Lemma queues_are_fifo_witness :
  ∃ queue',
    queue_of (run bus_with_history ops_after_listen) HDefault = Some queue' ∧
    taken bus_with_history HDefault ops_after_listen ++ queue' =
    default_queue bus_with_history ++ delivered HDefault ops_after_listen.
Proof. apply (queues_are_fifo ops_after_listen bus_with_history HDefault). reflexivity. Defined.

End EventBusTraffic.

(** ** More about the segmentation: framing, the band of the
    zero-crossing criterion, and the protocol on the bus *)

Module WakeWordVADProtocol.
Import WakeWordVAD WakeWordVADFacts.
Local Open Scope nat_scope.

(** *** Framing *)

Lemma mod_low (a b : Z) : (0 ≤ a < 256)%Z → ((a + 256 * b) `mod` 256 = a)%Z.
Proof.
  intros Ha. replace (a + 256 * b)%Z with (a + b * 256)%Z by lia.
  rewrite Z.mod_add by lia. apply Z.mod_small. lia.
Qed.

Lemma div_high (a b : Z) : (0 ≤ a < 256)%Z → ((a + 256 * b) / 256 = b)%Z.
Proof.
  intros Ha. replace (a + 256 * b)%Z with (a + b * 256)%Z by lia.
  rewrite Z.div_add by lia. rewrite Z.div_small by lia. lia.
Qed.

Lemma byte_of_Z_low (lo hi : byte) : byte_of_Z (int16 lo hi) = lo.
Proof.
  unfold byte_of_Z, int16.
  pose proof (Byte.to_N_bounded lo) as Hlo.
  set (a := Byte.to_N lo) in *. set (b := Z.of_N (Byte.to_N hi)).
  assert ((if (Z.of_N a + 256 * b <? 32768)%Z
           then (Z.of_N a + 256 * b)%Z
           else (Z.of_N a + 256 * b - 65536)%Z) `mod` 256 = Z.of_N a)%Z as ->.
  { destruct (_ <? _)%Z; [apply mod_low; lia|].
    replace (Z.of_N a + 256 * b - 65536)%Z with (Z.of_N a + 256 * (b - 256))%Z by lia.
    apply mod_low. lia. }
  rewrite N2Z.id. subst a. by rewrite Byte.of_to_N.
Qed.

Lemma byte_of_Z_high (lo hi : byte) : byte_of_Z (int16 lo hi / 256) = hi.
Proof.
  unfold byte_of_Z, int16.
  pose proof (Byte.to_N_bounded lo) as Hlo. pose proof (Byte.to_N_bounded hi) as Hhi.
  set (a := Z.of_N (Byte.to_N lo)). set (b := Byte.to_N hi) in *.
  assert (((if (a + 256 * Z.of_N b <? 32768)%Z
            then (a + 256 * Z.of_N b)%Z
            else (a + 256 * Z.of_N b - 65536)%Z) / 256) `mod` 256 = Z.of_N b)%Z as ->.
  { destruct (_ <? _)%Z.
    - rewrite div_high by lia. apply Z.mod_small. lia.
    - replace (a + 256 * Z.of_N b - 65536)%Z with (a + 256 * (Z.of_N b - 256))%Z by lia.
      rewrite div_high by lia.
      replace (Z.of_N b - 256)%Z with (Z.of_N b + 256 * (-1))%Z by lia.
      apply mod_low. lia. }
  rewrite N2Z.id. subst b. by rewrite Byte.of_to_N.
Qed.

Lemma frombuffer_cons2 (lo hi : byte) (rest : list byte) :
  frombuffer (lo :: hi :: rest) =
  match frombuffer rest with
  | Ok pcm => Ok (int16 lo hi :: pcm)
  | Raise e => Raise e
  end.
Proof. reflexivity. Qed.

(** Induction on byte strings two bytes at a time. *)
Lemma pairs_ind (P : list byte → Prop) :
  P [] → (∀ b, P [b]) → (∀ lo hi rest, P rest → P (lo :: hi :: rest)) →
  ∀ buffer, P buffer.
Proof.
  intros Hnil Hone Hstep.
  assert (∀ buffer, P buffer ∧ ∀ b, P (b :: buffer)) as H.
  { induction buffer as [|b buffer [IH1 IH2]]; [by split|].
    split; [apply IH2|]. intros b'. by apply Hstep. }
  intros buffer. apply H.
Qed.

(** The samples of a well-formed buffer written back are the buffer. *)
Lemma tobytes_frombuffer (buffer : list byte) (pcm : list Z) :
  frombuffer buffer = Ok pcm → tobytes pcm = buffer.
Proof.
  revert pcm. induction buffer as [| |lo hi rest IH] using pairs_ind; intros pcm.
  - by intros [= <-].
  - done.
  - rewrite frombuffer_cons2. destruct (frombuffer rest) as [pcm'|e]; [|done].
    intros [= <-]. unfold tobytes in *. cbn [flat_map app].
    by rewrite byte_of_Z_low, byte_of_Z_high, (IH pcm').
Qed.

Lemma frombuffer_length (buffer : list byte) (pcm : list Z) :
  frombuffer buffer = Ok pcm → length buffer = 2 * length pcm.
Proof.
  intros E. apply tobytes_frombuffer in E as <-. apply tobytes_length.
Qed.

(** [frombuffer] fails exactly on the buffers of odd length. *)
Lemma frombuffer_odd (buffer : list byte) :
  Nat.odd (length buffer) = true ↔ ∃ e, frombuffer buffer = Raise e.
Proof.
  induction buffer as [| |lo hi rest IH] using pairs_ind.
  - split; [done|]. by intros [e [=]].
  - split; [|done]. intros _. by eexists.
  - rewrite frombuffer_cons2. change (Nat.odd (length (lo :: hi :: rest)))
      with (Nat.odd (length rest)). rewrite IH.
    destruct (frombuffer rest) as [pcm|e].
    + split; intros [e [=]].
    + split; intros _; by eexists.
Qed.

Lemma tobytes_app (xs ys : list Z) : tobytes (xs ++ ys) = tobytes xs ++ tobytes ys.
Proof. apply flat_map_app. Qed.

Lemma tobytes_drop (n : nat) (xs : list Z) : tobytes (drop n xs) = drop (2 * n) (tobytes xs).
Proof.
  revert n. induction xs as [|x xs IH]; intros n.
  - change (tobytes []) with (@nil byte). by rewrite !drop_nil.
  - destruct n as [|n]; [done|].
    replace (2 * S n) with (S (S (2 * n))) by lia.
    change (tobytes (x :: xs)) with (byte_of_Z x :: byte_of_Z (x / 256) :: tobytes xs).
    cbn [drop]. apply IH.
Qed.

(** The bytes of the chunks of a run of well-formed chunks. *)
Lemma tobytes_samples_of (inputs : list (list byte * Q)) :
  Forall (fun input => Nat.odd (length input.1) = false) inputs →
  tobytes (samples_of inputs) = mjoin (inputs.*1).
Proof.
  induction 1 as [|input inputs Heven _ IH]; [done|].
  destruct (frombuffer input.1) as [pcm|e] eqn:E.
  - rewrite (samples_of_cons _ _ pcm) by done.
    rewrite tobytes_app, IH, (tobytes_frombuffer _ _ E). done.
  - assert (Nat.odd (length input.1) = true) by (apply frombuffer_odd; by eexists).
    congruence.
Qed.

(** *** The band of the zero-crossing criterion *)

Lemma sign_pairs (pcm : list Z) :
  length (zip_with (fun next prev : Z => xorb (0 <=? next)%Z (0 <=? prev)%Z)
            (drop 1 pcm) (take (length pcm - 1) pcm)) = length pcm - 1.
Proof. rewrite length_zip_with, length_drop, length_take. lia. Qed.

Lemma sign_changes_bounds (pcm : list Z) :
  (0 ≤ sign_changes pcm ≤ Z.of_nat (length pcm - 1))%Z.
Proof.
  unfold sign_changes. split; [lia|].
  apply Nat2Z.inj_le. etrans; [apply length_filter|]. by rewrite sign_pairs.
Qed.

Lemma zero_crossings_eq (pcm : list Z) :
  zero_crossings pcm = (Z.of_nat (length pcm - 1) - sign_changes pcm)%Z.
Proof.
  unfold zero_crossings, sign_changes.
  assert (∀ next prev : Z,
            xorb (0 <=? next)%Z (prev <? 0)%Z = negb (xorb (0 <=? next)%Z (0 <=? prev)%Z))
    as Hneg.
  { intros next prev.
    destruct (Z.ltb_spec prev 0), (Z.leb_spec 0 prev), (0 <=? next)%Z; simpl; lia || done. }
  pose proof (count_complement _ _ (drop 1 pcm) (take (length pcm - 1) pcm) Hneg) as Hc.
  rewrite length_drop, length_take in Hc. lia.
Qed.

Lemma Qlt_bool_iff (a b : Q) : Qlt_bool a b = true ↔ (a < b)%Q.
Proof.
  unfold Qlt_bool. rewrite negb_true_iff, <- not_true_iff_false, Qle_bool_iff.
  split; [apply Qnot_le_lt|apply Qlt_not_le].
Qed.

(** The zero-crossing criterion holds exactly on the windows of which
    more than half and less than nine tenths of the adjacent pairs change
    sign. *)
Theorem zcr_ok_band (pcm : list Z) :
  zcr_ok pcm = true ↔
  1 < length pcm ∧
  (1 # 2 < sign_change_rate pcm)%Q ∧ (sign_change_rate pcm < 9 # 10)%Q.
Proof.
  unfold zcr_ok, zcr, sign_change_rate.
  rewrite andb_true_iff, !Qlt_bool_iff.
  destruct (Nat.ltb_spec 1 (length pcm)) as [Hlen|Hlen].
  - rewrite zero_crossings_eq.
    pose proof (sign_changes_bounds pcm) as Hs.
    assert (Z.pos (Pos.of_nat (length pcm - 1)) = Z.of_nat (length pcm - 1)) as Hp.
    { rewrite <- positive_nat_Z, Nat2Pos.id by lia. done. }
    unfold Qlt. cbn [Qnum Qden]. rewrite Hp. split.
    + intros [H1 H2]. split; [done|]. lia.
    + intros (_ & H1 & H2). lia.
  - split; [by intros [? _]|]. intros [? _]. lia.
Qed.

Section Machine.
Variables (energy_ok spectral_ok : list Z → bool) (cfg : Config).

Local Abbreviation process := (process_audio_chunk energy_ok spectral_ok cfg).
Local Abbreviation run_loop := (loop energy_ok spectral_ok cfg).
Local Abbreviation extended := (WakeWordVAD.extended cfg).
Local Abbreviation invariant := (WakeWordVAD.invariant energy_ok spectral_ok cfg).

(** *** A chunk that is not a whole number of samples *)

Lemma loop_malformed (s : State * EventBus.t) (chunk : list byte) (now : Q) :
  Nat.odd (length chunk) = true →
  loop_iteration energy_ok spectral_ok cfg s (chunk, now) = s.
Proof.
  intros [e E]%frombuffer_odd. unfold loop_iteration. cbn [fst snd].
  by rewrite (process_malformed _ _ _ _ _ _ _ e).
Qed.

(** *** What one chunk does to the bus *)

Definition speech_start_event : EventBus.Event :=
  {| EventBus.ev_type := lit "speech_start"; EventBus.ev_payload := VDict [] |}.

Definition audio_ready_event (samples : list Z) : EventBus.Event :=
  {| EventBus.ev_type := lit "audio_ready_for_stt";
     EventBus.ev_payload := audio_ready_payload cfg (tobytes samples) |}.

(** The events a module that starts idle may have published, oldest
    first, and whether it is then recording: [speech_start] and
    [audio_ready_for_stt] alternate, and an utterance is never empty nor
    longer than the buffer. *)
Inductive published : list EventBus.Event → bool → Prop :=
| published_nothing : published [] false
| published_start events :
    published events false →
    published (events ++ [speech_start_event]) true
| published_end events samples :
    published events true →
    samples ≠ [] →
    length samples ≤ speech_maxlen cfg →
    published (events ++ [audio_ready_event samples]) false.

Lemma process_publishes st bus chunk now s' :
  process st bus chunk now = Ok s' →
  (s'.2 = bus ∧ speech_detected s'.1 = speech_detected st) ∨
  (speech_detected st = false ∧ speech_detected s'.1 = true ∧
   s'.2 = EventBus.emit bus (lit "speech_start") (VDict [])) ∨
  (∃ pcm, frombuffer chunk = Ok pcm ∧
     speech_buffer (extended st pcm) ≠ [] ∧
     speech_detected st = true ∧ speech_detected s'.1 = false ∧
     s'.2 = EventBus.emit bus (lit "audio_ready_for_stt")
              (audio_ready_payload cfg (tobytes (speech_buffer (extended st pcm))))).
Proof.
  unfold process_audio_chunk. destruct (frombuffer chunk) as [pcm|e] eqn:E; [|done].
  fold (extended st pcm).
  destruct (vad_verdict energy_ok spectral_ok (vad_buffer (extended st pcm))).
  - unfold _handle_speech_start.
    destruct (speech_detected (extended st pcm)) eqn:Hs; cbn [extended speech_detected] in Hs;
      intros [= <-]; cbn [fst snd speech_detected]; auto.
  - destruct (speech_detected (extended st pcm)) eqn:Hs; cbn [extended speech_detected] in Hs;
      cbn [andb]; [|intros [= <-]; auto].
    destruct (time_truthy _); [|intros [= <-]; auto].
    destruct (last_speech_time (extended st pcm)); [|intros [= <-]; auto].
    destruct (Qle_bool _ _); [|intros [= <-]; auto].
    unfold _handle_speech_end.
    destruct (speech_buffer (extended st pcm)) as [|x B] eqn:EB; cbn [length Nat.ltb Nat.leb];
      intros [= <-]; cbn [fst snd speech_detected]; [auto|].
    right. right. exists pcm. rewrite EB. by repeat split.
Qed.

Lemma loop_snoc s inputs input :
  run_loop s (inputs ++ [input]) =
  loop_iteration energy_ok spectral_ok cfg (run_loop s inputs) input.
Proof. unfold loop. by rewrite foldl_app. Qed.

Lemma silent_well_formed inputs : ∀ vad,
  silent_run energy_ok spectral_ok cfg vad inputs = true →
  Forall (fun input : list byte * Q => Nat.odd (length input.1) = false) inputs.
Proof.
  induction inputs as [|input inputs IH]; intros vad Hsil; [done|].
  cbn [silent_run] in Hsil. destruct (frombuffer input.1) as [pcm|e] eqn:E; [|done].
  apply andb_prop in Hsil as [_ Hsil]. constructor; [|by eapply IH].
  apply not_true_iff_false. intros [e' E']%frombuffer_odd. congruence.
Qed.

Definition publish (bus : EventBus.t) (events : list EventBus.Event) : EventBus.t :=
  foldl (fun bus event =>
           EventBus.emit bus (EventBus.ev_type event) (EventBus.ev_payload event))
        bus events.

(** A chunk of odd length raises in [np.frombuffer] before anything is
    touched: the run goes on as if the chunk had not been read. *)
Theorem malformed_chunk_is_skipped (s : State * EventBus.t)
    (pre post : list (list byte * Q)) (chunk : list byte) (now : Q) :
  Nat.odd (length chunk) = true →
  run_loop s (pre ++ (chunk, now) :: post) = run_loop s (pre ++ post).
Proof.
  intros Hodd. rewrite !loop_app, loop_cons. by rewrite loop_malformed.
Qed.

(** Whatever is read, the module publishes [speech_start] and
    [audio_ready_for_stt] in alternation, starting with [speech_start];
    it is recording exactly when the last event is a [speech_start]; and
    every [audio_ready_for_stt] carries at least one and at most
    [int(rate * 10)] samples. *)
Theorem events_alternate (bus : EventBus.t) (inputs : list (list byte * Q)) :
  ∃ events,
    (run_loop (init, bus) inputs).2 = publish bus events ∧
    published events (speech_detected (run_loop (init, bus) inputs).1).
Proof.
  induction inputs as [|input inputs (events & Hbus & Hpub)] using rev_ind.
  { exists []. split; [done|]. constructor. }
  rewrite loop_snoc. unfold loop_iteration.
  pose proof (invariant_loop energy_ok spectral_ok cfg inputs (init, bus)
                (invariant_init energy_ok spectral_ok cfg)) as (HB & _).
  destruct (run_loop (init, bus) inputs) as [st bus'] eqn:Hrun. cbn [fst snd] in *.
  destruct (process st bus' input.1 input.2) as [s'|e] eqn:Hp.
  2: { by exists events. }
  apply process_publishes in Hp
    as [[-> ->]|[(Hs & -> & ->)|(pcm & E & Hne & Hs & -> & ->)]].
  - by exists events.
  - exists (events ++ [speech_start_event]). split.
    + rewrite Hbus. unfold publish. by rewrite foldl_app.
    + constructor. by rewrite <- Hs.
  - exists (events ++ [audio_ready_event (speech_buffer (extended st pcm))]). split.
    + rewrite Hbus. unfold publish. by rewrite foldl_app.
    + constructor; [by rewrite <- Hs|done|]. by apply deque_extend_bounded.
Qed.

(** What is published at the end of an utterance is, byte for byte,
    what the stream delivered: the bytes the buffer held before, followed
    by the chunks read since, less what exceeds the ten seconds of the
    buffer, which is discarded from the front. *)
Theorem published_audio_is_what_was_read (st : State) (bus : EventBus.t) (t0 : Q)
    (gap : list (list byte * Q)) (chunk : list byte) (now : Q) :
  reachable energy_ok spectral_ok cfg st →
  speech_detected st = true →
  last_speech_time st = Some t0 →
  Qeq_bool t0 0 = false →
  silent_run energy_ok spectral_ok cfg (vad_buffer st) (gap ++ [(chunk, now)]) = true →
  within_timeout cfg t0 gap = true →
  Qle_bool (silence_timeout_ms cfg) (now - t0) = true →
  (run_loop (st, bus) (gap ++ [(chunk, now)])).2 =
  EventBus.emit bus (lit "audio_ready_for_stt")
    (audio_ready_payload cfg
       (drop (length (tobytes (speech_buffer st) ++ mjoin ((gap ++ [(chunk, now)]).*1))
              - 2 * speech_maxlen cfg)
             (tobytes (speech_buffer st) ++ mjoin ((gap ++ [(chunk, now)]).*1)))).
Proof.
  intros Hreach Hs Ht H0 Hsil Hin Hd.
  destruct (reachable_invariant _ _ _ _ Hreach) as (HB & _ & _ & Hsp).
  destruct (Hsp Hs) as [Hne _].
  rewrite (loop_silent_end _ _ _ _ _ t0 gap chunk now []) by done.
  cbn [snd]. do 2 f_equal.
  cbn [WakeWordVAD.extended speech_buffer].
  rewrite deque_extend_drop, tobytes_drop, tobytes_app by done.
  rewrite (tobytes_samples_of (gap ++ [(chunk, now)])) by by eapply silent_well_formed.
  f_equal. rewrite <- (tobytes_samples_of (gap ++ [(chunk, now)]))
    by by eapply silent_well_formed.
  rewrite <- tobytes_app, tobytes_length. lia.
Qed.

End Machine.

Section Witnesses.
Import Session.

Lemma published_audio_is_what_was_read_witness :
  (loop energy no_spectral config (speaking, EventBus.init) (pause ++ [(quiet, clock 11)])).2 =
  EventBus.emit EventBus.init (lit "audio_ready_for_stt")
    (audio_ready_payload config
       (drop (length (tobytes (speech_buffer speaking) ++
                      mjoin ((pause ++ [(quiet, clock 11)]).*1))
              - 2 * speech_maxlen config)
             (tobytes (speech_buffer speaking) ++
              mjoin ((pause ++ [(quiet, clock 11)]).*1)))).
Proof.
  apply (published_audio_is_what_was_read energy no_spectral config speaking
           EventBus.init (clock 1) pause quiet (clock 11)
           speaking_reachable eq_refl eq_refl clock_nonzero).
  - rewrite closing. apply quiet_chunks_silent, speaking_window_fits.
  - exact pause_within.
  - exact closing_late.
Defined.

Lemma malformed_chunk_is_skipped_witness :
  loop energy no_spectral config (init, EventBus.init)
       ([] ++ ([x01], clock 0) :: quiet_chunks [1%Z]) =
  loop energy no_spectral config (init, EventBus.init) ([] ++ quiet_chunks [1%Z]).
Proof.
  apply (malformed_chunk_is_skipped energy no_spectral config). reflexivity.
Defined.

End Witnesses.

End WakeWordVADProtocol.

(** ** More about the supervisor: what a conversation records *)

Module AgentCoreHistory.
Import AgentCore AgentCoreFacts.
Local Open Scope nat_scope.

Ltac simpl_core :=
  cbn [event_bus modules tasks agent_name sender_name chat_history stdout started
       backend_calls fst snd negb].

(** The agent's answer in [result["response"]], as
    [_handle_transcription] reads it (lines 63-66): a dict without the
    key ["error"] and with the key ["response"]. *)
Definition answer_in (chat_response : pyval) : option pyval :=
  match chat_response with
  | VDict d =>
      match dict_lookup d (lit "error") with
      | Some _ => None
      | None => dict_lookup d (lit "response")
      end
  | _ => None
  end.

Definition agent_answer (result : pyval) : option pyval :=
  match result with
  | VDict r => answer_in (default VNone (dict_lookup r (lit "response")))
  | _ => None
  end.

(** The turns a result of the gateway adds to the history, and the bus
    after it. *)
Definition assistant_turn (answer : option pyval) : list pyval :=
  match answer with
  | Some answer => [turn "assistant" answer]
  | None => []
  end.

Definition turns_of (text result : pyval) : list pyval :=
  turn "user" text :: assistant_turn (agent_answer result).

Definition bus_after_answer (bus : EventBus.t) (answer : option pyval) : EventBus.t :=
  match answer with
  | Some answer => EventBus.emit bus (lit "agent_response") (VDict [(lit "text", answer)])
  | None => bus
  end.

Lemma handle_response_turns (chat_response : pyval) (core : t) :
  (∀ e, (handle_response chat_response core).1 = Raise e → e ≠ CancelledError) ∧
  chat_history (handle_response chat_response core).2 =
    chat_history core ++ assistant_turn (answer_in chat_response) ∧
  event_bus (handle_response chat_response core).2 =
    bus_after_answer (event_bus core) (answer_in chat_response).
Proof.
  unfold handle_response. run_monad.
  destruct chat_response as [| | | |s|b|l|d];
    cbn [contains getitem answer_in assistant_turn bus_after_answer]; simpl_core;
    rewrite ?app_nil_r; try (split; [by intros ? [= <-]|done]).
  - destruct (is_substring (lit "error") s); simpl_core;
      [split; [by intros ? [= <-]|done]|].
    destruct (is_substring (lit "response") s); simpl_core;
      (split; [by intros ? [= <-]|done]).
  - destruct (existsb (is_str (lit "error")) l); simpl_core;
      [split; [by intros ? [= <-]|done]|].
    destruct (existsb (is_str (lit "response")) l); simpl_core;
      (split; [by intros ? [= <-]|done]).
  - destruct (dict_lookup d (lit "error")) as [error|] eqn:He.
    + rewrite bool_decide_eq_true_2 by by eexists. simpl_core.
      rewrite app_nil_r. by split.
    + rewrite bool_decide_eq_false_2 by by intros [? [=]].
      destruct (dict_lookup d (lit "response")) as [answer|] eqn:Hr.
      * rewrite bool_decide_eq_true_2 by by eexists. simpl_core. by split.
      * rewrite bool_decide_eq_false_2 by by intros [? [=]]. simpl_core.
        rewrite app_nil_r. by split.
Qed.

Lemma answer_in_falsy (chat_response : pyval) :
  truthy chat_response = false → answer_in chat_response = None.
Proof. by destruct chat_response as [| | | | | | |[|[k x] d]]. Qed.

(** [after_chat] on a result that is a dict. *)
Lemma after_chat_dict (text : pyval) (r : list (pystr * pyval)) (core : t) :
  after_chat text (VDict r) core =
  match (if truthy (default VNone (dict_lookup r (lit "response")))
         then handle_response (default VNone (dict_lookup r (lit "response")))
                (history_append (turn "user" text) core).2
         else (Ok (), (history_append (turn "user" text) core).2)) with
  | (Ok _, core') =>
      if truthy (default VNone (dict_lookup r (lit "paymentResponse")))
      then print "[CHAT] Payment processed:"
             [default VNone (dict_lookup r (lit "paymentResponse"))] core'
      else (Ok (), core')
  | (Raise e, core') => (Raise e, core')
  end.
Proof.
  unfold after_chat. run_monad. cbn [get]. simpl_core.
  destruct (truthy (default VNone (dict_lookup r (lit "response")))).
  - destruct (handle_response _ _) as [[[]|e] core']; [|done].
    by destruct (truthy (default VNone (dict_lookup r (lit "paymentResponse")))).
  - by destruct (truthy (default VNone (dict_lookup r (lit "paymentResponse")))).
Qed.

(** After the gateway has answered (lines 57-80): the user turn is
    recorded, then the answer if there is one; nothing is cancelled. *)
Lemma after_chat_turns (text result : pyval) (core : t) :
  (∀ e, (after_chat text result core).1 = Raise e → e ≠ CancelledError) ∧
  chat_history (after_chat text result core).2 = chat_history core ++ turns_of text result ∧
  event_bus (after_chat text result core).2 = bus_after_answer (event_bus core) (agent_answer result).
Proof.
  destruct result as [| | | | | | |r];
    try (unfold after_chat; run_monad; cbn [get]; simpl_core;
         split; [by intros ? [= <-]|done]).
  rewrite after_chat_dict. unfold turns_of, agent_answer.
  set (chat_response := default VNone (dict_lookup r (lit "response"))).
  set (payment := default VNone (dict_lookup r (lit "paymentResponse"))).
  set (core1 := (history_append (turn "user" text) core).2).
  assert (chat_history core1 = chat_history core ++ [turn "user" text]) as Hh1 by done.
  assert (event_bus core1 = event_bus core) as Hb1 by done.
  clearbody core1.
  destruct (truthy chat_response) eqn:Ht.
  - destruct (handle_response_turns chat_response core1) as (Hnc & Hh & Hb).
    destruct (handle_response chat_response core1) as [[[]|e] core2]; cbn [fst snd] in *.
    + rewrite Hh1 in Hh. rewrite Hb1 in Hb. rewrite <- app_assoc in Hh.
      destruct (truthy payment); simpl_core; by repeat split.
    + rewrite Hh1 in Hh. rewrite Hb1 in Hb. rewrite <- app_assoc in Hh.
      split; [|done]. intros ? [= <-]. by apply Hnc.
  - rewrite (answer_in_falsy _ Ht). cbn [assistant_turn bus_after_answer].
    destruct (truthy payment); simpl_core; by repeat split.
Qed.

Section Chat.
Variable backend_chat : list (ChatCall * Result pyval) → ChatCall → Result pyval.

Local Abbreviation handle := (_handle_transcription backend_chat).
Local Abbreviation dispatch := (dispatch backend_chat).
Local Abbreviation event_loop := (_event_handler_loop backend_chat).

(** [_handle_transcription] on a text that reaches the gateway. *)
Lemma handle_answered (text stripped payload result : pyval) (core : t) :
  truthy text = true → strip text = Ok stripped → truthy stripped = true →
  backend_chat (backend_calls core) (call_of core text) = Ok result →
  (handle text payload core).1 = Ok () ∧
  chat_history (handle text payload core).2 = chat_history core ++ turns_of text result ∧
  event_bus (handle text payload core).2 = bus_after_answer (event_bus core) (agent_answer result) ∧
  backend_calls (handle text payload core).2 =
    backend_calls core ++ [(call_of core text, Ok result)].
Proof.
  intros Ht Hs Hst Hres. rewrite (handle_calls _ _ stripped) by done.
  unfold try_except, await_backend_chat. run_monad. simpl_core.
  unfold call_of. simpl_core. fold (call_of core text). rewrite Hres.
  match goal with
  | |- context [after_chat text result ?c] =>
      destruct (after_chat_turns text result c) as (Hnc & Hh & Hb);
      pose proof (after_chat_backend_calls text result c) as Hc;
      destruct (after_chat text result c) as [[[]|[cls msg|]] core']
  end; cbn [fst snd chat_history event_bus backend_calls] in *; simpl_core; try done.
  by destruct (Hnc CancelledError).
Qed.

(** When the gateway has returned a result for the text, whatever the
    result is, the handler returns normally; the history has gained the
    user turn, followed by the assistant turn exactly when the result
    carries an answer; and exactly then one [agent_response] with the
    answer has been published. *)
Theorem answer_is_recorded_and_published (text payload : pyval) (core : t) (result : pyval) :
  backend_calls (handle text payload core).2 =
    backend_calls core ++ [(call_of core text, Ok result)] →
  (handle text payload core).1 = Ok () ∧
  chat_history (handle text payload core).2 = chat_history core ++ turns_of text result ∧
  event_bus (handle text payload core).2 = bus_after_answer (event_bus core) (agent_answer result).
Proof.
  intros Hcall.
  destruct (guard_cases text) as [Hguard|(stripped & Ht & Hs & Hst)].
  { rewrite handle_guarded in Hcall by done. by apply list_neq_snoc in Hcall. }
  destruct (handle_backend_calls backend_chat text payload core) as [Hb|Hb];
    rewrite Hb in Hcall.
  { by apply list_neq_snoc in Hcall. }
  apply app_inj_tail in Hcall as [_ [= Hres]].
  by destruct (handle_answered text stripped payload result core Ht Hs Hst Hres)
    as (? & ? & ? & _).
Qed.

(** *** The history only grows *)

(** The history and the record of the gateway's calls have only been
    added to, and the history by at most two turns for each call. *)
Definition grows (core core' : t) : Prop :=
  chat_history core `prefix_of` chat_history core' ∧
  backend_calls core `prefix_of` backend_calls core' ∧
  length (chat_history core') + 2 * length (backend_calls core) ≤
  length (chat_history core) + 2 * length (backend_calls core').

Lemma grows_refl (core core' : t) :
  chat_history core' = chat_history core → backend_calls core' = backend_calls core →
  grows core core'.
Proof. intros Hh Hc. unfold grows. rewrite Hh, Hc. split; [done|]. split; [done|lia]. Qed.

Lemma grows_trans (a b c : t) : grows a b → grows b c → grows a c.
Proof.
  intros (H1 & H2 & H3) (H4 & H5 & H6).
  split; [by etrans|]. split; [by etrans|]. lia.
Qed.

Lemma handle_raised (text stripped payload : pyval) (core : t) (e : Exn) :
  truthy text = true → strip text = Ok stripped → truthy stripped = true →
  backend_chat (backend_calls core) (call_of core text) = Raise e →
  chat_history (handle text payload core).2 = chat_history core ∧
  event_bus (handle text payload core).2 = event_bus core ∧
  backend_calls (handle text payload core).2 =
    backend_calls core ++ [(call_of core text, Raise e)].
Proof.
  intros Ht Hs Hst Hraise. rewrite (handle_calls _ _ stripped) by done.
  unfold try_except, await_backend_chat. run_monad. simpl_core.
  unfold call_of. simpl_core. fold (call_of core text). rewrite Hraise.
  by destruct e.
Qed.

Lemma handle_grows (text payload : pyval) (core : t) :
  grows core (handle text payload core).2.
Proof.
  destruct (guard_cases text) as [Hguard|(stripped & Ht & Hs & Hst)].
  { rewrite handle_guarded by done. by apply grows_refl. }
  destruct (backend_chat (backend_calls core) (call_of core text)) as [result|e] eqn:Hres.
  - destruct (handle_answered text stripped payload result core Ht Hs Hst Hres)
      as (_ & Hh & _ & Hc).
    unfold grows. rewrite Hh, Hc. split; [by apply prefix_app_r|].
    split; [by apply prefix_app_r|]. rewrite !length_app. unfold turns_of, assistant_turn.
    destruct (agent_answer result); simpl; lia.
  - destruct (handle_raised text stripped payload core e Ht Hs Hst Hres) as (Hh & _ & Hc).
    unfold grows. rewrite Hh, Hc. split; [done|].
    split; [by apply prefix_app_r|]. rewrite !length_app. simpl. lia.
Qed.

Lemma dispatch_grows (event : EventBus.Event) (core : t) :
  grows core (dispatch event core).2.
Proof.
  destruct (dispatch_gateway backend_chat event core)
    as [(Hc & Hh & _)|(text & line & _ & _ & ->)]; [by apply grows_refl|].
  eapply grows_trans; [|apply handle_grows]. by apply grows_refl.
Qed.

(** However the dispatch loop runs, it never removes or rewrites a
    recorded turn: the history when it stops (waiting or cancelled)
    extends the history it started with, by at most two turns for each
    call of the gateway made meanwhile. *)
Theorem history_only_grows (fuel : nat) (core : t) (exit : Exit) (core' : t) :
  event_loop fuel core = Some (exit, core') →
  chat_history core `prefix_of` chat_history core' ∧
  backend_calls core `prefix_of` backend_calls core' ∧
  length (chat_history core') + 2 * length (backend_calls core) ≤
  length (chat_history core) + 2 * length (backend_calls core').
Proof.
  change (event_loop fuel core = Some (exit, core') → grows core core').
  revert core exit core'.
  induction fuel as [|fuel IH]; intros core exit core'; [done|].
  cbn [_event_handler_loop].
  destruct (EventBus.queue_get (event_bus core) EventBus.HDefault) as [[event bus]|].
  2: { intros [= _ <-]. by apply grows_refl. }
  pose proof (dispatch_grows event (set_event_bus core bus)) as Hd.
  destruct (dispatch event (set_event_bus core bus)) as [[[]|[cls msg|]] core1];
    cbn [snd] in Hd.
  - intros Hloop%IH. eapply grows_trans; [|done].
    eapply grows_trans; [|done]. by apply grows_refl.
  - intros Hloop%IH. eapply grows_trans; [|done].
    eapply grows_trans; [|by apply grows_refl].
    eapply grows_trans; [|done]. by apply grows_refl.
  - intros [= _ <-]. eapply grows_trans; [|done]. by apply grows_refl.
Qed.

(** *** The log line for an utterance *)

Lemma payload_audio_data (cfg : WakeWordVAD.Config) (audio_bytes : list byte) :
  get (WakeWordVAD.audio_ready_payload cfg audio_bytes) (lit "audio_data") VNone =
  Ok (VBytes audio_bytes).
Proof. reflexivity. Qed.

Lemma payload_sample_rate (cfg : WakeWordVAD.Config) (audio_bytes : list byte) :
  get (WakeWordVAD.audio_ready_payload cfg audio_bytes) (lit "sample_rate") VNone =
  Ok (VInt (Z.of_N (WakeWordVAD.rate cfg))).
Proof. reflexivity. Qed.

Lemma payload_sample_width (cfg : WakeWordVAD.Config) (audio_bytes : list byte) :
  get (WakeWordVAD.audio_ready_payload cfg audio_bytes) (lit "sample_width") VNone =
  Ok (VInt 2).
Proof. reflexivity. Qed.

Lemma payload_channels (cfg : WakeWordVAD.Config) (audio_bytes : list byte) :
  get (WakeWordVAD.audio_ready_payload cfg audio_bytes) (lit "channels") VNone =
  Ok (VInt 1).
Proof. reflexivity. Qed.

Lemma payload_audio_duration (cfg : WakeWordVAD.Config) (audio_bytes : list byte) :
  get (WakeWordVAD.audio_ready_payload cfg audio_bytes) (lit "audio_duration") (VInt 0) =
  Ok (VInt 0).
Proof. reflexivity. Qed.

(** The duration the supervisor logs for an utterance. *)
Definition logged_duration (cfg : WakeWordVAD.Config) (audio_bytes : list byte) : Q :=
  if (Z.of_N (WakeWordVAD.rate cfg) =? 0)%Z then 0%Q
  else (inject_Z (Z.of_nat (length audio_bytes)) /
        (inject_Z (Z.of_N (WakeWordVAD.rate cfg)) * inject_Z 2 * inject_Z 1))%Q.

(** What the segmentation publishes at the end of an utterance is
    processed by the dispatch loop without an exception and without any
    effect but the log: the size in bytes and a duration of as many
    seconds as there are samples per [rate], or 0 when [rate] is 0 (no
    division by zero). *)
Theorem utterance_is_logged (cfg : WakeWordVAD.Config) (samples : list Z) (core : t) :
  dispatch {| EventBus.ev_type := lit "audio_ready_for_stt";
              EventBus.ev_payload :=
                WakeWordVAD.audio_ready_payload cfg (WakeWordVAD.tobytes samples) |} core =
  print "[EVENT] Audio ready for STT:"
    [VInt (Z.of_nat (length (WakeWordVAD.tobytes samples)));
     VFloat (logged_duration cfg (WakeWordVAD.tobytes samples));
     VInt (Z.of_N (WakeWordVAD.rate cfg)); VInt 2; VInt 1] core ∧
  (WakeWordVAD.rate cfg ≠ 0%N →
   (logged_duration cfg (WakeWordVAD.tobytes samples) ==
    inject_Z (Z.of_nat (length samples)) / inject_Z (Z.of_N (WakeWordVAD.rate cfg)))%Q).
Proof.
  split.
  - unfold AgentCore.dispatch. cbn [EventBus.ev_type EventBus.ev_payload].
    rewrite (bool_decide_eq_false_2 (lit "audio_ready_for_stt" = lit "wake_word_detected"))
      by discriminate.
    rewrite (bool_decide_eq_false_2 (lit "audio_ready_for_stt" = lit "speech_start"))
      by discriminate.
    rewrite (bool_decide_eq_true_2 (lit "audio_ready_for_stt" = lit "audio_ready_for_stt"))
      by reflexivity.
    unfold mbind, M_bind, bind, lift.
    rewrite payload_audio_data, payload_sample_rate, payload_sample_width, payload_channels.
    cbn beta iota.
    assert ((if truthy (VBytes (WakeWordVAD.tobytes samples))
             then len (VBytes (WakeWordVAD.tobytes samples)) else Ok 0%Z) =
            Ok (Z.of_nat (length (WakeWordVAD.tobytes samples)))) as ->.
    { cbn [truthy len]. case_bool_decide as Hb; [|done]. by rewrite Hb. }
    cbn beta iota.
    assert (audio_duration_sec (Z.of_nat (length (WakeWordVAD.tobytes samples)))
              (VInt (Z.of_N (WakeWordVAD.rate cfg))) (VInt 2) (VInt 1) =
            Ok (logged_duration cfg (WakeWordVAD.tobytes samples))) as ->.
    { unfold audio_duration_sec, logged_duration. cbn [truthy numeric].
      by destruct (Z.of_N (WakeWordVAD.rate cfg) =? 0)%Z. }
    reflexivity.
  - intros Hrate. unfold logged_duration.
    rewrite WakeWordVADFacts.tobytes_length.
    destruct (Z.eqb_spec (Z.of_N (WakeWordVAD.rate cfg)) 0) as [H0|H0]; [lia|].
    rewrite Nat2Z.inj_mul, inject_Z_mult. change (Z.of_nat 2) with 2%Z.
    field. intros Hq. apply H0. unfold Qeq in Hq. cbn [Qnum Qden inject_Z] in Hq. lia.
Qed.

End Chat.

Section Witnesses.
Import Conversation.

Lemma answer_is_recorded_and_published_witness :
  (_handle_transcription answer_backend hello (payload_of hello) core).1 = Ok () ∧
  chat_history (_handle_transcription answer_backend hello (payload_of hello) core).2 =
    chat_history core ++ turns_of hello answer_result ∧
  event_bus (_handle_transcription answer_backend hello (payload_of hello) core).2 =
    bus_after_answer (event_bus core) (agent_answer answer_result).
Proof.
  apply (answer_is_recorded_and_published answer_backend hello (payload_of hello) core
           answer_result).
  reflexivity.
Defined.

Lemma history_only_grows_witness :
  ∃ core',
    _event_handler_loop answer_backend 4 core_with_hello = Some (Waiting, core') ∧
    chat_history core_with_hello `prefix_of` chat_history core'.
Proof.
  destruct (loop_drains answer_backend (fun _ _ => ltac:(discriminate)) 4 core_with_hello)
    as (core' & Hloop & _).
  { unfold pending, core_with_hello. simpl. lia. }
  exists core'. split; [done|].
  exact (proj1 (history_only_grows answer_backend 4 core_with_hello Waiting core' Hloop)).
Defined.

Lemma utterance_is_logged_witness :
  (logged_duration WakeWordVAD.Session.config
     (WakeWordVAD.tobytes WakeWordVAD.Session.tone_samples) ==
   inject_Z (Z.of_nat (length WakeWordVAD.Session.tone_samples)) /
   inject_Z (Z.of_N (WakeWordVAD.rate WakeWordVAD.Session.config)))%Q.
Proof.
  apply (proj2 (utterance_is_logged answer_backend WakeWordVAD.Session.config
                  WakeWordVAD.Session.tone_samples core)).
  discriminate.
Defined.

End Witnesses.

End AgentCoreHistory.

(** ** Shutdown ([AgentCore.stop]) *)

Module AgentCoreLifecycle.
Import AgentCore AgentCoreFacts.
Local Open Scope nat_scope.

(** The supervisor while [stop] runs: the positions of the modules whose
    [stop()] was invoked and the tasks on which [cancel()] was called, in
    order. *)
Record Shutdown := {
  core : t;
  stop_invoked : list nat;
  cancelled : list Task
}.

Lemma start_modules_modules (rest : list ModuleBase) : ∀ (index : nat) (c : t),
  modules (start_modules index rest c).2 = modules c.
Proof.
  induction rest as [|module rest IH]; intros index c; [done|].
  cbn [start_modules]. run_monad. destruct (module_start module); [|done].
  match goal with
  | |- context [start_modules (S index) rest ?c1] => by rewrite (IH (S index) c1)
  end.
Qed.

Section Stop.

(** The outcome of [await m.stop()] for the module at each position. *)
Variable module_stop : nat → Result unit.

(** The [for m in self.modules:] loop of [stop], [index] being the
    position of the first module of [rest]. *)
Fixpoint stop_modules (index : nat) (rest : list ModuleBase) (s : Shutdown)
  : Result unit * Shutdown :=
  match rest with
  | [] => (Ok (), s)
  | _ :: rest' =>
      let s' := {| core := core s; stop_invoked := stop_invoked s ++ [index];
                   cancelled := cancelled s |} in
      match module_stop index with
      | Ok _ => stop_modules (S index) rest' s'
      | Raise e => (Raise e, s')
      end
  end.

(** The [for t in self.tasks: t.cancel()] loop. *)
Definition cancel_tasks (s : Shutdown) : Shutdown :=
  {| core := core s; stop_invoked := stop_invoked s;
     cancelled := cancelled s ++ tasks (core s) |}.

(** [AgentCore.stop] *)
Definition stop (c : t) : Result unit * Shutdown :=
  let c1 := (print "Stopping agent core..." [] c).2 in
  match stop_modules 0 (modules c1) {| core := c1; stop_invoked := []; cancelled := [] |} with
  | (Ok _, s) => (Ok (), cancel_tasks s)
  | (Raise e, s) => (Raise e, s)
  end.

Lemma stop_modules_ok (rest : list ModuleBase) : ∀ (index : nat) (s : Shutdown),
  (∀ i, index ≤ i < index + length rest → module_stop i = Ok ()) →
  stop_modules index rest s =
  (Ok (), {| core := core s; stop_invoked := stop_invoked s ++ seq index (length rest);
             cancelled := cancelled s |}).
Proof.
  induction rest as [|module rest IH]; intros index s Hok.
  - simpl. rewrite app_nil_r. by destruct s.
  - cbn [stop_modules]. rewrite (Hok index) by (simpl; lia).
    rewrite IH by (intros i Hi; apply Hok; simpl; lia).
    cbn [core stop_invoked cancelled length seq]. by rewrite <- app_assoc.
Qed.

Lemma stop_modules_raise (rest : list ModuleBase) : ∀ (index k : nat) (s : Shutdown) (e : Exn),
  k < length rest →
  (∀ i, index ≤ i < index + k → module_stop i = Ok ()) →
  module_stop (index + k) = Raise e →
  stop_modules index rest s =
  (Raise e, {| core := core s; stop_invoked := stop_invoked s ++ seq index (S k);
               cancelled := cancelled s |}).
Proof.
  induction rest as [|module rest IH]; intros index k s e Hk Hok Hraise; [simpl in Hk; lia|].
  destruct k as [|k].
  - cbn [stop_modules]. rewrite Nat.add_0_r in Hraise. by rewrite Hraise.
  - cbn [stop_modules]. rewrite (Hok index) by lia.
    rewrite (IH (S index) k _ e).
    + cbn [core stop_invoked cancelled seq]. by rewrite <- app_assoc.
    + simpl in Hk. lia.
    + intros i Hi. apply Hok. lia.
    + by replace (S index + k) with (index + S k) by lia.
Qed.

(** When the [stop()] of the module at position [k] raises, the earlier
    ones having returned: [stop] raises the same exception; the later
    modules are not stopped; and no task is cancelled, neither the
    modules' loops nor the dispatch loop. *)
Theorem stop_aborts_on_failure (c : t) (k : nat) (e : Exn) :
  k < length (modules c) →
  (∀ i, i < k → module_stop i = Ok ()) →
  module_stop k = Raise e →
  (stop c).1 = Raise e ∧
  stop_invoked (stop c).2 = seq 0 (S k) ∧
  cancelled (stop c).2 = [] ∧
  (∀ i, k < i → i ∉ stop_invoked (stop c).2).
Proof.
  intros Hk Hok Hraise. unfold stop. cbn [print snd modules].
  rewrite (stop_modules_raise _ 0 k _ e); try done.
  - cbn [fst snd stop_invoked cancelled app]. repeat split.
    intros i Hi Hin%elem_of_seq. lia.
  - intros i Hi. apply Hok. lia.
Qed.

(** When every module starts and every module stops, [start] followed
    by [stop] has stopped each module once, in order, and cancelled every
    task [start] scheduled: the loop of each module, in order, and the
    dispatch loop last. *)
Theorem stop_cancels_what_start_scheduled (c : t) :
  Forall (fun module => module_start module = Ok ()) (modules c) →
  (∀ i, i < length (modules c) → module_stop i = Ok ()) →
  (start c).1 = Ok () ∧
  (stop (start c).2).1 = Ok () ∧
  stop_invoked (stop (start c).2).2 = seq 0 (length (modules c)) ∧
  tasks (start c).2 =
    tasks c ++ (LoopTask <$> seq 0 (length (modules c))) ++ [EventHandlerTask] ∧
  cancelled (stop (start c).2).2 = tasks (start c).2.
Proof.
  intros Hstart Hstop.
  assert ((start c).1 = Ok () ∧
          tasks (start c).2 =
            tasks c ++ (LoopTask <$> seq 0 (length (modules c))) ++ [EventHandlerTask] ∧
          modules (start c).2 = modules c) as (Hs & Ht & Hm).
  { unfold start. run_monad. cbn [modules].
    match goal with
    | |- context [start_modules 0 _ ?c1] =>
        destruct (start_modules_ok (modules c) 0 c1 Hstart) as (H1 & _ & H3);
        pose proof (start_modules_modules (modules c) 0 c1) as H4;
        destruct (start_modules 0 (modules c) c1) as [[[]|e'] c2]
    end; cbn [fst snd tasks modules] in *; [|done].
    rewrite H3. by rewrite <- app_assoc. }
  split; [done|]. unfold stop. cbn [print snd modules]. rewrite Hm.
  rewrite stop_modules_ok by (intros i Hi; apply Hstop; lia).
  cbn [fst snd stop_invoked cancelled app cancel_tasks core]. by repeat split.
Qed.

End Stop.

(** Three modules that start; the second cannot be stopped. *)
Definition three_modules : list ModuleBase :=
  [ {| module_start := Ok () |}; {| module_start := Ok () |}; {| module_start := Ok () |} ].

Definition second_fails (index : nat) : Result unit :=
  if index =? 1 then Raise (Exception "OSError" (lit "Stream closed")) else Ok ().

Lemma stop_aborts_on_failure_witness :
  (stop second_fails (init three_modules (lit "agent") (lit "User"))).1 =
    Raise (Exception "OSError" (lit "Stream closed")) ∧
  stop_invoked (stop second_fails (init three_modules (lit "agent") (lit "User"))).2 = [0; 1] ∧
  cancelled (stop second_fails (init three_modules (lit "agent") (lit "User"))).2 = [].
Proof.
  destruct (stop_aborts_on_failure second_fails
              (init three_modules (lit "agent") (lit "User")) 1
              (Exception "OSError" (lit "Stream closed")))
    as (H1 & H2 & H3 & _).
  - simpl. lia.
  - intros [|i] Hi; [reflexivity|lia].
  - reflexivity.
  - exact (conj H1 (conj H2 H3)).
Defined.

Lemma stop_cancels_what_start_scheduled_witness :
  cancelled (stop (fun _ => Ok ())
               (start (init three_modules (lit "agent") (lit "User"))).2).2 =
  tasks (start (init three_modules (lit "agent") (lit "User"))).2.
Proof.
  apply (stop_cancels_what_start_scheduled (fun _ => Ok ())
           (init three_modules (lit "agent") (lit "User"))).
  - repeat constructor.
  - reflexivity.
Defined.

End AgentCoreLifecycle.

(** ** The gateway ([src/core/backend_connector.py]) *)

Module BackendConnector.

(** [str(n)] for an integer. *)
Definition str_of_Z (z : Z) : pystr := lit (NilZero.string_of_int (Z.to_int z)).

(** The character set of [rstrip("/")] and [lstrip('/')]. *)
Definition is_slash (c : N) : bool := (c =? 47)%N.

(** [s.rstrip(chars)] *)
Definition rstrip {A} (drop : A → bool) (s : list A) : list A :=
  rev (lstrip drop (rev s)).

(** The connector: [account] is [None] or the wallet, of which the code
    uses the address. *)
Record t := {
  base_url : pystr;
  account : option pystr;
  default_timeout : Q
}.

(** What goes out through [client.request]: the arguments, the timeout
    of the client ([None] for the plain client of [send_request]) and
    whether the client is the paying one. *)
Record Request := {
  method : pystr;
  url : pystr;
  json_body : pyval;
  timeout : option Q;
  x402 : bool
}.

(** What the code reads of an [httpx.Response]: [status_code], the
    outcome of [.json()], [.text], and the value of the
    [X-Payment-Response] header when the response has one. *)
Record Response := {
  status_code : Z;
  json : Result pyval;
  text : pystr;
  payment_header : option pystr
}.

Section Network.

(** [Account.from_mnemonic]: the address of the wallet, or an exception
    on a phrase it rejects. *)
Variable from_mnemonic : pystr → Result pystr.

(** The network: the outcome of [await client.request(...)]. *)
Variable http : Request → Result Response.

(** [decode_x_payment_response] *)
Variable decode_x_payment_response : pystr → Result pyval.

(** [BackendConnector.__init__]; [if x402_mnemonic:] is a truth test. *)
Definition init (base_url : pystr) (x402_mnemonic : option pystr) (default_timeout : Q)
  : Result t :=
  match x402_mnemonic with
  | Some (c :: phrase) =>
      match from_mnemonic (c :: phrase) with
      | Ok address =>
          Ok {| base_url := rstrip is_slash base_url; account := Some address;
                default_timeout := default_timeout |}
      | Raise e => Raise e
      end
  | _ =>
      Ok {| base_url := rstrip is_slash base_url; account := None;
            default_timeout := default_timeout |}
  end.

(** [f"{self.base_url}/{path.lstrip('/')}"] *)
Definition url_of (conn : t) (path : pystr) : pystr :=
  base_url conn ++ lit "/" ++ lstrip is_slash path.

(** The functions below return their outcome together with the requests
    they have sent and the lines they have printed. *)
Record Effects := {
  requests : list Request;
  output : list AgentCore.Line
}.

Definition no_effects : Effects := {| requests := []; output := [] |}.

(** [send_request] *)
Definition send_request (conn : t) (path method : pystr) (json_body : pyval)
  : Result Response * Effects :=
  let request := {| method := method; url := url_of conn path; json_body := json_body;
                    timeout := None; x402 := false |} in
  (http request, {| requests := [request]; output := [] |}).

(** [send_x402_request]: a pair of the response and the decoded payment
    header, [None] without one. *)
Definition send_x402_request (conn : t) (path method : pystr) (json_body : pyval)
    (timeout : option Q) : Result (Response * pyval) * Effects :=
  match account conn with
  | None =>
      (Raise (Exception "ValueError"
                (lit "x402 mnemonic (seed phrase) is required for x402 requests.")),
       no_effects)
  | Some _ =>
      let request_timeout := default (default_timeout conn) timeout in
      let request := {| method := method; url := url_of conn path; json_body := json_body;
                        timeout := Some request_timeout; x402 := true |} in
      (match http request with
       | Raise e => Raise e
       | Ok response =>
           match payment_header response with
           | Some header =>
               match decode_x_payment_response header with
               | Ok payment_info => Ok (response, payment_info)
               | Raise e => Raise e
               end
           | None => Ok (response, VNone)
           end
       end,
       {| requests := [request]; output := [] |})
  end.

(** The dict [chat] posts (lines 116-125). *)
Definition chat_input (sender_id : pystr) (message : pyval) (sender_name agent_name : pystr)
    (chat_history : option (list pyval)) (currency : pystr) : pyval :=
  VDict [ (lit "message", message);
          (lit "senderName", VStr sender_name);
          (lit "senderId", VStr sender_id);
          (lit "chatHistory", VList (default [] chat_history));
          (lit "agentName", VStr agent_name);
          (lit "chatId", VStr (sender_id ++ lit "-" ++ agent_name));
          (lit "isGroupChat", VBool false);
          (lit "currency", VStr currency) ].

(** Lines 134-146: what becomes of the response.  With status 200 a
    failure of [.json()] is caught by [except Exception] and printed;
    with another status it is caught by a bare [except]. *)
Definition response_data (response : Response) : Result pyval * list AgentCore.Line :=
  if (status_code response =? 200)%Z then
    match json response with
    | Ok data => (Ok data, [])
    | Raise (Exception _ msg) =>
        (Ok (VDict [(lit "error", VStr (lit "Failed to parse response: " ++ msg))]),
         [ {| AgentCore.line_text := "[CHAT] Failed to parse response JSON:";
              AgentCore.line_args := [VStr msg] |} ])
    | Raise CancelledError => (Raise CancelledError, [])
    end
  else
    match json response with
    | Ok error_data => (Ok error_data, [])
    | Raise _ =>
        (Ok (VDict [(lit "error",
                     VStr (lit "HTTP " ++ str_of_Z (status_code response) ++ lit ": " ++
                           text response))]),
         [])
    end.

(** [BackendConnector.chat] *)
Definition chat (conn : t) (message : pyval) (sender_name agent_name : pystr)
    (chat_history : option (list pyval)) (currency : pystr) (timeout : Q)
  : Result pyval * Effects :=
  match account conn with
  | None =>
      (Raise (Exception "ValueError"
                (lit "x402 mnemonic (seed phrase) is required for chat requests.")),
       no_effects)
  | Some sender_id =>
      let body := chat_input sender_id message sender_name agent_name chat_history currency in
      match send_x402_request conn (lit "/chat") (lit "POST") body (Some timeout) with
      | (Raise e, effects) => (Raise e, effects)
      | (Ok (response, payment_info), effects) =>
          let (data, lines) := response_data response in
          (match data with
           | Ok data => Ok (VDict [ (lit "paymentResponse", payment_info);
                                    (lit "response", data) ])
           | Raise e => Raise e
           end,
           {| requests := requests effects; output := output effects ++ lines |})
      end
  end.

End Network.

(** The gateway as the supervisor calls it (lines 50-55 of
    [agent_core.py]): the four keyword arguments, the defaults for
    [currency] and [timeout]; the network may answer differently from one
    call to the next. *)
Definition backend_of (conn : t)
    (http : list (AgentCore.ChatCall * Result pyval) → Request → Result Response)
    (decode_x_payment_response : pystr → Result pyval)
  : list (AgentCore.ChatCall * Result pyval) → AgentCore.ChatCall → Result pyval :=
  fun calls call =>
    (chat (http calls) decode_x_payment_response conn
          (AgentCore.message call) (AgentCore.call_sender_name call)
          (AgentCore.call_agent_name call) (Some (AgentCore.call_chat_history call))
          (lit "USDC") 120).1.

End BackendConnector.

(** ** Facts about the gateway *)

Module BackendConnectorFacts.
Import BackendConnector.
Local Open Scope nat_scope.

(** *** URLs *)

Lemma lstrip_replicate {A} (drop : A → bool) (c : A) (n : nat) (s : list A) :
  drop c = true → lstrip drop (replicate n c ++ s) = lstrip drop s.
Proof. intros Hc. induction n as [|n IH]; [done|]. simpl. by rewrite Hc. Qed.

Lemma rstrip_replicate {A} (drop : A → bool) (c : A) (n : nat) (s : list A) :
  drop c = true → rstrip drop (s ++ replicate n c) = rstrip drop s.
Proof.
  intros Hc. unfold rstrip. rewrite rev_app_distr.
  replace (rev (replicate n c)) with (replicate n c).
  - by rewrite lstrip_replicate.
  - induction n as [|n IH]; [done|]. simpl. rewrite <- IH.
    clear IH. induction n as [|n IH]; [done|]. simpl. by rewrite <- IH.
Qed.

Lemma lstrip_head {A} (drop : A → bool) (s : list A) (c : A) :
  head (lstrip drop s) = Some c → drop c = false.
Proof.
  induction s as [|x s IH]; [done|]. simpl.
  destruct (drop x) eqn:Hx; [done|]. by intros [= <-].
Qed.

Lemma rstrip_last {A} (drop : A → bool) (s : list A) (c : A) :
  last (rstrip drop s) = Some c → drop c = false.
Proof.
  unfold rstrip. destruct (lstrip drop (rev s)) as [|x l] eqn:E; [done|].
  simpl. rewrite last_snoc. intros [= <-]. apply (lstrip_head drop (rev s)). by rewrite E.
Qed.

Section Network.
Variable from_mnemonic : pystr → Result pystr.
Variable http : Request → Result Response.
Variable decode_x_payment_response : pystr → Result pyval.

(** The URL of a request does not depend on how many slashes end the
    base URL the connector was built with or start the path: exactly one
    slash joins a base that does not end with one and a path that does
    not start with one. *)
Theorem url_has_one_slash (base_url path : pystr) (mnemonic : option pystr) (seconds : Q)
    (n m : nat) (conn conn' : t) :
  init from_mnemonic base_url mnemonic seconds = Ok conn →
  init from_mnemonic (base_url ++ replicate n 47%N) mnemonic seconds = Ok conn' →
  url_of conn' (replicate m 47%N ++ path) = url_of conn path ∧
  url_of conn path = rstrip is_slash base_url ++ lit "/" ++ lstrip is_slash path ∧
  last (rstrip is_slash base_url) ≠ Some 47%N ∧
  head (lstrip is_slash path) ≠ Some 47%N.
Proof.
  intros Hconn Hconn'.
  assert (BackendConnector.base_url conn = rstrip is_slash base_url) as Hb.
  { revert Hconn. unfold init. destruct mnemonic as [[|c p]|]; try by intros [= <-].
    destruct (from_mnemonic (c :: p)); by intros [= <-]. }
  assert (BackendConnector.base_url conn' = rstrip is_slash base_url) as Hb'.
  { revert Hconn'. unfold init. rewrite rstrip_replicate by done.
    destruct mnemonic as [[|c p]|]; try by intros [= <-].
    destruct (from_mnemonic (c :: p)); by intros [= <-]. }
  unfold url_of. rewrite Hb, Hb', lstrip_replicate by done.
  split; [done|]. split; [done|]. split.
  - intros Hl%rstrip_last. done.
  - intros Hh%lstrip_head. done.
Qed.

(** *** [chat] *)

(** The payment information [send_x402_request] returns with a
    response. *)
Definition payment_of (response : Response) : Result pyval :=
  match payment_header response with
  | Some header => decode_x_payment_response header
  | None => Ok VNone
  end.

(** The request [chat] sends. *)
Definition chat_request (conn : t) (sender_id : pystr) (message : pyval)
    (sender_name agent_name : pystr) (chat_history : option (list pyval))
    (currency : pystr) (seconds : Q) : Request :=
  {| method := lit "POST";
     url := base_url conn ++ lit "/chat";
     json_body := chat_input sender_id message sender_name agent_name chat_history currency;
     timeout := Some seconds;
     x402 := true |}.

Lemma chat_sends (conn : t) (sender_id : pystr) (message : pyval)
    (sender_name agent_name : pystr) (chat_history : option (list pyval))
    (currency : pystr) (seconds : Q) :
  account conn = Some sender_id →
  chat http decode_x_payment_response conn message sender_name agent_name chat_history
       currency seconds =
  let request := chat_request conn sender_id message sender_name agent_name chat_history
                   currency seconds in
  match http request with
  | Raise e => (Raise e, {| requests := [request]; output := [] |})
  | Ok response =>
      match payment_of response with
      | Raise e => (Raise e, {| requests := [request]; output := [] |})
      | Ok payment_info =>
          (match (response_data response).1 with
           | Ok data => Ok (VDict [ (lit "paymentResponse", payment_info);
                                    (lit "response", data) ])
           | Raise e => Raise e
           end,
           {| requests := [request]; output := (response_data response).2 |})
      end
  end.
Proof.
  intros Ha. unfold chat, send_x402_request, payment_of. rewrite Ha.
  cbn zeta. change (url_of conn (lit "/chat")) with (base_url conn ++ lit "/chat").
  fold (chat_request conn sender_id message sender_name agent_name chat_history
          currency seconds).
  destruct (http _) as [response|e]; [|done].
  destruct (payment_header response) as [header|].
  - destruct (decode_x_payment_response header); [|done].
    by destruct (response_data response).
  - by destruct (response_data response).
Qed.

(** When the body of the response parses as JSON, it is the response
    [chat] returns, whatever the status code: the status is looked at
    only to word the error when the body does not parse.  Exactly one
    request is sent, a POST to [/chat] through the paying client, with
    the timeout given to [chat] and not the connector's default. *)
Theorem chat_returns_the_body (conn : t) (sender_id : pystr) (message : pyval)
    (sender_name agent_name : pystr) (chat_history : option (list pyval))
    (currency : pystr) (seconds : Q) (response : Response) (data payment_info : pyval) :
  account conn = Some sender_id →
  http (chat_request conn sender_id message sender_name agent_name chat_history
          currency seconds) = Ok response →
  payment_of response = Ok payment_info →
  json response = Ok data →
  chat http decode_x_payment_response conn message sender_name agent_name chat_history
       currency seconds =
  (Ok (VDict [ (lit "paymentResponse", payment_info); (lit "response", data) ]),
   {| requests := [chat_request conn sender_id message sender_name agent_name chat_history
                     currency seconds];
      output := [] |}).
Proof.
  intros Ha Hr Hp Hj. rewrite (chat_sends _ sender_id) by done. cbn zeta.
  rewrite Hr, Hp. unfold response_data. rewrite Hj.
  by destruct (status_code response =? 200)%Z.
Qed.

(** The text of the error [chat] makes up for a body that does not
    parse. *)
Definition parse_error (response : Response) (msg : pystr) : pystr :=
  if (status_code response =? 200)%Z
  then lit "Failed to parse response: " ++ msg
  else lit "HTTP " ++ str_of_Z (status_code response) ++ lit ": " ++ text response.

(** When the body of the response does not parse as JSON, [chat] does
    not raise: it returns a result whose response is a dict with the one
    key ["error"], which the supervisor reads as an error response and in
    which it finds no answer. *)
Theorem chat_reports_unparsed_body (conn : t) (sender_id : pystr) (message : pyval)
    (sender_name agent_name : pystr) (chat_history : option (list pyval))
    (currency : pystr) (seconds : Q) (response : Response) (payment_info : pyval)
    (cls : string) (msg : pystr) :
  account conn = Some sender_id →
  http (chat_request conn sender_id message sender_name agent_name chat_history
          currency seconds) = Ok response →
  payment_of response = Ok payment_info →
  json response = Raise (Exception cls msg) →
  (chat http decode_x_payment_response conn message sender_name agent_name chat_history
        currency seconds).1 =
    Ok (VDict [ (lit "paymentResponse", payment_info);
                (lit "response", VDict [(lit "error", VStr (parse_error response msg))]) ]) ∧
  AgentCore.error_response
    (VDict [ (lit "paymentResponse", payment_info);
             (lit "response", VDict [(lit "error", VStr (parse_error response msg))]) ]) = true ∧
  AgentCoreHistory.agent_answer
    (VDict [ (lit "paymentResponse", payment_info);
             (lit "response", VDict [(lit "error", VStr (parse_error response msg))]) ]) = None.
Proof.
  intros Ha Hr Hp Hj. rewrite (chat_sends _ sender_id) by done. cbn zeta.
  rewrite Hr, Hp. unfold response_data, parse_error. rewrite Hj.
  split; [by destruct (status_code response =? 200)%Z|]. split; reflexivity.
Qed.

End Network.

(** *** A connector without a wallet *)

Section NoAccount.
Variable http : list (AgentCore.ChatCall * Result pyval) → Request → Result Response.
Variable decode_x_payment_response : pystr → Result pyval.

Lemma backend_of_no_account (conn : t) calls call :
  account conn = None →
  backend_of conn http decode_x_payment_response calls call =
  Raise (Exception "ValueError"
           (lit "x402 mnemonic (seed phrase) is required for chat requests.")).
Proof. intros Ha. unfold backend_of, chat. by rewrite Ha. Qed.

(** With a connector built without a mnemonic, nothing is ever sent to
    the network, and the supervisor's handling of a transcription leaves
    the chat history and the bus as they were: no turn is recorded and
    no [agent_response] is published; on a [str] it returns normally,
    having printed the error when the text is not blank. *)
Theorem no_account_no_conversation (conn : t) (text payload : pyval) (core : AgentCore.t) :
  account conn = None →
  (∀ calls message sender_name agent_name chat_history currency seconds,
     chat (http calls) decode_x_payment_response conn message sender_name agent_name
          chat_history currency seconds =
     (Raise (Exception "ValueError"
               (lit "x402 mnemonic (seed phrase) is required for chat requests.")),
      no_effects)) ∧
  AgentCore.chat_history
    (AgentCore._handle_transcription (backend_of conn http decode_x_payment_response)
       text payload core).2 = AgentCore.chat_history core ∧
  AgentCore.event_bus
    (AgentCore._handle_transcription (backend_of conn http decode_x_payment_response)
       text payload core).2 = AgentCore.event_bus core ∧
  (∀ s, text = VStr s →
     (AgentCore._handle_transcription (backend_of conn http decode_x_payment_response)
        text payload core).1 = Ok ()).
Proof.
  intros Ha. split.
  { intros. unfold chat. by rewrite Ha. }
  destruct (AgentCoreFacts.guard_cases text) as [Hguard|(stripped & Ht & Hs & Hst)].
  - rewrite AgentCoreFacts.handle_guarded by done. split; [done|]. split; [done|].
    intros s ->. unfold AgentCore._handle_transcription.
    destruct Hguard as [Hf|[[e He]|(stripped & Hs & Hst)]].
    + by rewrite Hf.
    + done.
    + destruct (truthy (VStr s)); [|done]. cbn [negb].
      unfold mbind, AgentCore.M_bind, AgentCore.bind, AgentCore.lift.
      rewrite Hs. cbn beta iota. by rewrite Hst.
  - pose proof (backend_of_no_account conn (AgentCore.backend_calls core)
                  (AgentCore.call_of core text) Ha) as Hraise.
    destruct (AgentCoreHistory.handle_raised _ text stripped payload core _ Ht Hs Hst Hraise)
      as (Hh & Hb & _).
    destruct (AgentCoreFacts.handle_gateway_exception _ text stripped payload core _ _
                Ht Hs Hst Hraise) as [Hok _].
    split; [done|]. split; [done|]. by intros s _.
Qed.

End NoAccount.

Section Witnesses.

Definition wallet (phrase : pystr) : Result pystr := Ok (lit "0xA11CE").

Definition gateway : t :=
  {| base_url := lit "https://aifrens.lol/paid"; account := Some (lit "0xA11CE");
     default_timeout := 600 |}.

Definition bad_gateway_response : Response :=
  {| status_code := 502; json := Raise (Exception "JSONDecodeError" (lit "Expecting value"));
     text := lit "Bad Gateway"; payment_header := None |}.

Definition answer_response : Response :=
  {| status_code := 200; json := Ok (VDict [(lit "response", VStr (lit "hi"))]);
     text := lit "{}"; payment_header := None |}.

Definition no_decode (header : pystr) : Result pyval := Ok VNone.

Lemma url_has_one_slash_witness :
  url_of {| base_url := lit "https://aifrens.lol/paid"; account := None;
            default_timeout := 600 |} (replicate 1 47%N ++ lit "chat") =
  url_of {| base_url := lit "https://aifrens.lol/paid"; account := None;
            default_timeout := 600 |} (lit "chat").
Proof.
  apply (url_has_one_slash wallet (lit "https://aifrens.lol/paid") (lit "chat") None 600%Q
           2 1); reflexivity.
Defined.

Lemma chat_returns_the_body_witness :
  (chat (fun _ => Ok answer_response) no_decode gateway (VStr (lit "hello")) (lit "User")
        (lit "agent") None (lit "USDC") 120).1 =
  Ok (VDict [ (lit "paymentResponse", VNone);
              (lit "response", VDict [(lit "response", VStr (lit "hi"))]) ]).
Proof.
  by rewrite (chat_returns_the_body (fun _ => Ok answer_response) no_decode gateway
                (lit "0xA11CE") (VStr (lit "hello")) (lit "User") (lit "agent") None
                (lit "USDC") 120 answer_response
                (VDict [(lit "response", VStr (lit "hi"))]) VNone
                eq_refl eq_refl eq_refl eq_refl).
Defined.

Lemma chat_reports_unparsed_body_witness :
  (chat (fun _ => Ok bad_gateway_response) no_decode gateway (VStr (lit "hello")) (lit "User")
        (lit "agent") None (lit "USDC") 120).1 =
  Ok (VDict [ (lit "paymentResponse", VNone);
              (lit "response",
               VDict [(lit "error",
                       VStr (parse_error bad_gateway_response (lit "Expecting value")))]) ]).
Proof.
  exact (proj1 (chat_reports_unparsed_body (fun _ => Ok bad_gateway_response) no_decode gateway
                  (lit "0xA11CE") (VStr (lit "hello")) (lit "User") (lit "agent") None
                  (lit "USDC") 120 bad_gateway_response VNone "JSONDecodeError"
                  (lit "Expecting value") eq_refl eq_refl eq_refl eq_refl)).
Defined.

Lemma no_account_no_conversation_witness :
  AgentCore.chat_history
    (AgentCore._handle_transcription
       (backend_of {| base_url := lit "https://aifrens.lol/paid"; account := None;
                      default_timeout := 600 |}
                   (fun _ _ => Ok answer_response) no_decode)
       AgentCore.Conversation.hello
       (AgentCore.Conversation.payload_of AgentCore.Conversation.hello)
       AgentCore.Conversation.core).2 =
  AgentCore.chat_history AgentCore.Conversation.core.
Proof.
  exact (proj1 (proj2 (no_account_no_conversation (fun _ _ => Ok answer_response) no_decode
                         {| base_url := lit "https://aifrens.lol/paid"; account := None;
                            default_timeout := 600 |}
                         AgentCore.Conversation.hello
                         (AgentCore.Conversation.payload_of AgentCore.Conversation.hello)
                         AgentCore.Conversation.core eq_refl))).
Defined.

End Witnesses.

End BackendConnectorFacts.

(** ** Speech to text ([src/modules/ai/openai_whisper_stt.py]) *)

Module OpenAIWhisperSTT.

#[global] Instance Result_ret : MRet Result := @Ok.
#[global] Instance Result_bind : MBind Result :=
  fun A B k r => match r with Ok a => k a | Raise e => Raise e end.

(** *** [struct.pack] with the format ['<4sI4s4sIHHIIHH4sI'] *)

(** [size] bytes of [z], least significant first. *)
Fixpoint le_bytes (size : nat) (z : Z) : list byte :=
  match size with
  | O => []
  | S size' => WakeWordVAD.byte_of_Z z :: le_bytes size' (z / 256)
  end.

Definition struct_error (msg : string) : Exn := Exception "struct.error" (lit msg).

(** The field [I] of a little-endian format: four bytes, and
    [struct.error] outside [0, 2^32) (the texts are those of CPython 3.11
    on a 64-bit platform, where the value goes through an unsigned
    long). *)
Definition pack_I (z : Z) : Result (list byte) :=
  if (z <? 0) || (2 ^ 64 <=? z) then Raise (struct_error "argument out of range")
  else if 2 ^ 32 <=? z
       then Raise (struct_error "'I' format requires 0 <= number <= 4294967295")
       else Ok (le_bytes 4 z).

(** The field [H]: two bytes, and [struct.error] outside [0, 2^16). *)
Definition pack_H (z : Z) : Result (list byte) :=
  if (z <? - 2 ^ 63) || (2 ^ 63 <=? z) then Raise (struct_error "argument out of range")
  else if (z <? 0) || (2 ^ 16 <=? z)
       then Raise (struct_error "ushort format requires 0 <= number <= 65535")
       else Ok (le_bytes 2 z).

(** A [bytes] literal of ASCII characters. *)
Definition bytes_lit (s : string) : list byte := list_byte_of_string s.

(** [_pcm_to_wav_bytesio]: the content of the [BytesIO] returned, which
    is positioned at its start.  The arguments have the types of the
    annotations. *)
Definition _pcm_to_wav_bytesio (pcm_data : list byte) (sample_rate sample_width channels : Z)
  : Result (list byte) :=
  let byte_rate := sample_rate * sample_width * channels in
  let block_align := sample_width * channels in
  let data_size := Z.of_nat (length pcm_data) in
  let file_size := 36 + data_size in
  chunk_size ← pack_I file_size;
  subchunk1_size ← pack_I 16;
  audio_format ← pack_H 1;
  num_channels ← pack_H channels;
  rate ← pack_I sample_rate;
  bytes_per_second ← pack_I byte_rate;
  align ← pack_H block_align;
  bits_per_sample ← pack_H (sample_width * 8);
  subchunk2_size ← pack_I data_size;
  let wav_header :=
    bytes_lit "RIFF" ++ chunk_size ++ bytes_lit "WAVE" ++ bytes_lit "fmt " ++
    subchunk1_size ++ audio_format ++ num_channels ++ rate ++ bytes_per_second ++
    align ++ bits_per_sample ++ bytes_lit "data" ++ subchunk2_size in
  Ok (wav_header ++ pcm_data).

(** *** Reading a WAV file back *)

#[global] Instance byte_eq_decision : EqDecision byte := Byte.byte_eq_dec.

Definition le_value (bytes : list byte) : Z :=
  foldr (fun b acc => Z.of_N (Byte.to_N b) + 256 * acc) 0 bytes.

Record Header := {
  chunk_size : Z;
  subchunk1_size : Z;
  audio_format : Z;
  num_channels : Z;
  sample_rate : Z;
  byte_rate : Z;
  block_align : Z;
  bits_per_sample : Z;
  subchunk2_size : Z
}.

Definition field (offset size : nat) (wav : list byte) : list byte :=
  take size (drop offset wav).

(** The canonical 44-byte header and the data after it. *)
Definition parse_wav (wav : list byte) : option (Header * list byte) :=
  if bool_decide (field 0 4 wav = bytes_lit "RIFF") &&
     bool_decide (field 8 4 wav = bytes_lit "WAVE") &&
     bool_decide (field 12 4 wav = bytes_lit "fmt ") &&
     bool_decide (field 36 4 wav = bytes_lit "data")
  then Some ({| chunk_size := le_value (field 4 4 wav);
                subchunk1_size := le_value (field 16 4 wav);
                audio_format := le_value (field 20 2 wav);
                num_channels := le_value (field 22 2 wav);
                sample_rate := le_value (field 24 4 wav);
                byte_rate := le_value (field 28 4 wav);
                block_align := le_value (field 32 2 wav);
                bits_per_sample := le_value (field 34 2 wav);
                subchunk2_size := le_value (field 40 4 wav) |},
             drop 44 wav)
  else None.

(** Every field of the header fits its width. *)
Definition header_fits (data_size sample_rate sample_width channels : Z) : bool :=
  (36 + data_size <? 2 ^ 32) &&
  (0 <=? channels) && (channels <? 2 ^ 16) &&
  (0 <=? sample_rate) && (sample_rate <? 2 ^ 32) &&
  (0 <=? sample_rate * sample_width * channels) &&
  (sample_rate * sample_width * channels <? 2 ^ 32) &&
  (0 <=? sample_width * channels) && (sample_width * channels <? 2 ^ 16) &&
  (0 <=? sample_width * 8) && (sample_width * 8 <? 2 ^ 16).

(** *** The module *)

(** The module as its loop sees it: the bus, what was printed, the WAV
    files sent to the transcription service, and whether the client
    exists ([start()] creates it, [stop()] removes it). *)
Record t := {
  event_bus : EventBus.t;
  stdout : list AgentCore.Line;
  requests : list (list byte);
  openai_client : bool
}.

Definition print (text : string) (args : list pyval) (st : t) : t :=
  {| event_bus := event_bus st;
     stdout := stdout st ++ [ {| AgentCore.line_text := text; AgentCore.line_args := args |} ];
     requests := requests st; openai_client := openai_client st |}.

Definition emit (event_type : pystr) (payload : pyval) (st : t) : t :=
  {| event_bus := EventBus.emit (event_bus st) event_type payload;
     stdout := stdout st; requests := requests st; openai_client := openai_client st |}.

Definition sent (wav : list byte) (st : t) : t :=
  {| event_bus := event_bus st; stdout := stdout st;
     requests := requests st ++ [wav]; openai_client := openai_client st |}.

(** An integer argument of [struct.pack] and of the arithmetic before
    it: an [int] or a [bool]. *)
Definition as_int (v : pyval) : option Z :=
  match v with
  | VInt z => Some z
  | VBool b => Some (Z.b2z b)
  | _ => None
  end.

Section Service.

(** The transcription service: the outcome of
    [await self.openai_client.audio.transcriptions.create(...)] for a WAV
    file, given the files sent before. *)
Variable whisper : list (list byte) → list byte → Result pyval.

(** On arguments that are not a [bytes] and three integers, the
    conversion raises inside the [try] of [_transcribe_audio]: a
    [TypeError] from the arithmetic, from [len] or from
    [BytesIO.write], or a [struct.error] from the packing.  Which one,
    and with which text, is left open: the class name and [str(e)]. *)
Variable ill_typed : pyval → pyval → pyval → pyval → string * pystr.

(** [self._pcm_to_wav_bytesio(audio_data, sample_rate, sample_width,
    channels)] on the values of a payload. *)
Definition pcm_to_wav (audio_data sample_rate sample_width channels : pyval)
  : Result (list byte) :=
  match audio_data, as_int sample_rate, as_int sample_width, as_int channels with
  | VBytes pcm_data, Some rate, Some width, Some count =>
      _pcm_to_wav_bytesio pcm_data rate width count
  | _, _, _, _ =>
      let (cls, msg) := ill_typed audio_data sample_rate sample_width channels in
      Raise (Exception cls msg)
  end.

(** [transcript.strip() if isinstance(transcript, str) and transcript
    else None] *)
Definition stripped_transcript (transcript : pyval) : pyval :=
  match transcript with
  | VStr (c :: s) => VStr (strip_with is_whitespace (c :: s))
  | _ => VNone
  end.

(** [_transcribe_audio]: the text or [None]; only a cancellation of the
    awaited call gets out of it. *)
Definition _transcribe_audio (audio_data sample_rate sample_width channels : pyval) (st : t)
  : Result pyval * t :=
  if negb (openai_client st) then
    (Ok VNone, print "[STT] OpenAI client not available. Skipping transcription." [] st)
  else
    match pcm_to_wav audio_data sample_rate sample_width channels with
    | Raise (Exception _ msg) =>
        (Ok VNone, print "[STT ERROR] Failed to transcribe audio:" [VStr msg] st)
    | Raise CancelledError => (Raise CancelledError, st)
    | Ok wav_file =>
        match whisper (requests st) wav_file with
        | Ok transcript => (Ok (stripped_transcript transcript), sent wav_file st)
        | Raise (Exception _ msg) =>
            (Ok VNone,
             print "[STT ERROR] Failed to transcribe audio:" [VStr msg] (sent wav_file st))
        | Raise CancelledError => (Raise CancelledError, sent wav_file st)
        end
    end.

Definition transcription_payload (transcript audio_duration_sec : pyval) : pyval :=
  VDict [ (lit "text", transcript);
          (lit "audio_duration", audio_duration_sec);
          (lit "provider", VStr (lit "openai_whisper")) ].

(** The body of the [try] of [loop] after [listen] has returned
    [event] (lines 123-148). *)
Definition process (event : EventBus.Event) (st : t) : Result unit * t :=
  let payload := EventBus.ev_payload event in
  match get payload (lit "audio_data") VNone,
        get payload (lit "sample_rate") VNone,
        get payload (lit "sample_width") VNone,
        get payload (lit "channels") VNone,
        get payload (lit "audio_duration") (VInt 0) with
  | Ok audio_data, Ok sample_rate, Ok sample_width, Ok channels, Ok audio_duration_sec =>
      if negb (truthy audio_data) then (Ok (), st)
      else
        match len audio_data with
        | Raise e => (Raise e, st)
        | Ok size =>
            match format_2f audio_duration_sec with
            | Raise e => (Raise e, st)
            | Ok seconds =>
                let st1 :=
                  print "[STT] Sending to Whisper API..." []
                    (print "[STT] Received audio for transcription"
                           [VInt size; VFloat seconds] st) in
                match _transcribe_audio audio_data sample_rate sample_width channels st1 with
                | (Raise e, st2) => (Raise e, st2)
                | (Ok transcript, st2) =>
                    if truthy transcript then
                      (Ok (),
                       emit (lit "transcription")
                            (transcription_payload transcript audio_duration_sec)
                            (print "[STT] Transcription:" [transcript] st2))
                    else (Ok (), print "[STT] No transcription received" [] st2)
                end
            end
        end
  | Raise e, _, _, _, _ | _, Raise e, _, _, _ | _, _, Raise e, _, _
  | _, _, _, Raise e, _ | _, _, _, _, Raise e => (Raise e, st)
  end.

(** One iteration of [loop] on the event its [listen] returned: [true]
    when the loop goes on, [false] when it is left through [break]. *)
Definition iteration (event : EventBus.Event) (st : t) : bool * t :=
  match process event st with
  | (Ok _, st') => (true, st')
  | (Raise CancelledError, st') => (false, st')
  | (Raise (Exception _ msg), st') =>
      (true, print "[STT ERROR] Error in STT module loop:" [VStr msg] st')
  end.

End Service.

End OpenAIWhisperSTT.

(** ** Facts about speech to text *)

Module OpenAIWhisperSTTFacts.
Import OpenAIWhisperSTT.
Local Open Scope Z_scope.

(** *** Little-endian fields *)

Lemma byte_of_Z_value (z : Z) : Z.of_N (Byte.to_N (WakeWordVAD.byte_of_Z z)) = z `mod` 256.
Proof.
  unfold WakeWordVAD.byte_of_Z.
  assert (0 ≤ z `mod` 256 < 256) as Hm by (apply Z.mod_pos_bound; lia).
  destruct (Byte.of_N (Z.to_N (z `mod` 256))) as [b|] eqn:E.
  - apply Byte.to_of_N in E. simpl. rewrite E. lia.
  - apply Byte.of_N_None_iff in E. lia.
Qed.

Lemma le_value_bytes (size : nat) : ∀ z,
  0 ≤ z < 256 ^ Z.of_nat size → le_value (le_bytes size z) = z.
Proof.
  induction size as [|size IH]; intros z Hz.
  - simpl in *. lia.
  - cbn [le_bytes le_value foldr]. fold (le_value (le_bytes size (z / 256))).
    rewrite byte_of_Z_value, IH.
    + pose proof (Z.div_mod z 256). lia.
    + rewrite Nat2Z.inj_succ, Z.pow_succ_r in Hz by lia.
      split; [apply Z.div_pos; lia|]. apply Z.div_lt_upper_bound; lia.
Qed.

Lemma length_le_bytes (size : nat) (z : Z) : length (le_bytes size z) = size.
Proof. revert z. induction size as [|size IH]; intros z; [done|]. simpl. by rewrite IH. Qed.

Lemma pack_I_ok (z : Z) : 0 ≤ z < 2 ^ 32 → pack_I z = Ok (le_bytes 4 z).
Proof.
  intros Hz. unfold pack_I.
  destruct (Z.ltb_spec z 0); [lia|]. destruct (Z.leb_spec (2 ^ 64) z); [lia|].
  destruct (Z.leb_spec (2 ^ 32) z); [lia|]. done.
Qed.

Lemma pack_H_ok (z : Z) : 0 ≤ z < 2 ^ 16 → pack_H z = Ok (le_bytes 2 z).
Proof.
  intros Hz. unfold pack_H.
  destruct (Z.ltb_spec z (- 2 ^ 63)); [lia|]. destruct (Z.leb_spec (2 ^ 63) z); [lia|].
  destruct (Z.ltb_spec z 0); [lia|]. destruct (Z.leb_spec (2 ^ 16) z); [lia|]. done.
Qed.

Lemma pack_I_raise (z : Z) : ¬ (0 ≤ z < 2 ^ 32) → ∃ msg, pack_I z = Raise (struct_error msg).
Proof.
  intros Hz. unfold pack_I.
  destruct (Z.ltb_spec z 0), (Z.leb_spec (2 ^ 64) z), (Z.leb_spec (2 ^ 32) z);
    cbn [orb]; try (by eexists); lia.
Qed.

Lemma pack_H_raise (z : Z) : ¬ (0 ≤ z < 2 ^ 16) → ∃ msg, pack_H z = Raise (struct_error msg).
Proof.
  intros Hz. unfold pack_H.
  destruct (Z.ltb_spec z (- 2 ^ 63)), (Z.leb_spec (2 ^ 63) z), (Z.ltb_spec z 0),
    (Z.leb_spec (2 ^ 16) z); cbn [orb]; try (by eexists); lia.
Qed.

Lemma pack_I_cases (z : Z) :
  (0 ≤ z < 2 ^ 32 ∧ pack_I z = Ok (le_bytes 4 z)) ∨
  (¬ (0 ≤ z < 2 ^ 32) ∧ ∃ msg, pack_I z = Raise (struct_error msg)).
Proof.
  destruct (decide (0 ≤ z < 2 ^ 32)) as [Hz|Hz].
  - left. split; [done|]. by apply pack_I_ok.
  - right. split; [done|]. by apply pack_I_raise.
Qed.

Lemma pack_H_cases (z : Z) :
  (0 ≤ z < 2 ^ 16 ∧ pack_H z = Ok (le_bytes 2 z)) ∨
  (¬ (0 ≤ z < 2 ^ 16) ∧ ∃ msg, pack_H z = Raise (struct_error msg)).
Proof.
  destruct (decide (0 ≤ z < 2 ^ 16)) as [Hz|Hz].
  - left. split; [done|]. by apply pack_H_ok.
  - right. split; [done|]. by apply pack_H_raise.
Qed.

Lemma header_fits_spec (data_size rate width count : Z) :
  0 ≤ data_size →
  header_fits data_size rate width count = true ↔
  0 ≤ 36 + data_size < 2 ^ 32 ∧ 0 ≤ count < 2 ^ 16 ∧ 0 ≤ rate < 2 ^ 32 ∧
  0 ≤ rate * width * count < 2 ^ 32 ∧ 0 ≤ width * count < 2 ^ 16 ∧
  0 ≤ width * 8 < 2 ^ 16.
Proof.
  intros Hd. unfold header_fits.
  rewrite !andb_true_iff, !Z.ltb_lt, !Z.leb_le. lia.
Qed.

(** *** The WAV file *)

Lemma riff : bytes_lit "RIFF" = [x52; x49; x46; x46]%byte.
Proof. reflexivity. Qed.

Lemma wave : bytes_lit "WAVE" = [x57; x41; x56; x45]%byte.
Proof. reflexivity. Qed.

Lemma fmt : bytes_lit "fmt " = [x66; x6d; x74; x20]%byte.
Proof. reflexivity. Qed.

Lemma data : bytes_lit "data" = [x64; x61; x74; x61]%byte.
Proof. reflexivity. Qed.

(** The file [_pcm_to_wav_bytesio] builds when the fields fit. *)
Definition wav_of (pcm_data : list byte) (rate width count : Z) : list byte :=
  bytes_lit "RIFF" ++ le_bytes 4 (36 + Z.of_nat (length pcm_data)) ++
  bytes_lit "WAVE" ++ bytes_lit "fmt " ++ le_bytes 4 16 ++ le_bytes 2 1 ++
  le_bytes 2 count ++ le_bytes 4 rate ++ le_bytes 4 (rate * width * count) ++
  le_bytes 2 (width * count) ++ le_bytes 2 (width * 8) ++ bytes_lit "data" ++
  le_bytes 4 (Z.of_nat (length pcm_data)) ++ pcm_data.

Lemma pcm_to_wav_fits (pcm_data : list byte) (rate width count : Z) :
  header_fits (Z.of_nat (length pcm_data)) rate width count = true →
  _pcm_to_wav_bytesio pcm_data rate width count = Ok (wav_of pcm_data rate width count).
Proof.
  intros Hfits. apply header_fits_spec in Hfits as (H1 & H2 & H3 & H4 & H5 & H6); [|lia].
  unfold _pcm_to_wav_bytesio. cbn zeta.
  rewrite (pack_I_ok (36 + _)), (pack_I_ok 16), (pack_H_ok 1), (pack_H_ok count),
    (pack_I_ok rate), (pack_I_ok (rate * width * count)), (pack_H_ok (width * count)),
    (pack_H_ok (width * 8)), (pack_I_ok (Z.of_nat _)) by lia.
  unfold mbind, Result_bind. unfold wav_of. by rewrite <- !app_assoc.
Qed.

Lemma length_wav_of (pcm_data : list byte) (rate width count : Z) :
  length (wav_of pcm_data rate width count) = (44 + length pcm_data)%nat.
Proof.
  unfold wav_of. rewrite riff, wave, fmt, data.
  rewrite !length_app, !length_le_bytes. simpl. lia.
Qed.

Ltac fold_fields :=
  repeat match goal with
  | |- context [le_value [WakeWordVAD.byte_of_Z ?z; WakeWordVAD.byte_of_Z (?z / 256);
                          WakeWordVAD.byte_of_Z (?z / 256 / 256);
                          WakeWordVAD.byte_of_Z (?z / 256 / 256 / 256)]] =>
      change [WakeWordVAD.byte_of_Z z; WakeWordVAD.byte_of_Z (z / 256);
              WakeWordVAD.byte_of_Z (z / 256 / 256);
              WakeWordVAD.byte_of_Z (z / 256 / 256 / 256)]
        with (le_bytes 4 z)
  | |- context [le_value [WakeWordVAD.byte_of_Z ?z; WakeWordVAD.byte_of_Z (?z / 256)]] =>
      change [WakeWordVAD.byte_of_Z z; WakeWordVAD.byte_of_Z (z / 256)]
        with (le_bytes 2 z)
  end.

Lemma parse_wav_of (pcm_data : list byte) (rate width count : Z) :
  header_fits (Z.of_nat (length pcm_data)) rate width count = true →
  parse_wav (wav_of pcm_data rate width count) =
  Some ({| chunk_size := 36 + Z.of_nat (length pcm_data);
           subchunk1_size := 16;
           audio_format := 1;
           num_channels := count;
           sample_rate := rate;
           byte_rate := rate * width * count;
           block_align := width * count;
           bits_per_sample := width * 8;
           subchunk2_size := Z.of_nat (length pcm_data) |},
        pcm_data).
Proof.
  intros Hfits. apply header_fits_spec in Hfits as (H1 & H2 & H3 & H4 & H5 & H6); [|lia].
  unfold parse_wav, wav_of, field. rewrite riff, wave, fmt, data.
  cbn [le_bytes app take drop].
  change (take 0 pcm_data) with (@nil byte). change (drop 0 pcm_data) with pcm_data.
  rewrite !bool_decide_eq_true_2 by reflexivity. cbn [andb].
  fold_fields.
  rewrite !(le_value_bytes 4), !(le_value_bytes 2) by (change (256 ^ Z.of_nat 4) with (2 ^ 32);
    change (256 ^ Z.of_nat 2) with (2 ^ 16); lia).
  reflexivity.
Qed.

(** When every field fits its width, the file is the 44-byte canonical
    header followed by the samples, and read back it gives PCM format
    (1), the channels, the rate, the byte rate [rate * width * channels],
    the block alignment [width * channels], [8 * width] bits per sample,
    the sizes [36 + n] and [n], and the [n] bytes of the samples
    unchanged. *)
Theorem wav_round_trip (pcm_data : list byte) (rate width count : Z) :
  header_fits (Z.of_nat (length pcm_data)) rate width count = true →
  ∃ wav,
    _pcm_to_wav_bytesio pcm_data rate width count = Ok wav ∧
    length wav = (44 + length pcm_data)%nat ∧
    parse_wav wav =
    Some ({| chunk_size := 36 + Z.of_nat (length pcm_data);
             subchunk1_size := 16;
             audio_format := 1;
             num_channels := count;
             sample_rate := rate;
             byte_rate := rate * width * count;
             block_align := width * count;
             bits_per_sample := width * 8;
             subchunk2_size := Z.of_nat (length pcm_data) |},
          pcm_data).
Proof.
  intros Hfits. exists (wav_of pcm_data rate width count).
  split; [by apply pcm_to_wav_fits|]. split; [apply length_wav_of|by apply parse_wav_of].
Qed.

(** The conversion fails exactly when a field does not fit its width
    (more than [2^32 - 37] bytes of samples, a negative argument, a rate
    or byte rate of [2^32] or more, ...), and then with
    [struct.error]. *)
Theorem wav_fails_when_a_field_overflows (pcm_data : list byte) (rate width count : Z) :
  header_fits (Z.of_nat (length pcm_data)) rate width count = false ↔
  ∃ msg, _pcm_to_wav_bytesio pcm_data rate width count = Raise (struct_error msg).
Proof.
  split.
  - intros Hfits.
    assert (¬ (0 ≤ 36 + Z.of_nat (length pcm_data) < 2 ^ 32 ∧ 0 ≤ count < 2 ^ 16 ∧
               0 ≤ rate < 2 ^ 32 ∧ 0 ≤ rate * width * count < 2 ^ 32 ∧
               0 ≤ width * count < 2 ^ 16 ∧ 0 ≤ width * 8 < 2 ^ 16)) as Hno.
    { rewrite <- header_fits_spec by lia. by rewrite Hfits. }
    unfold _pcm_to_wav_bytesio. cbn zeta. unfold mbind, Result_bind.
    destruct (pack_I_cases (36 + Z.of_nat (length pcm_data))) as [[? ->]|[_ [msg ->]]];
      [|by eexists].
    rewrite (pack_I_ok 16), (pack_H_ok 1) by lia.
    destruct (pack_H_cases count) as [[? ->]|[_ [msg ->]]]; [|by eexists].
    destruct (pack_I_cases rate) as [[? ->]|[_ [msg ->]]]; [|by eexists].
    destruct (pack_I_cases (rate * width * count)) as [[? ->]|[_ [msg ->]]]; [|by eexists].
    destruct (pack_H_cases (width * count)) as [[? ->]|[_ [msg ->]]]; [|by eexists].
    destruct (pack_H_cases (width * 8)) as [[? ->]|[_ [msg ->]]]; [|by eexists].
    destruct (pack_I_cases (Z.of_nat (length pcm_data))) as [[? ->]|[_ [msg ->]]];
      [|by eexists].
    destruct Hno. lia.
  - intros [msg Hraise].
    destruct (header_fits (Z.of_nat (length pcm_data)) rate width count) eqn:Hfits; [|done].
    by rewrite pcm_to_wav_fits in Hraise.
Qed.

(** *** [strip] *)

Lemma head_rev {A} (l : list A) : head (rev l) = last l.
Proof.
  induction l as [|x l _] using rev_ind; [done|].
  by rewrite rev_unit, last_snoc.
Qed.

Lemma last_rev {A} (l : list A) : last (rev l) = head l.
Proof. by rewrite <- head_rev, rev_involutive. Qed.

Lemma lstrip_head_kept {A} (space : A → bool) (s : list A) (c : A) :
  head (lstrip space s) = Some c → space c = false.
Proof.
  induction s as [|x s IH]; [done|]. simpl.
  destruct (space x) eqn:Hx; [done|]. by intros [= <-].
Qed.

Lemma lstrip_fix {A} (space : A → bool) (s : list A) :
  (∀ c, head s = Some c → space c = false) → lstrip space s = s.
Proof. destruct s as [|x s]; [done|]. intros H. simpl. by rewrite (H x). Qed.

Lemma lstrip_last {A} (space : A → bool) (s : list A) :
  lstrip space s ≠ [] → last (lstrip space s) = last s.
Proof.
  induction s as [|x s IH]; [done|]. simpl.
  destruct (space x); [|done]. intros Hne. rewrite IH by done.
  destruct s; [done|]. done.
Qed.

(** What [strip()] returns neither starts nor ends with whitespace. *)
Lemma strip_with_ends {A} (space : A → bool) (s : list A) (c : A) :
  (head (strip_with space s) = Some c → space c = false) ∧
  (last (strip_with space s) = Some c → space c = false).
Proof.
  unfold strip_with. rewrite head_rev, last_rev. split.
  - destruct (lstrip space (rev (lstrip space s))) as [|x u] eqn:Hu; [done|].
    rewrite <- Hu, lstrip_last by by rewrite Hu.
    rewrite last_rev. apply lstrip_head_kept.
  - apply lstrip_head_kept.
Qed.

(** [strip()] of a stripped string changes nothing. *)
Lemma strip_with_idem {A} (space : A → bool) (s : list A) :
  strip_with space (strip_with space s) = strip_with space s.
Proof.
  set (r := strip_with space s).
  assert (∀ c, head r = Some c → space c = false) as Hh
    by (intros c; apply strip_with_ends).
  assert (∀ c, last r = Some c → space c = false) as Hl
    by (intros c; apply strip_with_ends).
  unfold strip_with. rewrite (lstrip_fix space r) by done.
  rewrite (lstrip_fix space (rev r)) by (intros c; rewrite head_rev; apply Hl).
  apply rev_involutive.
Qed.

(** *** The loop *)

Section Service.
Variable whisper : list (list byte) → list byte → Result pyval.
Variable ill_typed : pyval → pyval → pyval → pyval → string * pystr.

Local Abbreviation transcribe := (_transcribe_audio whisper ill_typed).
Local Abbreviation process := (OpenAIWhisperSTT.process whisper ill_typed).
Local Abbreviation iteration := (OpenAIWhisperSTT.iteration whisper ill_typed).

Lemma stripped_transcript_clean (transcript : pyval) :
  truthy (stripped_transcript transcript) = true →
  ∃ s, stripped_transcript transcript = VStr s ∧ s ≠ [] ∧ strip_with is_whitespace s = s.
Proof.
  destruct transcript as [| | | |[|c s]| | |]; try done.
  cbn [stripped_transcript truthy]. intros Ht.
  exists (strip_with is_whitespace (c :: s)). split; [done|].
  split; [|apply strip_with_idem].
  intros Hnil. rewrite Hnil in Ht. done.
Qed.

(** [_transcribe_audio] publishes nothing, and what it returns is
    [None] or a stripped text. *)
Lemma transcribe_bus audio_data rate width count (st : t) :
  event_bus (transcribe audio_data rate width count st).2 = event_bus st ∧
  ∀ transcript, (transcribe audio_data rate width count st).1 = Ok transcript →
    transcript = VNone ∨ ∃ raw, transcript = stripped_transcript raw.
Proof.
  unfold _transcribe_audio. destruct (openai_client st); cbn [negb].
  2: { split; [done|]. intros ? [= <-]. by left. }
  destruct (pcm_to_wav ill_typed audio_data rate width count) as [wav|[cls msg|]].
  - destruct (whisper (requests st) wav) as [raw|[cls msg|]]; (split; [done|]).
    + intros ? [= <-]. right. by eexists.
    + intros ? [= <-]. by left.
    + done.
  - split; [done|]. intros ? [= <-]. by left.
  - by split.
Qed.

Lemma process_bus (event : EventBus.Event) (st : t) :
  event_bus (process event st).2 = event_bus st ∨
  ∃ s duration seconds,
    s ≠ [] ∧ strip_with is_whitespace s = s ∧
    get (EventBus.ev_payload event) (lit "audio_duration") (VInt 0) = Ok duration ∧
    format_2f duration = Ok seconds ∧
    event_bus (process event st).2 =
      EventBus.emit (event_bus st) (lit "transcription")
        (transcription_payload (VStr s) duration).
Proof.
  unfold OpenAIWhisperSTT.process.
  destruct (EventBus.ev_payload event) as [| | | | | | |d]; try by left.
  cbn [get].
  set (audio_data := default VNone (dict_lookup d (lit "audio_data"))).
  set (rate := default VNone (dict_lookup d (lit "sample_rate"))).
  set (width := default VNone (dict_lookup d (lit "sample_width"))).
  set (count := default VNone (dict_lookup d (lit "channels"))).
  set (duration := default (VInt 0) (dict_lookup d (lit "audio_duration"))).
  destruct (truthy audio_data); cbn [negb]; [|by left].
  destruct (len audio_data) as [size|e]; [|by left].
  destruct (format_2f duration) as [seconds|e] eqn:Hf; [|by left].
  match goal with
  | |- context [transcribe audio_data rate width count ?st1] =>
      destruct (transcribe_bus audio_data rate width count st1) as [Hb Hr];
      destruct (transcribe audio_data rate width count st1) as [[transcript|e] st2]
  end; cbn [fst snd] in *; [|by left].
  destruct (truthy transcript) eqn:Ht; [|by left].
  right. destruct (Hr transcript eq_refl) as [->|[raw ->]]; [done|].
  destruct (stripped_transcript_clean raw Ht) as (s & -> & Hne & Hs).
  exists s, duration, seconds. repeat split; try done.
  cbn [snd emit print event_bus]. by rewrite Hb.
Qed.

(** One iteration of the module's loop publishes nothing, or one
    [transcription] whose text is a non-empty string without whitespace
    at either end, whose [audio_duration] is the one of the payload
    received (0 when it has none), a number, and whose provider is
    ["openai_whisper"]. *)
Theorem transcriptions_are_clean (event : EventBus.Event) (st : t) :
  event_bus (iteration event st).2 = event_bus st ∨
  ∃ s duration seconds,
    s ≠ [] ∧ strip_with is_whitespace s = s ∧
    get (EventBus.ev_payload event) (lit "audio_duration") (VInt 0) = Ok duration ∧
    format_2f duration = Ok seconds ∧
    event_bus (iteration event st).2 =
      EventBus.emit (event_bus st) (lit "transcription")
        (transcription_payload (VStr s) duration).
Proof.
  unfold OpenAIWhisperSTT.iteration.
  destruct (process_bus event st) as [Hb|(s & duration & seconds & ? & ? & ? & ? & Hb)].
  - left. by destruct (process event st) as [[[]|[cls msg|]] st'].
  - right. exists s, duration, seconds. repeat split; try done.
    by destruct (process event st) as [[[]|[cls msg|]] st'].
Qed.

(** *** From the segmentation to the transcription *)

Lemma utterance_fits (cfg : WakeWordVAD.Config) (samples : list Z) :
  (WakeWordVAD.rate cfg ≤ 200000000)%N →
  (length samples ≤ WakeWordVAD.speech_maxlen cfg)%nat →
  header_fits (Z.of_nat (length (WakeWordVAD.tobytes samples)))
              (Z.of_N (WakeWordVAD.rate cfg)) 2 1 = true.
Proof.
  intros Hrate Hlen. apply header_fits_spec; [lia|].
  rewrite WakeWordVADFacts.tobytes_length. unfold WakeWordVAD.speech_maxlen in Hlen. lia.
Qed.

(** An utterance the segmentation publishes, received by the module
    while its client exists and the rate is at most 200 MHz: the WAV
    file of the utterance, 44 bytes longer than the samples, is sent to
    the service, and when the service returns, the module goes on; it
    has published the stripped text with an [audio_duration] of 0 (the
    segmentation's payload has no such key) when the service returned a
    string that is not blank, and nothing otherwise. *)
Theorem utterance_is_transcribed (cfg : WakeWordVAD.Config) (samples : list Z) (st : t)
    (raw : pyval) :
  (WakeWordVAD.rate cfg ≤ 200000000)%N →
  samples ≠ [] →
  (length samples ≤ WakeWordVAD.speech_maxlen cfg)%nat →
  openai_client st = true →
  whisper (requests st)
          (wav_of (WakeWordVAD.tobytes samples) (Z.of_N (WakeWordVAD.rate cfg)) 2 1) = Ok raw →
  _pcm_to_wav_bytesio (WakeWordVAD.tobytes samples) (Z.of_N (WakeWordVAD.rate cfg)) 2 1 =
    Ok (wav_of (WakeWordVAD.tobytes samples) (Z.of_N (WakeWordVAD.rate cfg)) 2 1) ∧
  length (wav_of (WakeWordVAD.tobytes samples) (Z.of_N (WakeWordVAD.rate cfg)) 2 1) =
    (44 + 2 * length samples)%nat ∧
  (iteration (WakeWordVADProtocol.audio_ready_event cfg samples) st).1 = true ∧
  requests (iteration (WakeWordVADProtocol.audio_ready_event cfg samples) st).2 =
    requests st ++ [wav_of (WakeWordVAD.tobytes samples) (Z.of_N (WakeWordVAD.rate cfg)) 2 1] ∧
  event_bus (iteration (WakeWordVADProtocol.audio_ready_event cfg samples) st).2 =
    if truthy (stripped_transcript raw)
    then EventBus.emit (event_bus st) (lit "transcription")
           (transcription_payload (stripped_transcript raw) (VInt 0))
    else event_bus st.
Proof.
  intros Hrate Hne Hlen Hclient Hraw.
  pose proof (pcm_to_wav_fits _ _ _ _ (utterance_fits cfg samples Hrate Hlen)) as Hwav.
  split; [done|].
  split; [by rewrite length_wav_of, WakeWordVADFacts.tobytes_length|].
  unfold OpenAIWhisperSTT.iteration, OpenAIWhisperSTT.process,
    WakeWordVADProtocol.audio_ready_event.
  cbn [EventBus.ev_payload].
  rewrite AgentCoreHistory.payload_audio_data, AgentCoreHistory.payload_sample_rate,
    AgentCoreHistory.payload_sample_width, AgentCoreHistory.payload_channels,
    AgentCoreHistory.payload_audio_duration.
  assert (truthy (VBytes (WakeWordVAD.tobytes samples)) = true) as ->.
  { cbn [truthy]. rewrite bool_decide_eq_false_2; [done|].
    intros Hnil. apply (f_equal length) in Hnil.
    rewrite WakeWordVADFacts.tobytes_length in Hnil. by destruct samples. }
  cbn [negb len format_2f].
  unfold _transcribe_audio. cbn [print openai_client requests]. rewrite Hclient. cbn [negb].
  unfold pcm_to_wav. cbn [as_int]. rewrite Hwav, Hraw.
  destruct (truthy (stripped_transcript raw)); by repeat split.
Qed.

End Service.

(** *** From the transcription to the gateway *)

Section Gateway.
Variable backend_chat :
  list (AgentCore.ChatCall * Result pyval) → AgentCore.ChatCall → Result pyval.

Lemma transcription_text (transcript duration : pyval) :
  get (transcription_payload transcript duration) (lit "text") VNone = Ok transcript.
Proof. reflexivity. Qed.

Lemma transcription_duration (transcript duration : pyval) :
  get (transcription_payload transcript duration) (lit "audio_duration") (VInt 0) =
  Ok duration.
Proof. reflexivity. Qed.

Lemma transcription_provider (transcript duration : pyval) :
  get (transcription_payload transcript duration) (lit "provider") (VStr (lit "unknown")) =
  Ok (VStr (lit "openai_whisper")).
Proof. reflexivity. Qed.

(** A [transcription] as the module publishes them is processed by the
    dispatch loop without an exception, and reaches the gateway: exactly
    one call is made, with the text as message and the history as it
    is. *)
Theorem transcription_reaches_the_gateway (s : pystr) (duration : pyval) (seconds : Q)
    (core : AgentCore.t) :
  s ≠ [] →
  strip_with is_whitespace s = s →
  format_2f duration = Ok seconds →
  AgentCore.backend_calls
    (AgentCore.dispatch backend_chat
       {| EventBus.ev_type := lit "transcription";
          EventBus.ev_payload := transcription_payload (VStr s) duration |} core).2 =
    AgentCore.backend_calls core ++
    [(AgentCore.call_of core (VStr s),
      backend_chat (AgentCore.backend_calls core) (AgentCore.call_of core (VStr s)))] ∧
  AgentCore.message (AgentCore.call_of core (VStr s)) = VStr s ∧
  AgentCore.call_chat_history (AgentCore.call_of core (VStr s)) = AgentCore.chat_history core ∧
  ∀ cls msg,
    (AgentCore.dispatch backend_chat
       {| EventBus.ev_type := lit "transcription";
          EventBus.ev_payload := transcription_payload (VStr s) duration |} core).1 ≠
    Raise (Exception cls msg).
Proof.
  intros Hne Hstrip Hf.
  unfold AgentCore.dispatch. cbn [EventBus.ev_type EventBus.ev_payload].
  rewrite (bool_decide_eq_false_2 (lit "transcription" = lit "wake_word_detected"))
    by discriminate.
  rewrite (bool_decide_eq_false_2 (lit "transcription" = lit "speech_start"))
    by discriminate.
  rewrite (bool_decide_eq_false_2 (lit "transcription" = lit "audio_ready_for_stt"))
    by discriminate.
  rewrite (bool_decide_eq_true_2 (lit "transcription" = lit "transcription")) by reflexivity.
  unfold mbind, AgentCore.M_bind, AgentCore.bind, AgentCore.lift.
  rewrite transcription_text, transcription_duration, transcription_provider, Hf.
  cbn beta iota.
  set (core1 := (AgentCore.print "[EVENT] Transcription received:"
                   [VStr s; VFloat seconds; VStr (lit "openai_whisper")] core).2).
  change (AgentCore.print "[EVENT] Transcription received:"
            [VStr s; VFloat seconds; VStr (lit "openai_whisper")] core) with (Ok (), core1).
  cbn beta iota.
  assert (truthy (VStr s) = true) as Ht.
  { cbn [truthy]. by rewrite bool_decide_eq_false_2. }
  assert (strip (VStr s) = Ok (VStr s)) as Hs by (cbn [strip]; by rewrite Hstrip).
  assert (AgentCore.call_of core1 (VStr s) = AgentCore.call_of core (VStr s)) as Hcall by done.
  assert (AgentCore.backend_calls core1 = AgentCore.backend_calls core) as Hcalls by done.
  clearbody core1. split; [|split; [done|split; [done|]]].
  - destruct (backend_chat (AgentCore.backend_calls core1) (AgentCore.call_of core1 (VStr s)))
      as [result|e] eqn:Hres.
    + destruct (AgentCoreHistory.handle_answered backend_chat (VStr s) (VStr s)
                  (transcription_payload (VStr s) duration) result core1 Ht Hs Ht Hres)
        as (_ & _ & _ & ->).
      by rewrite <- Hres, Hcall, Hcalls.
    + destruct (AgentCoreHistory.handle_raised backend_chat (VStr s) (VStr s)
                  (transcription_payload (VStr s) duration) core1 e Ht Hs Ht Hres)
        as (_ & _ & ->).
      by rewrite <- Hres, Hcall, Hcalls.
  - intros cls msg.
    destruct (backend_chat (AgentCore.backend_calls core1) (AgentCore.call_of core1 (VStr s)))
      as [result|[cls' msg'|]] eqn:Hres.
    + destruct (AgentCoreHistory.handle_answered backend_chat (VStr s) (VStr s)
                  (transcription_payload (VStr s) duration) result core1 Ht Hs Ht Hres)
        as (-> & _). done.
    + destruct (AgentCoreFacts.handle_gateway_exception backend_chat (VStr s) (VStr s)
                  (transcription_payload (VStr s) duration) core1 cls' msg' Ht Hs Ht Hres)
        as (-> & _). done.
    + rewrite (AgentCoreFacts.handle_calls backend_chat (VStr s) (VStr s)) by done.
      unfold AgentCore.try_except, AgentCore.await_backend_chat.
      unfold mbind, AgentCore.M_bind, AgentCore.bind, AgentCore.print. cbn beta iota zeta.
      cbn [AgentCore.backend_calls]. 
      change (AgentCore.call_of _ (VStr s)) with (AgentCore.call_of core1 (VStr s)).
      by rewrite Hres.
Qed.

End Gateway.

Section Witnesses.

Definition pcm_example : list byte := [x01; x00; xff; xff]%byte.

Lemma wav_round_trip_witness :
  ∃ wav, _pcm_to_wav_bytesio pcm_example 16000 2 1 = Ok wav ∧ length wav = 48%nat.
Proof.
  destruct (wav_round_trip pcm_example 16000 2 1 eq_refl) as (wav & Hwav & Hlen & _).
  exists wav. by split.
Defined.

Definition echo_service (requests : list (list byte)) (wav : list byte) : Result pyval :=
  Ok (VStr (lit " hello ")).

Definition no_message (a b c d : pyval) : string * pystr := ("TypeError"%string, lit "").

Definition listening : t :=
  {| event_bus := EventBus.init; stdout := []; requests := []; openai_client := true |}.

Lemma utterance_is_transcribed_witness :
  (iteration echo_service no_message
     (WakeWordVADProtocol.audio_ready_event WakeWordVAD.Session.config [1; -1]%Z)
     listening).1 = true.
Proof.
  refine (proj1 (proj2 (proj2 (utterance_is_transcribed echo_service no_message
            WakeWordVAD.Session.config [1; -1]%Z listening (VStr (lit " hello "))
            _ _ _ eq_refl eq_refl)))).
  - discriminate.
  - discriminate.
  - apply Nat2Z.inj_le. unfold WakeWordVAD.speech_maxlen, WakeWordVAD.Session.config.
    cbn [WakeWordVAD.rate length]. lia.
Defined.

Lemma transcription_reaches_the_gateway_witness :
  AgentCore.message
    (AgentCore.call_of AgentCore.Conversation.core (VStr (lit "hello"))) =
  VStr (lit "hello").
Proof.
  refine (proj1 (proj2 (transcription_reaches_the_gateway
            AgentCore.Conversation.answer_backend (lit "hello") (VInt 0) 0%Q
            AgentCore.Conversation.core _ eq_refl eq_refl))).
  discriminate.
Defined.

End Witnesses.

End OpenAIWhisperSTTFacts.
(** ** Text to speech ([src/modules/ai/elevenlabs_tts.py]) *)

Module ElevenLabsTTS.

(** What is asked of the audio device: the calls on [self.stream] and
    [self.p.open]. *)
Inductive AudioOp :=
| StopStream
| Close
| Open (rate : Z)
| Write (chunk : list byte).

(** The module as its loop sees it: whether [self.stream] is set, the
    operations asked of the device so far (the failed one included),
    what was printed, the texts sent to the synthesis, and whether the
    client and the voice are set. *)
Record t := {
  stream : bool;
  device : list AudioOp;
  stdout : list AgentCore.Line;
  synthesized : list pyval;
  client : bool;
  voice_id : bool
}.

Definition print (text : string) (args : list pyval) (st : t) : t :=
  {| stream := stream st; device := device st;
     stdout := stdout st ++ [ {| AgentCore.line_text := text; AgentCore.line_args := args |} ];
     synthesized := synthesized st; client := client st; voice_id := voice_id st |}.

Definition asked (op : AudioOp) (st : t) : t :=
  {| stream := stream st; device := device st ++ [op]; stdout := stdout st;
     synthesized := synthesized st; client := client st; voice_id := voice_id st |}.

Definition opened (st : t) : t :=
  {| stream := true; device := device st; stdout := stdout st;
     synthesized := synthesized st; client := client st; voice_id := voice_id st |}.

Definition requested (text : pyval) (st : t) : t :=
  {| stream := stream st; device := device st; stdout := stdout st;
     synthesized := synthesized st ++ [text]; client := client st; voice_id := voice_id st |}.

(** [range(0, n, step)] *)
Definition range_step (n step : nat) : list nat :=
  (fun k => k * step)%nat <$> seq 0 ((n + step - 1) / step).

(** The chunks of [for i in range(0, len(audio_data), chunk_size):
    chunk = audio_data[i:i + chunk_size]]. *)
Definition chunks (chunk_size : nat) (audio_data : list byte) : list (list byte) :=
  (fun i => take chunk_size (drop i audio_data)) <$> range_step (length audio_data) chunk_size.

Section Device.

(** The device: whether an operation succeeds, given those asked
    before. *)
Variable audio : list AudioOp → AudioOp → Result unit.

(** The conversion of a text to PCM (the request to the voice service
    and the [ffmpeg] subprocess): the bytes of [stdout], or what was
    raised, given the texts converted before. *)
Variable synthesize : list pyval → pyval → Result (list byte).

(** Operations asked one after the other, up to the first that
    raises. *)
Fixpoint perform (ops : list AudioOp) (st : t) : Result unit * t :=
  match ops with
  | [] => (Ok (), st)
  | op :: rest =>
      match audio (device st) op with
      | Ok _ => perform rest (asked op st)
      | Raise e => (Raise e, asked op st)
      end
  end.

(** The body of the [try] of [_play_audio] (lines 116-137). *)
Definition play (audio_data : list byte) (sample_rate : Z) (st : t) : Result unit * t :=
  match perform ((if stream st then [StopStream; Close] else []) ++ [Open sample_rate]) st with
  | (Raise e, st') => (Raise e, st')
  | (Ok _, st') =>
      perform ((Write <$> chunks 1024 audio_data) ++ [StopStream]) (opened st')
  end.

(** [_play_audio] *)
Definition _play_audio (audio_data : list byte) (sample_rate : Z) (st : t) : Result unit * t :=
  if bool_decide (audio_data = []) || (sample_rate =? 0) then (Ok (), st)
  else
    match play audio_data sample_rate st with
    | (Raise (Exception _ msg), st') =>
        (Ok (), print "[TTS ERROR] Failed to play audio:" [VStr msg] st')
    | outcome => outcome
    end.

(** [_text_to_speech]: the PCM bytes and the rate 44100, or [None,
    None]; a missing [ffmpeg] and any other exception are printed. *)
Definition _text_to_speech (text : pyval) (st : t) : Result (option (list byte * Z)) * t :=
  if negb (client st) || negb (voice_id st) then
    (Ok None, print "[TTS] Client or voice ID not set. Skipping TTS." [] st)
  else
    match synthesize (synthesized st) text with
    | Ok pcm => (Ok (Some (pcm, 44100)), requested text st)
    | Raise (Exception cls msg) =>
        (Ok None,
         if String.eqb cls "FileNotFoundError"
         then print "[TTS ERROR] ffmpeg not found. Please install ffmpeg to use TTS." []
                (requested text st)
         else print "[TTS ERROR] Failed to generate speech:" [VStr msg] (requested text st))
    | Raise CancelledError => (Raise CancelledError, requested text st)
    end.

(** [text[:50]] *)
Definition first_50 (text : pyval) : Result pyval :=
  match text with
  | VStr s => Ok (VStr (take 50 s))
  | VBytes b => Ok (VBytes (take 50 b))
  | VList l => Ok (VList (take 50 l))
  | VDict _ => Raise (TypeError (lit "unhashable type: 'slice'"))
  | _ => Raise (TypeError (lit "'" ++ type_name text ++ lit "' object is not subscriptable"))
  end.

(** The body of the [try] of [loop] after [listen] has returned
    [event] (lines 150-167). *)
Definition process (event : EventBus.Event) (st : t) : Result unit * t :=
  match get (EventBus.ev_payload event) (lit "text") VNone with
  | Raise e => (Raise e, st)
  | Ok text =>
      if negb (truthy text) then (Ok (), st)
      else
        match strip text with
        | Raise e => (Raise e, st)
        | Ok stripped =>
            if negb (truthy stripped) then (Ok (), st)
            else
              match first_50 text with
              | Raise e => (Raise e, st)
              | Ok shown =>
                  let st1 := print "[TTS] Converting to speech:" [shown] st in
                  match _text_to_speech text st1 with
                  | (Raise e, st2) => (Raise e, st2)
                  | (Ok None, st2) => (Ok (), print "[TTS] No audio generated" [] st2)
                  | (Ok (Some (audio_data, sample_rate)), st2) =>
                      if negb (bool_decide (audio_data = [])) && negb (sample_rate =? 0) then
                        match _play_audio audio_data sample_rate
                                (print "[TTS] Playing audio"
                                       [VInt (Z.of_nat (length audio_data)); VInt sample_rate]
                                       st2) with
                        | (Raise e, st3) => (Raise e, st3)
                        | (Ok _, st3) => (Ok (), print "[TTS] Audio playback complete" [] st3)
                        end
                      else (Ok (), print "[TTS] No audio generated" [] st2)
                  end
              end
        end
  end.

(** One iteration of [loop] on the event its [listen] returned: [true]
    when the loop goes on, [false] when it is left through [break]. *)
Definition iteration (event : EventBus.Event) (st : t) : bool * t :=
  match process event st with
  | (Ok _, st') => (true, st')
  | (Raise CancelledError, st') => (false, st')
  | (Raise (Exception _ msg), st') =>
      (true, print "[TTS ERROR] Error in TTS module loop:" [VStr msg] st')
  end.

End Device.

(** The bytes handed to [stream.write] by some operations, in order. *)
Definition written (ops : list AudioOp) : list byte :=
  mjoin (omap (fun op => match op with Write chunk => Some chunk | _ => None end) ops).

End ElevenLabsTTS.

(** ** Facts about text to speech *)

Module ElevenLabsTTSFacts.
Import ElevenLabsTTS.
Local Open Scope nat_scope.

(** *** Chunks *)

Lemma take_add {A} (a b : nat) (l : list A) :
  take (a + b) l = take a l ++ take b (drop a l).
Proof.
  revert l. induction a as [|a IH]; intros l; [done|].
  destruct l as [|x l]; [simpl; by rewrite take_nil|]. simpl. by rewrite IH.
Qed.

Lemma chunks_from {A} (size : nat) (data : list A) (n : nat) : ∀ k,
  mjoin ((fun i => take size (drop i data)) <$> ((fun j => j * size) <$> seq k n)) =
  take (n * size) (drop (k * size) data).
Proof.
  induction n as [|n IH]; intros k; [done|].
  cbn [seq fmap list_fmap mjoin list_join]. fold (@mjoin list _ A).
  change (list_fmap nat nat (fun j => j * size)) with (fmap (fun j : nat => j * size)).
  change (list_fmap nat (list A) (fun i => take size (drop i data)))
    with (fmap (fun i : nat => take size (drop i data))).
  rewrite IH. replace (S n * size) with (size + n * size) by lia.
  rewrite take_add, drop_drop. do 3 f_equal. lia.
Qed.

Lemma chunk_count (n size : nat) :
  0 < size → n ≤ (n + size - 1) / size * size < n + size.
Proof.
  intros Hs. pose proof (Nat.div_mod_eq (n + size - 1) size) as Hd.
  pose proof (Nat.mod_upper_bound (n + size - 1) size). lia.
Qed.

(** The chunks put end to end are the audio. *)
Lemma chunks_join (audio_data : list byte) : mjoin (chunks 1024 audio_data) = audio_data.
Proof.
  unfold chunks, range_step. rewrite chunks_from. cbn [Nat.mul drop].
  apply take_ge. pose proof (chunk_count (length audio_data) 1024). lia.
Qed.

(** Every chunk holds between 1 and 1024 bytes. *)
Lemma chunks_sizes (audio_data : list byte) :
  Forall (fun chunk => 0 < length chunk ≤ 1024) (chunks 1024 audio_data).
Proof.
  unfold chunks, range_step. rewrite <- list_fmap_compose.
  apply Forall_fmap, Forall_forall. intros j Hj%elem_of_seq. cbn [compose].
  rewrite length_take, length_drop.
  pose proof (chunk_count (length audio_data) 1024). nia.
Qed.

Lemma written_app (ops ops' : list AudioOp) : written (ops ++ ops') = written ops ++ written ops'.
Proof. unfold written. by rewrite omap_app, join_app. Qed.

Lemma written_writes (cs : list (list byte)) : written (Write <$> cs) = mjoin cs.
Proof.
  induction cs as [|c cs IH]; [done|].
  change (written (Write <$> c :: cs)) with (c ++ written (Write <$> cs)). by rewrite IH.
Qed.

Section Device.
Variable audio : list AudioOp → AudioOp → Result unit.
Variable synthesize : list pyval → pyval → Result (list byte).

Local Abbreviation perform := (ElevenLabsTTS.perform audio).
Local Abbreviation play := (ElevenLabsTTS.play audio).
Local Abbreviation _play_audio := (ElevenLabsTTS._play_audio audio).
Local Abbreviation process := (ElevenLabsTTS.process audio synthesize).
Local Abbreviation iteration := (ElevenLabsTTS.iteration audio synthesize).

(** What was asked of the device is a prefix of the operations, all of
    them when none raised. *)
Lemma perform_asked (ops : list AudioOp) : ∀ st,
  ∃ k,
    device (perform ops st).2 = device st ++ take k ops ∧
    ((perform ops st).1 = Ok () → k = length ops) ∧
    stream (perform ops st).2 = stream st ∧
    stdout (perform ops st).2 = stdout st ∧
    synthesized (perform ops st).2 = synthesized st.
Proof.
  induction ops as [|op ops IH]; intros st.
  - exists 0. by rewrite app_nil_r.
  - cbn [ElevenLabsTTS.perform]. destruct (audio (device st) op) as [[]|e].
    + destruct (IH (asked op st)) as (k & Hd & Hk & Hs & Ho & Hy).
      exists (S k). rewrite Hd. cbn [asked device take]. rewrite <- app_assoc.
      repeat split; try done. intros Hok. by rewrite Hk.
    + exists 1. cbn [snd fst asked device take]. rewrite take_0. by repeat split.
Qed.

Lemma perform_ok (ops : list AudioOp) : ∀ st,
  (∀ log op, audio log op = Ok ()) →
  perform ops st =
  (Ok (), {| stream := stream st; device := device st ++ ops; stdout := stdout st;
             synthesized := synthesized st; client := client st;
             voice_id := voice_id st |}).
Proof.
  intros st Hok. revert st. induction ops as [|op ops IH]; intros st.
  - simpl. rewrite app_nil_r. by destruct st.
  - cbn [ElevenLabsTTS.perform]. rewrite Hok, IH. cbn [asked stream device stdout
      synthesized client voice_id]. by rewrite <- app_assoc.
Qed.

(** The operations of a playback. *)
Definition playback (st : t) (audio_data : list byte) (sample_rate : Z) : list AudioOp :=
  (if stream st then [StopStream; Close] else []) ++ [Open sample_rate] ++
  (Write <$> chunks 1024 audio_data) ++ [StopStream].

Lemma play_audio_ok (audio_data : list byte) (sample_rate : Z) (st : t) :
  audio_data ≠ [] →
  sample_rate ≠ 0%Z →
  (∀ log op, audio log op = Ok ()) →
  _play_audio audio_data sample_rate st =
    (Ok (), {| stream := true;
               device := device st ++ playback st audio_data sample_rate;
               stdout := stdout st; synthesized := synthesized st;
               client := client st; voice_id := voice_id st |}) ∧
  written (playback st audio_data sample_rate) = audio_data.
Proof.
  intros Hne Hrate Hok. split.
  - unfold ElevenLabsTTS._play_audio.
    rewrite bool_decide_eq_false_2 by done.
    destruct (Z.eqb_spec sample_rate 0) as [?|_]; [done|]. cbn [orb].
    unfold ElevenLabsTTS.play. rewrite perform_ok by done.
    rewrite perform_ok by done.
    cbn [opened stream device stdout synthesized client voice_id].
    unfold playback. by rewrite <- !app_assoc.
  - unfold playback. rewrite !written_app, written_writes, chunks_join.
    destruct (stream st); by rewrite app_nil_r.
Qed.

(** With a device that does what it is asked, [_play_audio] stops and
    closes the stream left by the previous playback, opens one at the
    rate given, writes the audio in chunks of 1024 bytes (the last one
    possibly shorter, none empty) which put end to end are the audio,
    and stops the stream, which it leaves open. *)
Theorem playback_is_chunked (audio_data : list byte) (sample_rate : Z) (st : t) :
  audio_data ≠ [] →
  sample_rate ≠ 0%Z →
  (∀ log op, audio log op = Ok ()) →
  _play_audio audio_data sample_rate st =
    (Ok (), {| stream := true;
               device := device st ++ playback st audio_data sample_rate;
               stdout := stdout st; synthesized := synthesized st;
               client := client st; voice_id := voice_id st |}) ∧
  written (playback st audio_data sample_rate) = audio_data ∧
  Forall (fun chunk => 0 < length chunk ≤ 1024) (chunks 1024 audio_data).
Proof.
  intros Hne Hrate Hok.
  destruct (play_audio_ok audio_data sample_rate st Hne Hrate Hok) as [Hp Hw].
  split; [done|]. split; [done|apply chunks_sizes].
Qed.

Lemma written_prefix (cs : list (list byte)) (k : nat) :
  written (take k ((Write <$> cs) ++ [StopStream])) `prefix_of` mjoin cs.
Proof.
  revert k. induction cs as [|c cs IH]; intros k.
  - destruct k as [|[|k]]; apply prefix_nil.
  - destruct k as [|k]; [apply prefix_nil|].
    cbn [fmap list_fmap app take]. change (written (Write c :: ?l)) with (c ++ written l).
    cbn [mjoin list_join]. apply prefix_app, IH.
Qed.

(** Whatever the device does, [_play_audio] raises no exception, and
    what it has handed to [stream.write] is a prefix of the audio: never
    a byte out of order, twice, or from elsewhere. *)
Theorem playback_writes_a_prefix (audio_data : list byte) (sample_rate : Z) (st : t) :
  (∀ cls msg, (_play_audio audio_data sample_rate st).1 ≠ Raise (Exception cls msg)) ∧
  ∃ bytes,
    written (device (_play_audio audio_data sample_rate st).2) =
      written (device st) ++ bytes ∧
    bytes `prefix_of` audio_data.
Proof.
  unfold ElevenLabsTTS._play_audio.
  destruct (bool_decide (audio_data = []) || (sample_rate =? 0)%Z).
  { split; [done|]. exists []. split; [by rewrite app_nil_r|apply prefix_nil]. }
  assert (∃ bytes, written (device (play audio_data sample_rate st).2) =
                     written (device st) ++ bytes ∧ bytes `prefix_of` audio_data)
    as (bytes & Hw & Hp).
  { unfold ElevenLabsTTS.play.
    destruct (perform_asked ((if stream st then [StopStream; Close] else []) ++
                             [Open sample_rate]) st) as (k & Hd & _).
    destruct (perform _ st) as [[[]|e] st1]; cbn [fst snd] in *.
    - destruct (perform_asked ((Write <$> chunks 1024 audio_data) ++ [StopStream])
                  (opened st1)) as (k' & Hd' & _).
      exists (written (take k' ((Write <$> chunks 1024 audio_data) ++ [StopStream]))).
      rewrite Hd'. cbn [opened device]. rewrite Hd, !written_app.
      split.
      + f_equal. rewrite <- (app_nil_r (written (device st))) at 2. f_equal.
        destruct (stream st); by destruct k as [|[|[|[|k]]]].
      + rewrite <- (chunks_join audio_data) at 2. apply written_prefix.
    - exists []. rewrite Hd, written_app. split; [|apply prefix_nil]. f_equal.
      destruct (stream st); by destruct k as [|[|[|[|k]]]]. }
  destruct (play audio_data sample_rate st) as [[[]|[cls msg|]] st']; cbn [fst snd] in *;
    (split; [done|]); by exists bytes.
Qed.

(** *** The loop *)

(** A text with something to say: a [str] (or [bytes]) that is not made
    of whitespace only. *)
Definition speakable (text : pyval) : bool :=
  match text with
  | VStr s => negb (forallb is_whitespace s)
  | VBytes b => negb (forallb is_ascii_whitespace b)
  | _ => false
  end.

Lemma lstrip_nil {A} (space : A → bool) (s : list A) :
  lstrip space s = [] → forallb space s = true.
Proof.
  induction s as [|c s IH]; [done|]. simpl. destruct (space c); [|done]. exact IH.
Qed.

Lemma strip_with_nil {A} (space : A → bool) (s : list A) :
  strip_with space s = [] → forallb space s = true.
Proof.
  unfold strip_with. intros Hr.
  assert (lstrip space (rev (lstrip space s)) = []) as Hu.
  { by rewrite <- (rev_involutive (lstrip _ (rev _))), Hr. }
  apply lstrip_nil in Hu.
  destruct (lstrip space s) as [|c t] eqn:Ht; [by apply lstrip_nil|].
  assert (space c = false) as Hc.
  { apply (OpenAIWhisperSTTFacts.lstrip_head_kept space s). by rewrite Ht. }
  rewrite forallb_forall in Hu. rewrite (Hu c) in Hc; [done|].
  apply in_rev. rewrite rev_involutive. by left.
Qed.

Lemma speakable_strip (text : pyval) :
  speakable text = true →
  truthy text = true ∧ ∃ stripped, strip text = Ok stripped ∧ truthy stripped = true.
Proof.
  destruct text as [| | | |s|b| |]; try done; cbn [speakable]; intros Hs%negb_true_iff.
  - split; [by destruct s|]. eexists. split; [reflexivity|].
    cbn [truthy]. rewrite bool_decide_eq_false_2; [done|].
    intros Hnil%strip_with_nil. congruence.
  - split; [by destruct b|]. eexists. split; [reflexivity|].
    cbn [truthy]. rewrite bool_decide_eq_false_2; [done|].
    intros Hnil%strip_with_nil. congruence.
Qed.

Lemma unspeakable_strip (text : pyval) :
  speakable text = false →
  truthy text = false ∨ (∃ cls msg, strip text = Raise (Exception cls msg)) ∨
  ∃ stripped, strip text = Ok stripped ∧ truthy stripped = false.
Proof.
  destruct text as [| |z|q|s|b|l|d]; cbn [speakable].
  - by left.
  - intros _. right. left. by eexists _, _.
  - intros _. right. left. by eexists _, _.
  - intros _. right. left. by eexists _, _.
  - intros Hs%negb_false_iff. right. right. eexists. split; [reflexivity|].
    cbn [truthy]. unfold strip_with. by rewrite (AgentCoreFacts.lstrip_all _ s Hs).
  - intros Hs%negb_false_iff. right. right. eexists. split; [reflexivity|].
    cbn [truthy]. unfold strip_with. by rewrite (AgentCoreFacts.lstrip_all _ b Hs).
  - intros _. right. left. by eexists _, _.
  - intros _. right. left. by eexists _, _.
Qed.

(** The playback leaves the record of the texts sent to the synthesis
    alone. *)
Lemma play_audio_synthesized (audio_data : list byte) (sample_rate : Z) (st : t) :
  synthesized (_play_audio audio_data sample_rate st).2 = synthesized st.
Proof.
  unfold ElevenLabsTTS._play_audio.
  destruct (bool_decide (audio_data = []) || (sample_rate =? 0)%Z); [done|].
  assert (synthesized (play audio_data sample_rate st).2 = synthesized st) as Hp.
  { unfold ElevenLabsTTS.play.
    destruct (perform_asked ((if stream st then [StopStream; Close] else []) ++
                             [Open sample_rate]) st) as (k & _ & _ & _ & _ & Hy).
    destruct (perform _ st) as [[[]|e] st1]; cbn [fst snd] in *; [|done].
    destruct (perform_asked ((Write <$> chunks 1024 audio_data) ++ [StopStream])
                (opened st1)) as (k' & _ & _ & _ & _ & Hy').
    by rewrite Hy'. }
  destruct (play audio_data sample_rate st) as [[[]|[cls msg|]] st']; cbn [fst snd] in *;
    done.
Qed.

(** The guard of line 154 lets a text through exactly when it has
    something to say ([speakable]).
    - A text that has not (missing or [None]; an empty or blank [str];
      an empty or blank [bytes]; a number, a [bool], a list or a dict) is
      skipped: nothing is sent to the synthesis, nothing is asked of the
      device, the loop goes on, and the module is as before but for the
      error line, printed when [.strip()] raised on a truthy value that
      has no such method.
    - A text that has (a [str] or a [bytes], which has [.strip()] too,
      with a character that is not whitespace) is sent to the synthesis
      when the client and the voice are set, whatever comes of it. *)
Theorem unspeakable_text_is_skipped (event : EventBus.Event) (st : t) (text : pyval) :
  get (EventBus.ev_payload event) (lit "text") VNone = Ok text →
  (speakable text = false →
   (iteration event st).1 = true ∧
   synthesized (iteration event st).2 = synthesized st ∧
   device (iteration event st).2 = device st ∧
   ((iteration event st).2 = st ∨
    ∃ msg, (iteration event st).2 =
             print "[TTS ERROR] Error in TTS module loop:" [VStr msg] st)) ∧
  (speakable text = true →
   client st = true →
   voice_id st = true →
   synthesized (iteration event st).2 = synthesized st ++ [text]).
Proof.
  intros Hget. split.
  - intros Hs. unfold ElevenLabsTTS.iteration, ElevenLabsTTS.process. rewrite Hget.
    destruct (unspeakable_strip text Hs) as [Ht|[(cls & msg & He)|(stripped & He & Ht)]].
    + rewrite Ht. cbn [negb fst snd]. by repeat split; try left.
    + rewrite He. destruct (truthy text); cbn [negb fst snd print synthesized device].
      * repeat split; try done. right. by exists msg.
      * by repeat split; try left.
    + rewrite He, Ht. destruct (truthy text); cbn [negb fst snd]; by repeat split; try left.
  - intros Hs Hc Hv.
    destruct (speakable_strip _ Hs) as (Ht & stripped & Hstrip & Hst).
    assert (∃ shown, first_50 text = Ok shown) as [shown Hshown].
    { destruct text; try done; by eexists. }
    unfold ElevenLabsTTS.iteration, ElevenLabsTTS.process.
    rewrite Hget, Ht. cbn [negb]. rewrite Hstrip, Hst. cbn [negb]. rewrite Hshown.
    unfold _text_to_speech. cbn [print client voice_id synthesized]. rewrite Hc, Hv.
    cbn [negb orb].
    destruct (synthesize (synthesized st) text) as [pcm|[cls msg|]]; [| |done].
    + destruct (negb (bool_decide (pcm = [])) && negb (44100 =? 0)%Z); [|done].
      match goal with
      | |- context [ElevenLabsTTS._play_audio audio pcm 44100%Z ?st2] =>
          pose proof (play_audio_synthesized pcm 44100%Z st2) as Hp;
          destruct (ElevenLabsTTS._play_audio audio pcm 44100%Z st2) as [[[]|[cls msg|]] st3]
      end; cbn [fst snd print requested synthesized] in *; done.
    + by destruct (String.eqb cls "FileNotFoundError").
Qed.

(** An [agent_response] as the supervisor publishes it, with a text
    that has something to say, while the client and the voice are set,
    the synthesis returns audio and the device does what it is asked:
    the text is sent to the synthesis once, the audio it returns is
    played at 44100 Hz, all of it and in order, and the loop goes on. *)
Theorem answer_is_spoken (s : pystr) (st : t) (pcm : list byte) :
  speakable (VStr s) = true →
  client st = true →
  voice_id st = true →
  synthesize (synthesized st) (VStr s) = Ok pcm →
  pcm ≠ [] →
  (∀ log op, audio log op = Ok ()) →
  (iteration {| EventBus.ev_type := lit "agent_response";
                EventBus.ev_payload := VDict [(lit "text", VStr s)] |} st).1 = true ∧
  synthesized (iteration {| EventBus.ev_type := lit "agent_response";
                            EventBus.ev_payload := VDict [(lit "text", VStr s)] |} st).2 =
    synthesized st ++ [VStr s] ∧
  device (iteration {| EventBus.ev_type := lit "agent_response";
                       EventBus.ev_payload := VDict [(lit "text", VStr s)] |} st).2 =
    device st ++ playback st pcm 44100 ∧
  written (playback st pcm 44100) = pcm.
Proof.
  intros Hs Hc Hv Hsyn Hne Hok.
  destruct (speakable_strip _ Hs) as (Ht & stripped & Hstrip & Hst).
  unfold ElevenLabsTTS.iteration, ElevenLabsTTS.process. cbn [EventBus.ev_payload].
  change (get (VDict [(lit "text", VStr s)]) (lit "text") VNone) with (Ok (VStr s)).
  cbn beta iota. rewrite Ht. cbn [negb]. rewrite Hstrip, Hst. cbn [negb first_50].
  unfold _text_to_speech. cbn [print client voice_id synthesized]. rewrite Hc, Hv, Hsyn.
  cbn [negb orb]. rewrite (bool_decide_eq_false_2 (pcm = [])) by done. cbn [negb andb Z.eqb].
  match goal with
  | |- context [_play_audio pcm 44100%Z ?st2] =>
      destruct (play_audio_ok pcm 44100%Z st2 Hne ltac:(done) Hok) as [-> Hw]
  end.
  cbn [fst snd print requested synthesized device stream playback].
  by repeat split.
Qed.

End Device.

Section Witnesses.

Definition good_device (log : list AudioOp) (op : AudioOp) : Result unit := Ok ().

Definition voice (texts : list pyval) (text : pyval) : Result (list byte) :=
  Ok [x01; x00; xff; xff]%byte.

Definition idle : t :=
  {| stream := false; device := []; stdout := []; synthesized := [];
     client := true; voice_id := true |}.

Lemma playback_is_chunked_witness :
  written (playback idle [x01; x00; xff; xff]%byte 44100) = [x01; x00; xff; xff]%byte.
Proof.
  apply (playback_is_chunked good_device [x01; x00; xff; xff]%byte 44100 idle); done.
Defined.

(** A blank text, a number and a [bytes] with something in it. *)
Lemma unspeakable_text_is_skipped_witness :
  (iteration good_device voice
     {| EventBus.ev_type := lit "agent_response";
        EventBus.ev_payload := VDict [(lit "text", VStr (lit "  "))] |} idle).1 = true ∧
  synthesized
    (iteration good_device voice
       {| EventBus.ev_type := lit "agent_response";
          EventBus.ev_payload := VDict [(lit "text", VInt 7)] |} idle).2 = synthesized idle ∧
  synthesized
    (iteration good_device voice
       {| EventBus.ev_type := lit "agent_response";
          EventBus.ev_payload := VDict [(lit "text", VBytes [x68; x69]%byte)] |} idle).2 =
    synthesized idle ++ [VBytes [x68; x69]%byte].
Proof.
  split; [|split].
  - refine (proj1 (proj1 (unspeakable_text_is_skipped good_device voice
                            {| EventBus.ev_type := lit "agent_response";
                               EventBus.ev_payload := VDict [(lit "text", VStr (lit "  "))] |}
                            idle (VStr (lit "  ")) _) _)); reflexivity.
  - refine (proj1 (proj2 (proj1 (unspeakable_text_is_skipped good_device voice
                                   {| EventBus.ev_type := lit "agent_response";
                                      EventBus.ev_payload := VDict [(lit "text", VInt 7)] |}
                                   idle (VInt 7) _) _))); reflexivity.
  - refine (proj2 (unspeakable_text_is_skipped good_device voice
                     {| EventBus.ev_type := lit "agent_response";
                        EventBus.ev_payload :=
                          VDict [(lit "text", VBytes [x68; x69]%byte)] |}
                     idle (VBytes [x68; x69]%byte) _) _ _ _); reflexivity.
Defined.

Lemma answer_is_spoken_witness :
  synthesized
    (iteration good_device voice
       {| EventBus.ev_type := lit "agent_response";
          EventBus.ev_payload := VDict [(lit "text", VStr (lit "hi"))] |} idle).2 =
  synthesized idle ++ [VStr (lit "hi")].
Proof.
  apply (answer_is_spoken good_device voice (lit "hi") idle [x01; x00; xff; xff]%byte);
    done.
Defined.

End Witnesses.

End ElevenLabsTTSFacts.
